(** * Schema inference and identifier coercion of the MongoDB MCP server

    A shallow embedding of the two pieces of [src/index.ts] that carry
    algorithmic content:

    - the [getSchema] tool case (lines 500-581) with its local recursive
      closure [analyzeObject], which folds the sampled documents into the
      [fieldInfo] accumulator and formats the report;
    - the private method [convertToObjectIds] (lines 117-153).

    JavaScript values are an inductive type, JavaScript numbers are IEEE
    binary64 values (the specification of the Standard Library,
    [SpecFloat]), plain objects are association lists kept in property
    enumeration order, and a thrown [TypeError] is an explicit result. *)

From Stdlib Require Import String Ascii List ZArith Lia Bool Arith PeanoNat.
From Stdlib Require Import Permutation.
From Stdlib Require Import SpecFloat Decimal DecimalString.
Import ListNotations.

Local Open Scope string_scope.
Local Open Scope list_scope.

(** ** JavaScript numbers *)

Module Num.

Definition prec : Z := 53.
Definition emax : Z := 1024.

(** A JavaScript number: a binary64 value. *)
Definition number : Type := spec_float.

(** The number nearest to an integer. *)
Definition of_Z (z : Z) : number := binary_normalize prec emax z 0 false.
Definition of_nat (n : nat) : number := of_Z (Z.of_nat n).

(** [x / y] and [x * y]. *)
Definition div (x y : number) : number := SFdiv prec emax x y.
Definition mul (x y : number) : number := SFmul prec emax x y.

(** [Math.round(x)]: the integer nearest to [x], ties towards positive
    infinity, computed exactly as [floor (x + 1/2)]; zeros, infinities
    and NaN are returned as they are, and a result of zero keeps the
    sign of [x]. *)
Definition Math_round (x : number) : number :=
  match x with
  | S754_finite s m e =>
      if (0 <=? e)%Z then x
      else
        let twice := (2 * cond_Zopp s (Zpos m) + 2 ^ (- e))%Z in
        match (twice / 2 ^ (1 - e))%Z with
        | Z0 => S754_zero s
        | n => of_Z n
        end
  | _ => x
  end.

(** The integer a number denotes, when it denotes one. *)
Definition to_Z (x : number) : option Z :=
  match x with
  | S754_zero _ => Some 0%Z
  | S754_finite s m e =>
      if (0 <=? e)%Z then Some (cond_Zopp s (Zpos m) * 2 ^ e)%Z
      else if (Zpos m mod 2 ^ (- e) =? 0)%Z
           then Some (cond_Zopp s (Zpos m / 2 ^ (- e)))%Z
           else None
  | _ => None
  end.

(** Whether bits were lost on the way to a shifted mantissa (the round
    and sticky bits of [SpecFloat]). *)
Definition inexact (mrs : shr_record) : bool := shr_r mrs || shr_s mrs.

(** [ToString] of a count: the decimal digits (counts are below 1e21). *)
Definition string_of_nat (n : nat) : string :=
  NilZero.string_of_uint (Nat.to_uint n).

End Num.

(** ** JavaScript values *)

Unset Elimination Schemes.

(** The values a document deserialised by the driver, or a JSON argument,
    is made of.  [VObj] is any object that is neither an array, a [Date]
    nor an [ObjectId], seen through its own enumerable string-keyed
    properties in enumeration order. *)
Inductive value : Type :=
| VUndefined
| VNull
| VBool (b : bool)
| VNum (x : Num.number)
| VBigInt (z : Z)
| VStr (s : string)
| VDate (ms : Z)
| VObjectId (id : string)
| VArr (elems : list value)
| VObj (props : list (string * value)).

Set Elimination Schemes.

Section ValueInd.

Variable P : value -> Prop.
Hypothesis Hundef : P VUndefined.
Hypothesis Hnull : P VNull.
Hypothesis Hbool : forall b, P (VBool b).
Hypothesis Hnum : forall x, P (VNum x).
Hypothesis Hbig : forall z, P (VBigInt z).
Hypothesis Hstr : forall s, P (VStr s).
Hypothesis Hdate : forall ms, P (VDate ms).
Hypothesis Hoid : forall id, P (VObjectId id).
Hypothesis Harr : forall elems, Forall P elems -> P (VArr elems).
Hypothesis Hobj :
  forall props, Forall (fun kv => P (snd kv)) props -> P (VObj props).

Fixpoint value_ind (v : value) : P v :=
  match v with
  | VUndefined => Hundef
  | VNull => Hnull
  | VBool b => Hbool b
  | VNum x => Hnum x
  | VBigInt z => Hbig z
  | VStr s => Hstr s
  | VDate ms => Hdate ms
  | VObjectId id => Hoid id
  | VArr elems =>
      Harr elems
        ((fix all (l : list value) : Forall P l :=
            match l with
            | [] => Forall_nil P
            | x :: l' => Forall_cons x (value_ind x) (all l')
            end) elems)
  | VObj props =>
      Hobj props
        ((fix all (l : list (string * value))
            : Forall (fun kv => P (snd kv)) l :=
            match l with
            | [] => Forall_nil _
            | kv :: l' => Forall_cons kv (value_ind (snd kv)) (all l')
            end) props)
  end.

End ValueInd.

(** A thrown exception.  The only one the modelled code can raise itself
    is a [TypeError]. *)
Inductive js_error : Type :=
| TypeError.

Inductive result (A : Type) : Type :=
| Ok (a : A)
| Throw (e : js_error).

Arguments Ok {A} a.
Arguments Throw {A} e.

Definition bind {A B : Type} (r : result A) (k : A -> result B) : result B :=
  match r with
  | Ok a => k a
  | Throw e => Throw e
  end.

Notation "'do' x <- r ; k" := (bind r (fun x => k))
  (at level 10, x name, r at level 100, k at level 200).

Module Js.

(** [typeof v]. *)
Definition typeof (v : value) : string :=
  match v with
  | VUndefined => "undefined"
  | VBool _ => "boolean"
  | VNum _ => "number"
  | VBigInt _ => "bigint"
  | VStr _ => "string"
  | VNull | VDate _ | VObjectId _ | VArr _ | VObj _ => "object"
  end.

(** [Array.isArray(v)], [v === null], [v instanceof Date],
    [v instanceof ObjectId]. *)
Definition Array_isArray (v : value) : bool :=
  match v with VArr _ => true | _ => false end.

Definition is_null (v : value) : bool :=
  match v with VNull => true | _ => false end.

Definition instanceof_Date (v : value) : bool :=
  match v with VDate _ => true | _ => false end.

Definition instanceof_ObjectId (v : value) : bool :=
  match v with VObjectId _ => true | _ => false end.

(** [!v]: the falsy values are [undefined], [null], [false], [0], [-0],
    [NaN], [0n] and the empty string. *)
Definition falsy (v : value) : bool :=
  match v with
  | VUndefined | VNull | VBool false => true
  | VNum (S754_zero _) | VNum S754_nan => true
  | VBigInt Z0 => true
  | VStr EmptyString => true
  | _ => false
  end.

(** The index/element pairs of an array, from index [i] on. *)
Fixpoint indexed {A : Type} (i : nat) (l : list A) : list (string * A) :=
  match l with
  | [] => []
  | x :: l' => (Num.string_of_nat i, x) :: indexed (S i) l'
  end.

(** The code units of a string, each as a one-character string. *)
Fixpoint chars (s : string) : list value :=
  match s with
  | EmptyString => []
  | String c s' => VStr (String c EmptyString) :: chars s'
  end.

(** The bytes a hexadecimal string stands for, two digits a byte, up to
    the first pair that is not hexadecimal. *)
Definition hex_digit (c : ascii) : option N :=
  let d := N_of_ascii c in
  if ((48 <=? d) && (d <=? 57))%N then Some (d - 48)%N
  else if ((97 <=? d) && (d <=? 102))%N then Some (d - 87)%N
  else if ((65 <=? d) && (d <=? 70))%N then Some (d - 55)%N
  else None.

Fixpoint fromHex (s : string) : list N :=
  match s with
  | String a (String b s') =>
      match hex_digit a, hex_digit b with
      | Some h, Some l => (16 * h + l)%N :: fromHex s'
      | _, _ => []
      end
  | _ => []
  end.

(** An [ObjectId] of the driver keeps its bytes in one own enumerable
    property, [buffer], a [Uint8Array]: an object whose own enumerable
    properties are its indices, each holding a byte.  The identifier is
    named by its hexadecimal string, twelve bytes for a string of
    twenty-four digits. *)
Definition bytes_entries (id : string) : list (string * value) :=
  indexed 0 (map (fun b => VNum (Num.of_Z (Z.of_N b))) (fromHex id)).

Definition ObjectId_buffer (id : string) : value := VObj (bytes_entries id).

(** [Object.entries(v)]: [undefined] and [null] cannot be converted to
    an object; an array lists its elements and a string its characters
    under their indices; an identifier has its [buffer]; numbers,
    booleans, bigints and dates have no own enumerable string-keyed
    property. *)
Definition Object_entries (v : value) : result (list (string * value)) :=
  match v with
  | VUndefined | VNull => Throw TypeError
  | VObj props => Ok props
  | VArr elems => Ok (indexed 0 elems)
  | VStr s => Ok (indexed 0 (chars s))
  | VObjectId id => Ok [("buffer", ObjectId_buffer id)]
  | _ => Ok []
  end.

(** Own property lookup in an object given by its property list. *)
Fixpoint get {A : Type} (o : list (string * A)) (k : string) : option A :=
  match o with
  | [] => None
  | (k', a) :: o' => if String.eqb k' k then Some a else get o' k
  end.

(** An array index: the canonical decimal form of an integer below
    [2^32 - 1].  Such keys are enumerated first, in ascending order. *)
Fixpoint digits_value (acc : N) (s : string) : option N :=
  match s with
  | EmptyString => Some acc
  | String c s' =>
      let d := N_of_ascii c in
      if ((48 <=? d) && (d <=? 57))%N
      then digits_value (acc * 10 + (d - 48))%N s'
      else None
  end.

Definition array_index (k : string) : option N :=
  match k with
  | EmptyString => None
  | String "0" EmptyString => Some 0%N
  | String "0" _ => None
  | _ =>
      if (String.length k <=? 10)%nat then
        match digits_value 0 k with
        | Some n => if (n <? 4294967295)%N then Some n else None
        | None => None
        end
      else None
  end.

(** Whether a new key [k] is enumerated before the existing key [k']. *)
Definition goes_before (k k' : string) : bool :=
  match array_index k, array_index k' with
  | Some n, Some n' => (n <? n')%N
  | Some _, None => true
  | None, _ => false
  end.

(** Definition of an own data property [k]: an existing one is
    overwritten in place, a new one takes its place in the enumeration
    order (array indices ascending, then the other keys in creation
    order). *)
Fixpoint overwrite {A : Type} (o : list (string * A)) (k : string) (a : A)
  : list (string * A) :=
  match o with
  | [] => []
  | (k', a') :: o' =>
      if String.eqb k' k then (k', a) :: o' else (k', a') :: overwrite o' k a
  end.

Fixpoint create {A : Type} (o : list (string * A)) (k : string) (a : A)
  : list (string * A) :=
  match o with
  | [] => [(k, a)]
  | (k', a') :: o' =>
      if goes_before k k' then (k, a) :: o else (k', a') :: create o' k a
  end.

Definition define {A : Type} (o : list (string * A)) (k : string) (a : A)
  : list (string * A) :=
  match get o k with
  | Some _ => overwrite o k a
  | None => create o k a
  end.

(** The properties every plain object inherits from [Object.prototype];
    all of them are functions, or the prototype object itself for
    [__proto__], hence truthy. *)
Definition Object_prototype_keys : list string :=
  [ "constructor"; "__defineGetter__"; "__defineSetter__";
    "hasOwnProperty"; "__lookupGetter__"; "__lookupSetter__";
    "isPrototypeOf"; "propertyIsEnumerable"; "toString"; "valueOf";
    "__proto__"; "toLocaleString" ].

Definition inherited (k : string) : bool :=
  existsb (String.eqb k) Object_prototype_keys.

(** [o[k] = a] on a plain object: the key [__proto__] reaches the
    accessor of [Object.prototype] and creates no own property. *)
Definition assign {A : Type} (o : list (string * A)) (k : string) (a : A)
  : list (string * A) :=
  if String.eqb k "__proto__" then o else define o k a.

(** The keys of an object are enumerated in an order in which no key
    comes after one it goes before. *)
Fixpoint enumeration_order (keys : list string) : Prop :=
  match keys with
  | [] => True
  | k :: keys' =>
      Forall (fun k' => goes_before k' k = false) keys'
      /\ enumeration_order keys'
  end.

End Js.

(** ** The schema inferencer: the [getSchema] case *)

Module Inferencer.

Import Js.

(** One entry of [fieldInfo]: [{ types: Set<string>; examples: any[];
    count: number }].  The set is kept in insertion order, which is the
    order [Array.from] lists it in; the count is a natural number
    ([count++] is exact below 2^53). *)
Record field_record : Type := {
  types : list string;
  examples : list value;
  count : nat
}.

Definition fieldInfo_t : Type := list (string * field_record).

(** [{ types: new Set(), examples: [], count: 0 }] *)
Definition new_record : field_record :=
  {| types := []; examples := []; count := 0 |}.

(** [Set.prototype.add] *)
Definition set_add (s : list string) (x : string) : list string :=
  if existsb (String.eqb x) s then s else s ++ [x].

(** The type tag of lines 531-535. *)
Definition type_of (value : value) : string :=
  if Array_isArray value then "array"
  else if is_null value then "null"
  else if instanceof_Date value then "date"
  else if instanceof_ObjectId value then "ObjectId"
  else typeof value.

(** [prefix ? `${prefix}.${key}` : key] *)
Definition field_path (prefix key : string) : string :=
  match prefix with
  | EmptyString => key
  | _ => prefix ++ "." ++ key
  end.

(** Lines 529-542 on the record of the path: [count++], [types.add],
    and the capture of an example. *)
Definition observe (value : value) (info : field_record) : field_record :=
  {| types := set_add (types info) (type_of value);
     examples :=
       if (List.length (examples info) <? 3)%nat && negb (is_null value)
       then examples info ++ [value]
       else examples info;
     count := S (count info) |}.

(** Lines 525-542 for one entry.  [fieldInfo] is a plain object: when
    the path is not an own property but names a property inherited from
    [Object.prototype], [fieldInfo[fieldPath]] is truthy, no record is
    created, and [fieldInfo[fieldPath].types] is [undefined], so that
    [.add] raises a [TypeError]. *)
Definition visit (fieldPath : string) (value : value) (fieldInfo : fieldInfo_t)
  : result fieldInfo_t :=
  match get fieldInfo fieldPath with
  | Some info => Ok (define fieldInfo fieldPath (observe value info))
  | None =>
      if inherited fieldPath then Throw TypeError
      else Ok (assign fieldInfo fieldPath (observe value new_record))
  end.

(** Line 545: [type === 'object' && value !== null]. *)
Definition descends (value : value) : bool :=
  String.eqb (type_of value) "object" && negb (is_null value).

(** [analyzeObject(obj, prefix)], threading [fieldInfo].  The loop over
    [Object.entries(obj)] is written once per shape of [obj] so that
    the recursion is structural (the characters of a string are
    strings and are never descended into; the [buffer] of an identifier
    is descended into and holds numbers only); [fold_entries] below is
    the uniform reading. *)
Fixpoint analyzeObject (obj : value) (prefix : string)
  (fieldInfo : fieldInfo_t) {struct obj} : result fieldInfo_t :=
  match obj with
  | VUndefined | VNull => Throw TypeError
  | VObj props =>
      (fix entries (l : list (string * value)) (fieldInfo : fieldInfo_t)
         : result fieldInfo_t :=
         match l with
         | [] => Ok fieldInfo
         | (key, value) :: l' =>
             let fieldPath := field_path prefix key in
             do fi1 <- visit fieldPath value fieldInfo;
             do fi2 <- (if descends value
                        then analyzeObject value fieldPath fi1
                        else Ok fi1);
             entries l' fi2
         end) props fieldInfo
  | VArr elems =>
      (fix entries (i : nat) (l : list value) (fieldInfo : fieldInfo_t)
         : result fieldInfo_t :=
         match l with
         | [] => Ok fieldInfo
         | value :: l' =>
             let fieldPath := field_path prefix (Num.string_of_nat i) in
             do fi1 <- visit fieldPath value fieldInfo;
             do fi2 <- (if descends value
                        then analyzeObject value fieldPath fi1
                        else Ok fi1);
             entries (S i) l' fi2
         end) 0 elems fieldInfo
  | VStr s =>
      (fix entries (l : list (string * value)) (fieldInfo : fieldInfo_t)
         : result fieldInfo_t :=
         match l with
         | [] => Ok fieldInfo
         | (key, value) :: l' =>
             do fi1 <- visit (field_path prefix key) value fieldInfo;
             entries l' fi1
         end) (indexed 0 (chars s)) fieldInfo
  | VObjectId id =>
      let fieldPath := field_path prefix "buffer" in
      do fi1 <- visit fieldPath (ObjectId_buffer id) fieldInfo;
      (fix entries (l : list (string * value)) (fieldInfo : fieldInfo_t)
         : result fieldInfo_t :=
         match l with
         | [] => Ok fieldInfo
         | (key, value) :: l' =>
             do fi2 <- visit (field_path fieldPath key) value fieldInfo;
             entries l' fi2
         end) (bytes_entries id) fi1
  | _ => Ok fieldInfo
  end.

(** [samples.forEach(doc => analyzeObject(doc))] *)
Fixpoint forEach_analyze (samples : list value) (fieldInfo : fieldInfo_t)
  : result fieldInfo_t :=
  match samples with
  | [] => Ok fieldInfo
  | doc :: rest =>
      do fi <- analyzeObject doc "" fieldInfo;
      forEach_analyze rest fi
  end.

Record GetSchemaParams : Type := {
  collection : string;
  sampleSize : Num.number
}.

Section Report.

(** The division of line 560, kept abstract in this section so that
    a result can be shown not to depend on it. *)
Variable divide : Num.number -> Num.number -> Num.number.

(** [Math.round((info.count / samples.length) * 100)] *)
Definition percentage_with (count len : nat) : Num.number :=
  Num.Math_round
    (Num.mul (divide (Num.of_nat count) (Num.of_nat len)) (Num.of_Z 100)).

(** Lines 556-561: the public view of one record. *)
Definition public_view_with (len : nat) (info : field_record) : value :=
  VObj [ ("types", VArr (map VStr (types info)));
         ("examples", VArr (examples info));
         ("frequency",
           VStr (Num.string_of_nat (count info) ++ "/"
                 ++ Num.string_of_nat len));
         ("percentage", VNum (percentage_with (count info) len)) ].

(** Lines 555-563: the [reduce] over [Object.entries(fieldInfo)]. *)
Definition schema_with (len : nat) (fieldInfo : fieldInfo_t)
  : list (string * value) :=
  fold_left
    (fun acc entry =>
       assign acc (fst entry) (public_view_with len (snd entry)))
    fieldInfo [].

(** The object serialised at lines 569-577. *)
Definition report_with (params : GetSchemaParams) (len : nat)
  (fieldInfo : fieldInfo_t) : value :=
  let schema := schema_with len fieldInfo in
  VObj [ ("collection", VStr (collection params));
         ("sampleSize", VNum (Num.of_nat len));
         ("fields", VObj schema);
         ("summary",
           VObj [ ("totalFields", VNum (Num.of_nat (List.length schema)));
                  ("totalDocuments", VNum (Num.of_nat len)) ]) ].

(** The [getSchema] case from line 507 on, up to the object it hands to
    [JSON.stringify]; [samples] is the array the driver returned for
    [find({}).limit(params.sampleSize)]. *)
Definition getSchema_with (params : GetSchemaParams) (samples : list value)
  : result value :=
  if (List.length samples =? 0)%nat then
    Ok (VObj [ ("message", VStr "No documents found in collection");
               ("fields", VObj []) ])
  else
    do fieldInfo <- forEach_analyze samples [];
    Ok (report_with params (List.length samples) fieldInfo).

End Report.

Definition percentage : nat -> nat -> Num.number := percentage_with Num.div.
Definition public_view : nat -> field_record -> value :=
  public_view_with Num.div.
Definition schema : nat -> fieldInfo_t -> list (string * value) :=
  schema_with Num.div.
Definition getSchema : GetSchemaParams -> list value -> result value :=
  getSchema_with Num.div.

(** *** Reading a report *)

(** An own property of an object value. *)
Definition prop (v : value) (k : string) : option value :=
  match v with
  | VObj props => get props k
  | _ => None
  end.

(** [report.fields[path]] *)
Definition report_field (report : value) (path : string) : option value :=
  match prop report "fields" with
  | Some fields => prop fields path
  | None => None
  end.

(** [report.summary[k]] *)
Definition report_summary (report : value) (k : string) : option value :=
  match prop report "summary" with
  | Some summary => prop summary k
  | None => None
  end.

(** *** The fold, flattened

    [analyzeObject] visits a sequence of (path, value) pairs; everything
    it does to [fieldInfo] is [visit] on each of them in order. *)

(** The uniform reading of the loop of [analyzeObject] over a list of
    entries. *)
Fixpoint fold_entries (prefix : string) (l : list (string * value))
  (fieldInfo : fieldInfo_t) : result fieldInfo_t :=
  match l with
  | [] => Ok fieldInfo
  | (key, value) :: l' =>
      let fieldPath := field_path prefix key in
      do fi1 <- visit fieldPath value fieldInfo;
      do fi2 <- (if descends value
                 then analyzeObject value fieldPath fi1
                 else Ok fi1);
      fold_entries prefix l' fi2
  end.

(** The (path, value) pairs [analyzeObject obj prefix] reaches, in the
    order it reaches them. *)
Fixpoint visits (obj : value) (prefix : string) {struct obj}
  : list (string * value) :=
  match obj with
  | VObj props =>
      (fix entries (l : list (string * value)) : list (string * value) :=
         match l with
         | [] => []
         | (key, value) :: l' =>
             let fieldPath := field_path prefix key in
             (fieldPath, value)
               :: (if descends value then visits value fieldPath else [])
               ++ entries l'
         end) props
  | VArr elems =>
      (fix entries (i : nat) (l : list value) : list (string * value) :=
         match l with
         | [] => []
         | value :: l' =>
             let fieldPath := field_path prefix (Num.string_of_nat i) in
             (fieldPath, value)
               :: (if descends value then visits value fieldPath else [])
               ++ entries (S i) l'
         end) 0 elems
  | VStr s =>
      map (fun kv => (field_path prefix (fst kv), snd kv))
        (indexed 0 (chars s))
  | VObjectId id =>
      let fieldPath := field_path prefix "buffer" in
      (fieldPath, ObjectId_buffer id)
        :: map (fun kv => (field_path fieldPath (fst kv), snd kv))
             (bytes_entries id)
  | _ => []
  end.

Fixpoint visits_entries (prefix : string) (l : list (string * value))
  : list (string * value) :=
  match l with
  | [] => []
  | (key, value) :: l' =>
      let fieldPath := field_path prefix key in
      (fieldPath, value)
        :: (if descends value then visits value fieldPath else [])
        ++ visits_entries prefix l'
  end.

(** All visits of a run over [samples]. *)
Definition all_visits (samples : list value) : list (string * value) :=
  flat_map (fun doc => visits doc "") samples.

(** [visit] over a sequence of pairs. *)
Fixpoint fold_visit (l : list (string * value)) (fieldInfo : fieldInfo_t)
  : result fieldInfo_t :=
  match l with
  | [] => Ok fieldInfo
  | (fieldPath, value) :: l' =>
      do fi <- visit fieldPath value fieldInfo;
      fold_visit l' fi
  end.

(** The values seen at [path], in order. *)
Definition values_at (path : string) (l : list (string * value))
  : list value :=
  map snd (filter (fun pv => String.eqb (fst pv) path) l).

(** The record built from the values seen at one path. *)
Definition observe_all (vs : list value) (info : field_record)
  : field_record :=
  fold_left (fun info v => observe v info) vs info.

(** The record of [path] before a visit: the stored one, or the fresh
    one of line 526. *)
Definition current (fieldInfo : fieldInfo_t) (path : string) : field_record :=
  match get fieldInfo path with
  | Some info => info
  | None => new_record
  end.

(** [analyzeObject] on [v] is [visit] over [visits v]. *)
Definition flattens (v : value) : Prop :=
  forall prefix fi es,
    Object_entries v = Ok es ->
    analyzeObject v prefix fi = fold_visit (visits v prefix) fi.

(** *** Keys that cannot collide

    A key is plain when it is not empty and holds no dot; a document has
    plain keys when, at every level the fold descends to, its keys are
    distinct and plain. *)
Fixpoint dotless (s : string) : bool :=
  match s with
  | EmptyString => true
  | String c s' => negb (Ascii.eqb c ".") && dotless s'
  end.

Definition plain_key (k : string) : bool :=
  negb (String.eqb k "") && dotless k.

Fixpoint plain_keys (v : value) : Prop :=
  match v with
  | VObj props =>
      NoDup (map fst props)
      /\ (fix all (l : list (string * value)) : Prop :=
            match l with
            | [] => True
            | (k, x) :: l' => plain_key k = true /\ plain_keys x /\ all l'
            end) props
  | _ => True
  end.

(** What [field_path] puts in front of the key. *)
Definition separator (prefix : string) : string :=
  match prefix with
  | EmptyString => ""
  | _ => prefix ++ "."
  end.

(** *** Reachable key paths

    The key paths of a document: the keys of the document itself and,
    recursively, of every value whose type tag is [object]. *)
Inductive reachable : value -> string -> string -> Prop :=
| reach_key obj prefix es key value :
    Object_entries obj = Ok es ->
    In (key, value) es ->
    reachable obj prefix (field_path prefix key)
| reach_nested obj prefix es key value path :
    Object_entries obj = Ok es ->
    In (key, value) es ->
    type_of value = "object" ->
    reachable value (field_path prefix key) path ->
    reachable obj prefix path.

(** *** The classification of step 4, in the words of the specification

    "Classify the value's type tag using this fixed precedence, first
    match wins: array (value is a sequence), null (value is the null
    marker), date, ObjectId (a store-native identifier), otherwise the
    value's primitive kind." *)
Definition is_sequence (v : value) : bool :=
  match v with VArr _ => true | _ => false end.

Definition is_null_marker (v : value) : bool :=
  match v with VNull => true | _ => false end.

Definition is_date_kind (v : value) : bool :=
  match v with VDate _ => true | _ => false end.

Definition is_identifier_kind (v : value) : bool :=
  match v with VObjectId _ => true | _ => false end.

Definition precedence : list ((value -> bool) * string) :=
  [ (is_sequence, "array"); (is_null_marker, "null");
    (is_date_kind, "date"); (is_identifier_kind, "ObjectId") ].

Fixpoint first_match (rules : list ((value -> bool) * string)) (v : value)
  (otherwise : string) : string :=
  match rules with
  | [] => otherwise
  | (test, tag) :: rest =>
      if test v then tag else first_match rest v otherwise
  end.

Definition spec_type_tag (v : value) : string :=
  first_match precedence v (typeof v).

(** *** Key paths, in the words of the specification

    "Field Path: a dotted identifier (a.b.c) denoting a field's position
    inside the (possibly nested) document tree"; the field paths are
    "the set of leaf-and-intermediate key paths reachable by recursive
    descent into nested object-typed values". *)

(** The key sequences of a record and the values they lead to: a key of
    the record, or a key whose value is object-typed followed by a key
    sequence of that value. *)
Inductive key_sequence : value -> list string -> value -> Prop :=
| keys_here obj es key v :
    Object_entries obj = Ok es ->
    In (key, v) es ->
    key_sequence obj [key] v
| keys_below obj es key v keys w :
    Object_entries obj = Ok es ->
    In (key, v) es ->
    spec_type_tag v = "object" ->
    key_sequence v keys w ->
    key_sequence obj (key :: keys) w.

(** The dotted identifier of a key sequence. *)
Definition dotted (keys : list string) : string := String.concat "." keys.

(** A key sequence without the empty keys in front of it. *)
Fixpoint without_leading_empty (keys : list string) : list string :=
  match keys with
  | EmptyString :: keys' => without_leading_empty keys'
  | _ => keys
  end.

(** *** Termination: the call tree of [analyzeObject] *)

(** The number of constructors of a value, the [buffer] of an identifier
    and its bytes counted in. *)
Fixpoint size (v : value) : nat :=
  match v with
  | VArr elems =>
      S ((fix sum (l : list value) : nat :=
            match l with
            | [] => 0
            | x :: l' => size x + sum l'
            end) elems)
  | VObj props =>
      S ((fix sum (l : list (string * value)) : nat :=
            match l with
            | [] => 0
            | (_, x) :: l' => size x + sum l'
            end) props)
  | VObjectId id => S (S (List.length (fromHex id)))
  | _ => 1
  end.

(** The arguments of the recursive calls one invocation of
    [analyzeObject] on [obj] makes itself (line 546). *)
Definition recursive_calls (obj : value) : list value :=
  match Object_entries obj with
  | Ok es => filter descends (map snd es)
  | Throw _ => []
  end.


(** *** First-seen order

    The elements of a list in the order of their first occurrence, those
    of [seen] left out. *)
Fixpoint first_occurrences (seen l : list string) : list string :=
  match l with
  | [] => []
  | x :: l' =>
      if existsb (String.eqb x) seen then first_occurrences seen l'
      else x :: first_occurrences (x :: seen) l'
  end.

(** The keys that are not array indices, in the order of the list. *)
Definition named (keys : list string) : list string :=
  filter (fun k => match array_index k with Some _ => false | None => true end)
    keys.

(** Whether the fold over [doc] reaches [path]. *)
Definition has_path (path : string) (doc : value) : bool :=
  existsb (String.eqb path) (map fst (visits doc "")).

(** The tags of the values seen at a path, as the set the report lists. *)
Definition tags_at (path : string) (samples : list value) : list string :=
  first_occurrences [] (map type_of (values_at path (all_visits samples))).

End Inferencer.


(** ** Identifier coercion: [convertToObjectIds] *)

Module Coercion.

Import Js.

(** [s.endsWith(suffix)] *)
Definition endsWith (s suffix : string) : bool :=
  let n := String.length s in
  let m := String.length suffix in
  (m <=? n)%nat && String.eqb (substring (n - m) m s) suffix.

(** The test of line 131 on a key. *)
Definition id_key (key : string) : bool :=
  String.eqb key "_id" || endsWith key "_id" || endsWith key "Id"
  || endsWith key "_ids" || endsWith key "Ids".

Section WithDriver.

(** [ObjectId.isValid] of the driver, on strings (every call in the
    source is guarded by [typeof v === 'string']). *)
Variable ObjectId_isValid : string -> bool.

(** [new ObjectId(s)] *)
Definition new_ObjectId (s : string) : value := VObjectId s.

(** The arrow function of lines 135 and 139:
    [v => typeof v === 'string' && ObjectId.isValid(v) ? new ObjectId(v) : v] *)
Definition coerce_element (v : value) : value :=
  match v with
  | VStr s => if ObjectId_isValid s then new_ObjectId s else v
  | _ => v
  end.

(** ['$in' in value] for a value that is an object and not [null]. *)
Definition has_in (value : value) : bool :=
  match value with
  | VObj props =>
      match get props "$in" with Some _ => true | None => false end
  | _ => false
  end.

(** [value.$in] *)
Definition get_in (v : value) : value :=
  match Inferencer.prop v "$in" with
  | Some x => x
  | None => VUndefined
  end.

(** [convertToObjectIds(obj)], lines 117-153. *)
Fixpoint convertToObjectIds (obj : value) {struct obj} : value :=
  if falsy obj then obj
  else
    match obj with
    | VStr s =>
        if ObjectId_isValid s && (String.length s =? 24)%nat
        then new_ObjectId s
        else obj
    | VArr elems => VArr (map convertToObjectIds elems)
    | VObj props =>
        VObj
          ((fix entries (l : list (string * value))
              (converted : list (string * value)) : list (string * value) :=
              match l with
              | [] => converted
              | (key, value) :: l' =>
                  let assigned :=
                    if id_key key then
                      match value with
                      | VStr s =>
                          if ObjectId_isValid s then new_ObjectId s
                          else convertToObjectIds value
                      | VArr vs => VArr (map coerce_element vs)
                      | _ =>
                          if has_in value then
                            VObj [ ("$in",
                                     match get_in value with
                                     | VArr vs => VArr (map coerce_element vs)
                                     | other => other
                                     end) ]
                          else convertToObjectIds value
                      end
                    else convertToObjectIds value in
                  entries l' (assign converted key assigned)
              end) props [])
    | VDate _ =>
        (* [typeof obj === 'object']: rebuilt from its entries, of which
           there is none *)
        VObj []
    | VObjectId id =>
        (* [typeof obj === 'object']: rebuilt from its one entry,
           [buffer], itself rebuilt from its bytes, which are numbers
           and stay as they are *)
        VObj
          (assign [] "buffer"
             (VObj
                (fold_left
                   (fun converted kv => assign converted (fst kv) (snd kv))
                   (bytes_entries id) [])))
    | _ => obj
    end.

(** The value lines 131-147 store under [key] for the entry
    [(key, value)]. *)
Definition convert_entry (key : string) (v : value) : value :=
  if id_key key then
    match v with
    | VStr s =>
        if ObjectId_isValid s then new_ObjectId s
        else convertToObjectIds v
    | VArr vs => VArr (map coerce_element vs)
    | _ =>
        if has_in v then
          VObj [ ("$in",
                   match get_in v with
                   | VArr vs => VArr (map coerce_element vs)
                   | other => other
                   end) ]
        else convertToObjectIds v
    end
  else convertToObjectIds v.

(** An object that has a [$in] property has no other property. *)
Definition in_alone (v : value) : Prop :=
  forall props y,
    v = VObj props -> get props "$in" = Some y -> props = [("$in", y)].

(** A value in which there is nothing to convert: no [Date] or [ObjectId]
    instance, no string the driver accepts as an identifier, objects
    with distinct keys in enumeration order, none of them [__proto__],
    and, under an id-like key, no [$in] beside other properties. *)
Inductive passes_through : value -> Prop :=
| pt_undefined : passes_through VUndefined
| pt_null : passes_through VNull
| pt_bool b : passes_through (VBool b)
| pt_num x : passes_through (VNum x)
| pt_bigint z : passes_through (VBigInt z)
| pt_str s : ObjectId_isValid s = false -> passes_through (VStr s)
| pt_arr elems : Forall passes_through elems -> passes_through (VArr elems)
| pt_obj props :
    NoDup (map fst props) ->
    enumeration_order (map fst props) ->
    Forall (fun kv => fst kv <> "__proto__") props ->
    Forall (fun kv => passes_through (snd kv)) props ->
    Forall (fun kv => id_key (fst kv) = true -> in_alone (snd kv)) props ->
    passes_through (VObj props).

End WithDriver.

(** [u] is [v] or lies in it, at any depth. *)
Inductive occurs (u : value) : value -> Prop :=
| occurs_here : occurs u u
| occurs_element elems x :
    In x elems -> occurs u x -> occurs u (VArr elems)
| occurs_property props k x :
    In (k, x) props -> occurs u x -> occurs u (VObj props).

(** Every identifier in the conversion of [v] was in [v] or was made
    from a string of [v] that the driver accepts. *)
Definition made_from_valid (ObjectId_isValid : string -> bool) (v : value)
  : Prop :=
  forall s,
    occurs (VObjectId s) (convertToObjectIds ObjectId_isValid v) ->
    occurs (VObjectId s) v
    \/ (ObjectId_isValid s = true /\ occurs (VStr s) v).

End Coercion.

(** ** The server: connection, tool list and tool calls *)

Module Server.

Import Js.

(** *** Errors *)

(** The [ErrorCode]s the source uses. *)
Inductive ErrorCode : Type :=
| InternalError
| MethodNotFound
| InvalidParams.

(** One issue of a [ZodError]: [e.path] (already as strings) and
    [e.message]. *)
Record issue : Type := {
  path : list string;
  message : string
}.

(** What a call can raise: an [McpError] built by the source, an error of
    the driver passed on as it is, or the [TypeError] of [analyzeObject]. *)
Inductive thrown : Type :=
| McpError (code : ErrorCode) (text : string)
| DriverError (text : string)
| JsTypeError.

Inductive outcome (A : Type) : Type :=
| Returned (a : A)
| Raised (e : thrown).

Arguments Returned {A} a.
Arguments Raised {A} e.

(** *** The state of the server and what reaches the driver *)

(** A [MongoClient], named by the order of its creation, and the [Db]
    taken from it. *)
Record client : Type := {
  client_id : nat;
  client_uri : string
}.

Record database : Type := {
  db_client : client;
  db_name : option string
}.

(** [this.mongoClient] and [this.db], [None] for [null]. *)
Record state : Type := {
  mongoClient : option client;
  db : option database
}.

(** The calls made on a collection or on the database.  A cursor keeps
    the stages applied to it: [project], [sort], [skip], [limit]. *)
Inductive operation : Type :=
| OpFind (collection : string) (filter : value)
    (projection sort : option value) (skip limit : option Num.number)
| OpFindOne (collection : string) (filter : value) (projection : option value)
| OpAggregate (collection : string) (pipeline : value)
    (limit : option Num.number)
| OpCount (collection : string) (filter : value)
| OpDistinct (collection : string) (field : string) (filter : value)
| OpListCollections (filter : value)
| OpInsertOne (collection : string) (document : value)
| OpUpdateOne (collection : string) (filter update : value) (upsert : bool)
| OpDeleteOne (collection : string) (filter : value).

(** Everything the server asks of the driver, in order. *)
Inductive event : Type :=
| NewClient (c : client)
| ClientConnect (c : client)
| ClientDb (c : client) (name : option string)
| ClientClose (c : client)
| Operation (d : database) (op : operation).

Record world : Type := {
  server : state;
  trace : list event
}.

(** [new MongoDBMCPServer()]: no client, no database, nothing asked. *)
Definition initial : world :=
  {| server := {| mongoClient := None; db := None |}; trace := [] |}.

(** The number of clients created so far. *)
Fixpoint clients_created (tr : list event) : nat :=
  match tr with
  | [] => 0
  | NewClient _ :: tr' => S (clients_created tr')
  | _ :: tr' => clients_created tr'
  end.

(** *** The validated parameters of each tool: the types the schemas of
    lines 10-66 infer *)

Record FindParams : Type := {
  find_collection : string;
  find_filter : value;
  find_projection : option value;
  find_sort : option value;
  find_limit : Num.number;
  find_skip : Num.number
}.

Record FindOneParams : Type := {
  findOne_collection : string;
  findOne_filter : value;
  findOne_projection : option value
}.

Record AggregateParams : Type := {
  aggregate_collection : string;
  aggregate_pipeline : list value;
  aggregate_limit : option Num.number
}.

Record CountParams : Type := {
  count_collection : string;
  count_filter : value
}.

Record DistinctParams : Type := {
  distinct_collection : string;
  distinct_field : string;
  distinct_filter : value
}.

Record ListCollectionsParams : Type := {
  listCollections_filter : value
}.

Record InsertOneParams : Type := {
  insertOne_collection : string;
  insertOne_document : value
}.

Record UpdateOneParams : Type := {
  updateOne_collection : string;
  updateOne_filter : value;
  updateOne_update : value;
  updateOne_upsert : bool
}.

Record DeleteOneParams : Type := {
  deleteOne_collection : string;
  deleteOne_filter : value
}.

(** [Schema.parse(args)] for each schema: the validated parameters, or
    the issues of the [ZodError] it raises. *)
Record validators : Type := {
  parse_find : value -> list issue + FindParams;
  parse_findOne : value -> list issue + FindOneParams;
  parse_aggregate : value -> list issue + AggregateParams;
  parse_count : value -> list issue + CountParams;
  parse_distinct : value -> list issue + DistinctParams;
  parse_listCollections : value -> list issue + ListCollectionsParams;
  parse_insertOne : value -> list issue + InsertOneParams;
  parse_updateOne : value -> list issue + UpdateOneParams;
  parse_deleteOne : value -> list issue + DeleteOneParams;
  parse_getSchema : value -> list issue + Inferencer.GetSchemaParams
}.

(** What the driver and the runtime answer.  The answers that depend on
    the network or on the stored data are given per position in the
    trace. *)
Record environment : Type := {
  (** [process.env.MONGODB_URI] and [process.env.MONGODB_DATABASE] *)
  MONGODB_URI : option string;
  MONGODB_DATABASE : option string;
  (** the error [new MongoClient(uri)] raises, if it does *)
  construct_error : string -> option string;
  (** the error [await client.connect()] raises, if it does *)
  connect_error : nat -> option string;
  (** the error [client.db(name)] raises, if it does *)
  db_error : option string -> option string;
  (** the documents of a cursor ([toArray]), or the error raised *)
  to_array : nat -> operation -> string + list value;
  (** the result of any other call, or the error raised *)
  result_of : nat -> operation -> string + value;
  (** [JSON.stringify(x, null, 2)], or [None] when it raises a
      [TypeError], as it does on a [BigInt] *)
  stringify : value -> option value;
  (** [ObjectId.isValid] on strings *)
  ObjectId_isValid : string -> bool
}.

(** *** The schemas of lines 10-66, as they are declared *)

Inductive zod_type : Type :=
| z_string
| z_number
| z_boolean
| z_record_any
| z_array_of_records.

(** One key of a [z.object]: its type, whether [.optional()] was applied,
    the argument of [.default(...)] if any, and that of [.describe]. *)
Record zod_field : Type := {
  z_name : string;
  z_type : zod_type;
  z_optional : bool;
  z_default : option value;
  z_describe : string
}.

Definition FindToolSchema : list zod_field :=
  [ {| z_name := "collection"; z_type := z_string; z_optional := false;
       z_default := None; z_describe := "Collection name" |};
    {| z_name := "filter"; z_type := z_record_any; z_optional := true;
       z_default := Some (VObj []); z_describe := "MongoDB filter query" |};
    {| z_name := "projection"; z_type := z_record_any; z_optional := true;
       z_default := None; z_describe := "Fields to include/exclude" |};
    {| z_name := "sort"; z_type := z_record_any; z_optional := true;
       z_default := None; z_describe := "Sort specification" |};
    {| z_name := "limit"; z_type := z_number; z_optional := true;
       z_default := Some (VNum (Num.of_Z 10));
       z_describe := "Maximum documents to return" |};
    {| z_name := "skip"; z_type := z_number; z_optional := true;
       z_default := Some (VNum (Num.of_Z 0));
       z_describe := "Number of documents to skip" |} ].

Definition FindOneToolSchema : list zod_field :=
  [ {| z_name := "collection"; z_type := z_string; z_optional := false;
       z_default := None; z_describe := "Collection name" |};
    {| z_name := "filter"; z_type := z_record_any; z_optional := true;
       z_default := Some (VObj []); z_describe := "MongoDB filter query" |};
    {| z_name := "projection"; z_type := z_record_any; z_optional := true;
       z_default := None; z_describe := "Fields to include/exclude" |} ].

Definition AggregateToolSchema : list zod_field :=
  [ {| z_name := "collection"; z_type := z_string; z_optional := false;
       z_default := None; z_describe := "Collection name" |};
    {| z_name := "pipeline"; z_type := z_array_of_records;
       z_optional := false; z_default := None;
       z_describe := "MongoDB aggregation pipeline" |};
    {| z_name := "limit"; z_type := z_number; z_optional := true;
       z_default := None; z_describe := "Maximum documents to return" |} ].

Definition CountToolSchema : list zod_field :=
  [ {| z_name := "collection"; z_type := z_string; z_optional := false;
       z_default := None; z_describe := "Collection name" |};
    {| z_name := "filter"; z_type := z_record_any; z_optional := true;
       z_default := Some (VObj []); z_describe := "MongoDB filter query" |} ].

Definition DistinctToolSchema : list zod_field :=
  [ {| z_name := "collection"; z_type := z_string; z_optional := false;
       z_default := None; z_describe := "Collection name" |};
    {| z_name := "field"; z_type := z_string; z_optional := false;
       z_default := None;
       z_describe := "Field to get distinct values for" |};
    {| z_name := "filter"; z_type := z_record_any; z_optional := true;
       z_default := Some (VObj []); z_describe := "MongoDB filter query" |} ].

Definition ListCollectionsToolSchema : list zod_field :=
  [ {| z_name := "filter"; z_type := z_record_any; z_optional := true;
       z_default := Some (VObj []);
       z_describe := "Optional filter for collections" |} ].

Definition InsertOneToolSchema : list zod_field :=
  [ {| z_name := "collection"; z_type := z_string; z_optional := false;
       z_default := None; z_describe := "Collection name" |};
    {| z_name := "document"; z_type := z_record_any; z_optional := false;
       z_default := None; z_describe := "Document to insert" |} ].

Definition UpdateOneToolSchema : list zod_field :=
  [ {| z_name := "collection"; z_type := z_string; z_optional := false;
       z_default := None; z_describe := "Collection name" |};
    {| z_name := "filter"; z_type := z_record_any; z_optional := false;
       z_default := None; z_describe := "Filter to find document" |};
    {| z_name := "update"; z_type := z_record_any; z_optional := false;
       z_default := None; z_describe := "Update operations" |};
    {| z_name := "upsert"; z_type := z_boolean; z_optional := true;
       z_default := Some (VBool false);
       z_describe := "Create if not exists" |} ].

Definition DeleteOneToolSchema : list zod_field :=
  [ {| z_name := "collection"; z_type := z_string; z_optional := false;
       z_default := None; z_describe := "Collection name" |};
    {| z_name := "filter"; z_type := z_record_any; z_optional := false;
       z_default := None; z_describe := "Filter to find document" |} ].

Definition GetSchemaToolSchema : list zod_field :=
  [ {| z_name := "collection"; z_type := z_string; z_optional := false;
       z_default := None; z_describe := "Collection name" |};
    {| z_name := "sampleSize"; z_type := z_number; z_optional := true;
       z_default := Some (VNum (Num.of_Z 100));
       z_describe := "Number of documents to sample for schema analysis" |} ].

(** The schema each [case] of the [switch] parses the arguments with. *)
Definition case_schema (name : string) : option (list zod_field) :=
  if String.eqb name "find" then Some FindToolSchema
  else if String.eqb name "findOne" then Some FindOneToolSchema
  else if String.eqb name "aggregate" then Some AggregateToolSchema
  else if String.eqb name "count" then Some CountToolSchema
  else if String.eqb name "distinct" then Some DistinctToolSchema
  else if String.eqb name "listCollections" then Some ListCollectionsToolSchema
  else if String.eqb name "insertOne" then Some InsertOneToolSchema
  else if String.eqb name "updateOne" then Some UpdateOneToolSchema
  else if String.eqb name "deleteOne" then Some DeleteOneToolSchema
  else if String.eqb name "getSchema" then Some GetSchemaToolSchema
  else None.

(** *** The tools listed, lines 158-291 *)

Record property : Type := {
  p_name : string;
  p_type : string;
  p_description : string;
  p_default : option value
}.

(** [required] is [None] where the [inputSchema] has no such key. *)
Record tool : Type := {
  tool_name : string;
  tool_description : string;
  properties : list property;
  required : option (list string)
}.

Definition tools : list tool :=
  [ {| tool_name := "find";
       tool_description := "Find documents in a MongoDB collection";
       properties :=
         [ {| p_name := "collection"; p_type := "string";
              p_description := "Collection name"; p_default := None |};
           {| p_name := "filter"; p_type := "object";
              p_description := "MongoDB filter query"; p_default := None |};
           {| p_name := "projection"; p_type := "object";
              p_description := "Fields to include/exclude";
              p_default := None |};
           {| p_name := "sort"; p_type := "object";
              p_description := "Sort specification"; p_default := None |};
           {| p_name := "limit"; p_type := "number";
              p_description := "Maximum documents to return";
              p_default := Some (VNum (Num.of_Z 10)) |};
           {| p_name := "skip"; p_type := "number";
              p_description := "Number of documents to skip";
              p_default := Some (VNum (Num.of_Z 0)) |} ];
       required := Some ["collection"] |};
    {| tool_name := "findOne";
       tool_description := "Find a single document in a MongoDB collection";
       properties :=
         [ {| p_name := "collection"; p_type := "string";
              p_description := "Collection name"; p_default := None |};
           {| p_name := "filter"; p_type := "object";
              p_description := "MongoDB filter query"; p_default := None |};
           {| p_name := "projection"; p_type := "object";
              p_description := "Fields to include/exclude";
              p_default := None |} ];
       required := Some ["collection"] |};
    {| tool_name := "aggregate";
       tool_description :=
         "Run an aggregation pipeline on a MongoDB collection";
       properties :=
         [ {| p_name := "collection"; p_type := "string";
              p_description := "Collection name"; p_default := None |};
           {| p_name := "pipeline"; p_type := "array";
              p_description := "MongoDB aggregation pipeline";
              p_default := None |};
           {| p_name := "limit"; p_type := "number";
              p_description := "Maximum documents to return";
              p_default := None |} ];
       required := Some ["collection"; "pipeline"] |};
    {| tool_name := "count";
       tool_description := "Count documents in a MongoDB collection";
       properties :=
         [ {| p_name := "collection"; p_type := "string";
              p_description := "Collection name"; p_default := None |};
           {| p_name := "filter"; p_type := "object";
              p_description := "MongoDB filter query"; p_default := None |} ];
       required := Some ["collection"] |};
    {| tool_name := "distinct";
       tool_description :=
         "Get distinct values for a field in a MongoDB collection";
       properties :=
         [ {| p_name := "collection"; p_type := "string";
              p_description := "Collection name"; p_default := None |};
           {| p_name := "field"; p_type := "string";
              p_description := "Field to get distinct values for";
              p_default := None |};
           {| p_name := "filter"; p_type := "object";
              p_description := "MongoDB filter query"; p_default := None |} ];
       required := Some ["collection"; "field"] |};
    {| tool_name := "listCollections";
       tool_description := "List all collections in the database";
       properties :=
         [ {| p_name := "filter"; p_type := "object";
              p_description := "Optional filter for collections";
              p_default := None |} ];
       required := None |};
    {| tool_name := "insertOne";
       tool_description :=
         "Insert a single document into a MongoDB collection";
       properties :=
         [ {| p_name := "collection"; p_type := "string";
              p_description := "Collection name"; p_default := None |};
           {| p_name := "document"; p_type := "object";
              p_description := "Document to insert"; p_default := None |} ];
       required := Some ["collection"; "document"] |};
    {| tool_name := "updateOne";
       tool_description := "Update a single document in a MongoDB collection";
       properties :=
         [ {| p_name := "collection"; p_type := "string";
              p_description := "Collection name"; p_default := None |};
           {| p_name := "filter"; p_type := "object";
              p_description := "Filter to find document"; p_default := None |};
           {| p_name := "update"; p_type := "object";
              p_description := "Update operations"; p_default := None |};
           {| p_name := "upsert"; p_type := "boolean";
              p_description := "Create if not exists";
              p_default := Some (VBool false) |} ];
       required := Some ["collection"; "filter"; "update"] |};
    {| tool_name := "deleteOne";
       tool_description :=
         "Delete a single document from a MongoDB collection";
       properties :=
         [ {| p_name := "collection"; p_type := "string";
              p_description := "Collection name"; p_default := None |};
           {| p_name := "filter"; p_type := "object";
              p_description := "Filter to find document"; p_default := None |} ];
       required := Some ["collection"; "filter"] |};
    {| tool_name := "getSchema";
       tool_description :=
         "Analyze collection structure and return field names with types";
       properties :=
         [ {| p_name := "collection"; p_type := "string";
              p_description := "Collection name"; p_default := None |};
           {| p_name := "sampleSize"; p_type := "number";
              p_description := "Number of documents to sample";
              p_default := Some (VNum (Num.of_Z 100)) |} ];
       required := Some ["collection"] |} ].

(** The names listed. *)
Definition tool_names : list string := map tool_name tools.

(** The JSON Schema type name of a validated type. *)
Definition json_type (t : zod_type) : string :=
  match t with
  | z_string => "string"
  | z_number => "number"
  | z_boolean => "boolean"
  | z_record_any => "object"
  | z_array_of_records => "array"
  end.

(** The keys a schema refuses to do without: neither [.optional()] nor
    [.default(...)]. *)
Definition mandatory (s : list zod_field) : list string :=
  map z_name
    (filter (fun f => negb (z_optional f)
                      && match z_default f with Some _ => false | None => true end)
       s).

(** The calls that change the stored data by themselves. *)
Definition modifies (op : operation) : bool :=
  match op with
  | OpInsertOne _ _ | OpUpdateOne _ _ _ _ | OpDeleteOne _ _ => true
  | _ => false
  end.

(** The operations asked of the database in a trace. *)
Definition is_operation (e : event) : bool :=
  match e with
  | Operation _ _ => true
  | _ => false
  end.

Definition operations (tr : list event) : list event :=
  filter is_operation tr.

(** The client created last. *)
Fixpoint last_client (tr : list event) : option client :=
  match tr with
  | [] => None
  | e :: tr' =>
      match last_client tr' with
      | Some c => Some c
      | None => match e with NewClient c => Some c | _ => None end
      end
  end.

Section WithEnvironment.

Variable env : environment.
Variable zod : validators.

(** *** Connection, lines 89-115 and 604-609 *)

(** [connect()] *)
Definition connect (w : world) : outcome unit * world :=
  match mongoClient (server w), db (server w) with
  | Some _, Some _ => (Returned tt, w)
  | _, _ =>
      match MONGODB_URI env with
      | None | Some EmptyString =>
          (Raised (McpError InternalError
                     "MONGODB_URI environment variable is required"), w)
      | Some uri =>
          match construct_error env uri with
          | Some err =>
              (Raised (McpError InternalError
                         ("Failed to connect to MongoDB: " ++ err)), w)
          | None =>
              let c := {| client_id := clients_created (trace w);
                          client_uri := uri |} in
              let st1 := {| mongoClient := Some c; db := db (server w) |} in
              let tr1 := trace w ++ [NewClient c; ClientConnect c] in
              match connect_error env (List.length (trace w)) with
              | Some err =>
                  (Raised (McpError InternalError
                             ("Failed to connect to MongoDB: " ++ err)),
                   {| server := st1; trace := tr1 |})
              | None =>
                  let tr2 := tr1 ++ [ClientDb c (MONGODB_DATABASE env)] in
                  match db_error env (MONGODB_DATABASE env) with
                  | Some err =>
                      (Raised (McpError InternalError
                                 ("Failed to connect to MongoDB: " ++ err)),
                       {| server := st1; trace := tr2 |})
                  | None =>
                      (Returned tt,
                       {| server :=
                            {| mongoClient := Some c;
                               db := Some {| db_client := c;
                                             db_name := MONGODB_DATABASE env |} |};
                          trace := tr2 |})
                  end
              end
          end
      end
  end.

(** [ensureConnected()]: the value returned is [this.db], which the
    source asserts not to be [null]. *)
Definition ensureConnected (w : world) : outcome (option database) * world :=
  match db (server w) with
  | Some _ => (Returned (db (server w)), w)
  | None =>
      match connect w with
      | (Raised e, w') => (Raised e, w')
      | (Returned _, w') => (Returned (db (server w')), w')
      end
  end.

(** [cleanup()] *)
Definition cleanup (w : world) : world :=
  match mongoClient (server w) with
  | Some c => {| server := server w; trace := trace w ++ [ClientClose c] |}
  | None => w
  end.

(** *** Tool calls, lines 293-595 *)

(** [{ content: [{ type: 'text', text: JSON.stringify(x, null, 2) }] }],
    unless [JSON.stringify] raises. *)
Definition respond (x : value) : outcome value :=
  match stringify env x with
  | Some text =>
      Returned
        (VObj [ ("content",
                  VArr [ VObj [ ("type", VStr "text");
                                ("text", text) ] ]) ])
  | None => Raised JsTypeError
  end.

(** [r.k] on a result of the driver. *)
Definition member (r : value) (k : string) : value :=
  match Inferencer.prop r k with
  | Some v => v
  | None => VUndefined
  end.

(** The message of line 590. *)
Definition invalid_parameters (issues : list issue) : string :=
  ("Invalid parameters: "
   ++ String.concat ", "
        (map (fun e => String.concat "." (path e) ++ ": " ++ message e)
           issues))%string.

Definition convertToObjectIds : value -> value :=
  Coercion.convertToObjectIds (ObjectId_isValid env).

(** Asking the driver for the documents of a cursor, or for a result. *)
Definition documents (d : database) (op : operation) (w : world)
  : outcome (list value) * world :=
  let w' := {| server := server w; trace := trace w ++ [Operation d op] |} in
  match to_array env (List.length (trace w)) op with
  | inl err => (Raised (DriverError err), w')
  | inr docs => (Returned docs, w')
  end.

Definition perform (d : database) (op : operation) (w : world)
  : outcome value * world :=
  let w' := {| server := server w; trace := trace w ++ [Operation d op] |} in
  match result_of env (List.length (trace w)) op with
  | inl err => (Raised (DriverError err), w')
  | inr r => (Returned r, w')
  end.

(** What the [catch] of lines 586-594 makes of a [ZodError]. *)
Definition rejected {A : Type} (issues : list issue) (w : world)
  : outcome A * world :=
  (Raised (McpError InvalidParams (invalid_parameters issues)), w).

(** A value tested by [if (...)]. *)
Definition truthy_number (x : Num.number) : bool := negb (falsy (VNum x)).

(** The ten cases of the [switch], once the database is at hand. *)
Definition dispatch (d : database) (name : string) (args : value) (w : world)
  : outcome value * world :=
  if String.eqb name "find" then
    match parse_find zod args with
    | inl issues => rejected issues w
    | inr params =>
        let filter := convertToObjectIds (find_filter params) in
        match documents d
                (OpFind (find_collection params) filter
                   (find_projection params) (find_sort params)
                   (Some (find_skip params)) (Some (find_limit params))) w with
        | (Raised e, w') => (Raised e, w')
        | (Returned results, w') => (respond (VArr results), w')
        end
    end
  else if String.eqb name "findOne" then
    match parse_findOne zod args with
    | inl issues => rejected issues w
    | inr params =>
        let filter := convertToObjectIds (findOne_filter params) in
        match perform d
                (OpFindOne (findOne_collection params) filter
                   (findOne_projection params)) w with
        | (Raised e, w') => (Raised e, w')
        | (Returned r, w') => (respond r, w')
        end
    end
  else if String.eqb name "aggregate" then
    match parse_aggregate zod args with
    | inl issues => rejected issues w
    | inr params =>
        let pipeline := convertToObjectIds (VArr (aggregate_pipeline params)) in
        let limit :=
          match aggregate_limit params with
          | Some n => if truthy_number n then Some n else None
          | None => None
          end in
        match documents d
                (OpAggregate (aggregate_collection params) pipeline limit) w with
        | (Raised e, w') => (Raised e, w')
        | (Returned results, w') => (respond (VArr results), w')
        end
    end
  else if String.eqb name "count" then
    match parse_count zod args with
    | inl issues => rejected issues w
    | inr params =>
        let filter := convertToObjectIds (count_filter params) in
        match perform d (OpCount (count_collection params) filter) w with
        | (Raised e, w') => (Raised e, w')
        | (Returned n, w') => (respond (VObj [("count", n)]), w')
        end
    end
  else if String.eqb name "distinct" then
    match parse_distinct zod args with
    | inl issues => rejected issues w
    | inr params =>
        let filter := convertToObjectIds (distinct_filter params) in
        match perform d
                (OpDistinct (distinct_collection params)
                   (distinct_field params) filter) w with
        | (Raised e, w') => (Raised e, w')
        | (Returned values, w') => (respond values, w')
        end
    end
  else if String.eqb name "listCollections" then
    match parse_listCollections zod args with
    | inl issues => rejected issues w
    | inr params =>
        match documents d
                (OpListCollections (listCollections_filter params)) w with
        | (Raised e, w') => (Raised e, w')
        | (Returned collections, w') =>
            (respond (VArr collections), w')
        end
    end
  else if String.eqb name "insertOne" then
    match parse_insertOne zod args with
    | inl issues => rejected issues w
    | inr params =>
        let document := convertToObjectIds (insertOne_document params) in
        match perform d
                (OpInsertOne (insertOne_collection params) document) w with
        | (Raised e, w') => (Raised e, w')
        | (Returned r, w') =>
            (respond
               (VObj [ ("acknowledged", member r "acknowledged");
                       ("insertedId", member r "insertedId") ]), w')
        end
    end
  else if String.eqb name "updateOne" then
    match parse_updateOne zod args with
    | inl issues => rejected issues w
    | inr params =>
        let filter := convertToObjectIds (updateOne_filter params) in
        let update := convertToObjectIds (updateOne_update params) in
        match perform d
                (OpUpdateOne (updateOne_collection params) filter update
                   (updateOne_upsert params)) w with
        | (Raised e, w') => (Raised e, w')
        | (Returned r, w') =>
            (respond
               (VObj [ ("acknowledged", member r "acknowledged");
                       ("matchedCount", member r "matchedCount");
                       ("modifiedCount", member r "modifiedCount");
                       ("upsertedId", member r "upsertedId") ]), w')
        end
    end
  else if String.eqb name "deleteOne" then
    match parse_deleteOne zod args with
    | inl issues => rejected issues w
    | inr params =>
        let filter := convertToObjectIds (deleteOne_filter params) in
        match perform d (OpDeleteOne (deleteOne_collection params) filter) w with
        | (Raised e, w') => (Raised e, w')
        | (Returned r, w') =>
            (respond
               (VObj [ ("acknowledged", member r "acknowledged");
                       ("deletedCount", member r "deletedCount") ]), w')
        end
    end
  else if String.eqb name "getSchema" then
    match parse_getSchema zod args with
    | inl issues => rejected issues w
    | inr params =>
        match documents d
                (OpFind (Inferencer.collection params) (VObj []) None None
                   None (Some (Inferencer.sampleSize params))) w with
        | (Raised e, w') => (Raised e, w')
        | (Returned samples, w') =>
            match Inferencer.getSchema params samples with
            | Ok report => (respond report, w')
            | Throw TypeError => (Raised JsTypeError, w')
            end
        end
    end
  else
    (Raised (McpError MethodNotFound ("Unknown tool: " ++ name)), w).

(** The handler of [CallToolRequestSchema]: the connection first, then
    the [switch].  [ensureConnected] returning [null] would make
    [db.collection] raise a [TypeError]. *)
Definition call_tool (name : string) (args : value) (w : world)
  : outcome value * world :=
  match ensureConnected w with
  | (Raised e, w') => (Raised e, w')
  | (Returned None, w') => (Raised JsTypeError, w')
  | (Returned (Some d), w') => dispatch d name args w'
  end.

(** A life of the server: tool calls, each awaited before the next, and
    the clean-up of the signal handlers. *)
Inductive action : Type :=
| Call (name : string) (args : value)
| Cleanup.

Definition step (w : world) (a : action) : world :=
  match a with
  | Call name args => snd (call_tool name args w)
  | Cleanup => cleanup w
  end.

Definition run (actions : list action) : world :=
  fold_left step actions initial.

(** The databases opened in a trace: the [client.db] calls that did not
    raise. *)
Fixpoint databases_opened (tr : list event) : nat :=
  match tr with
  | [] => 0
  | ClientDb _ name :: tr' =>
      match db_error env name with
      | None => S (databases_opened tr')
      | Some _ => databases_opened tr'
      end
  | _ :: tr' => databases_opened tr'
  end.

(** What holds of the server between two actions: [this.mongoClient] is
    the client created last, [this.db] comes from it and is the only
    database ever opened. *)
Definition consistent (w : world) : Prop :=
  mongoClient (server w) = last_client (trace w)
  /\ match db (server w) with
     | Some d =>
         mongoClient (server w) = Some (db_client d)
         /\ db_name d = MONGODB_DATABASE env
         /\ databases_opened (trace w) = 1
     | None => databases_opened (trace w) = 0
     end.

(** The world after one more operation asked of the database. *)
Definition asked (d : database) (op : operation) (w : world) : world :=
  {| server := server w; trace := trace w ++ [Operation d op] |}.

End WithEnvironment.

End Server.

(** ** Sample inputs *)

Module Samples.

(** [{"_id":"1","name":"Al","tags":["x"]}] and [{"_id":"2","name":42}] *)
Definition doc1 : value :=
  VObj [("_id", VStr "1"); ("name", VStr "Al"); ("tags", VArr [VStr "x"])].

Definition doc2 : value :=
  VObj [("_id", VStr "2"); ("name", VNum (Num.of_Z 42))].

(** [{ "tags": [{"x":1},{"y":2}] }] *)
Definition tags_doc : value :=
  VObj [("tags", VArr [ VObj [("x", VNum (Num.of_Z 1))];
                        VObj [("y", VNum (Num.of_Z 2))] ])].

(** A sample of 201 documents of which one has the field [a]. *)
Definition sparse_sample : list value :=
  VObj [("a", VNum (Num.of_Z 1))] :: repeat (VObj []) 200.

(** One document in which the key [a.b] and the key [b] of the nested
    object [a] give the same path. *)
Definition dotted_doc : value :=
  VObj [("a.b", VNum (Num.of_Z 1));
        ("a", VObj [("b", VNum (Num.of_Z 2))])].

(** A [null] record followed by a document. *)
(** A document with an empty key over a nested document. *)
Definition empty_key_doc : value :=
  VObj [ ("", VObj [ ("b", VNum (Num.of_Z 1)) ]) ].

Definition null_then_doc : list value :=
  [VNull; VObj [("a", VNum (Num.of_Z 1))]].

(** The filter [{"_id": {"$in": ["507f1f77bcf86cd799439011"], "$exists": true}}] *)
Definition in_with_sibling : value :=
  VObj [("_id", VObj [("$in", VArr [VStr "507f1f77bcf86cd799439011"]);
                      ("$exists", VBool true)])].

(** The report of [getSchema] on [doc1; doc2]. *)
Definition e2e_report : value :=
  Eval vm_compute in
    match Inferencer.getSchema
            {| Inferencer.collection := "users";
               Inferencer.sampleSize := Num.of_Z 2 |} [doc1; doc2] with
    | Ok report => report
    | Throw _ => VUndefined
    end.

Definition e2e_params : Inferencer.GetSchemaParams :=
  {| Inferencer.collection := "users";
     Inferencer.sampleSize := Num.of_Z 2 |}.

(** Five documents whose field [a] is [null] first. *)
Definition null_first : list value :=
  [ VObj [("a", VNull)]; VObj [("a", VNum (Num.of_Z 1))];
    VObj [("a", VNum (Num.of_Z 2))]; VObj [("a", VNum (Num.of_Z 3))];
    VObj [("a", VNum (Num.of_Z 4))] ].

Definition null_first_record : Inferencer.field_record :=
  {| Inferencer.types := ["null"; "number"];
     Inferencer.examples :=
       [VNum (Num.of_Z 1); VNum (Num.of_Z 2); VNum (Num.of_Z 3)];
     Inferencer.count := 5 |}.

Definition users : Inferencer.GetSchemaParams :=
  {| Inferencer.collection := "users";
     Inferencer.sampleSize := Num.of_Z 100 |}.

(** A deployment in which the driver never fails, and one without the
    connection string. *)
Definition reachable_deployment : Server.environment :=
  {| Server.MONGODB_URI := Some "mongodb://localhost:27017";
     Server.MONGODB_DATABASE := Some "shop";
     Server.construct_error := fun _ => None;
     Server.connect_error := fun _ => None;
     Server.db_error := fun _ => None;
     Server.to_array := fun _ _ => inr [doc1; doc2];
     Server.result_of := fun _ _ => inr VNull;
     Server.stringify := fun _ => Some (VStr "{}");
     Server.ObjectId_isValid := fun s => (String.length s =? 24)%nat |}.

Definition unconfigured_deployment : Server.environment :=
  {| Server.MONGODB_URI := None;
     Server.MONGODB_DATABASE := None;
     Server.construct_error := fun _ => None;
     Server.connect_error := fun _ => None;
     Server.db_error := fun _ => None;
     Server.to_array := fun _ _ => inr [];
     Server.result_of := fun _ _ => inr VNull;
     Server.stringify := fun _ => Some (VStr "{}");
     Server.ObjectId_isValid := fun s => (String.length s =? 24)%nat |}.

(** Validators that take a collection name from the arguments and refuse
    anything else. *)
Definition missing_collection : list Server.issue :=
  [ {| Server.path := ["collection"]; Server.message := "Required" |} ].

Definition collection_of (args : value) : option string :=
  match Inferencer.prop args "collection" with
  | Some (VStr c) => Some c
  | _ => None
  end.

Definition with_collection {A : Type} (build : string -> A) (args : value)
  : list Server.issue + A :=
  match collection_of args with
  | Some c => inr (build c)
  | None => inl missing_collection
  end.

Definition sample_validators : Server.validators :=
  {| Server.parse_find :=
       with_collection (fun c =>
         {| Server.find_collection := c; Server.find_filter := VObj [];
            Server.find_projection := None; Server.find_sort := None;
            Server.find_limit := Num.of_Z 10;
            Server.find_skip := Num.of_Z 0 |});
     Server.parse_findOne :=
       with_collection (fun c =>
         {| Server.findOne_collection := c; Server.findOne_filter := VObj [];
            Server.findOne_projection := None |});
     Server.parse_aggregate := fun _ =>
       inl [ {| Server.path := ["pipeline"]; Server.message := "Required" |} ];
     Server.parse_count :=
       with_collection (fun c =>
         {| Server.count_collection := c; Server.count_filter := VObj [] |});
     Server.parse_distinct := fun _ =>
       inl [ {| Server.path := ["field"]; Server.message := "Required" |} ];
     Server.parse_listCollections := fun _ =>
       inr {| Server.listCollections_filter := VObj [] |};
     Server.parse_insertOne := fun _ =>
       inl [ {| Server.path := ["document"]; Server.message := "Required" |} ];
     Server.parse_updateOne := fun _ =>
       inl [ {| Server.path := ["filter"]; Server.message := "Required" |} ];
     Server.parse_deleteOne := fun _ =>
       inl [ {| Server.path := ["filter"]; Server.message := "Required" |} ];
     Server.parse_getSchema :=
       with_collection (fun c =>
         {| Inferencer.collection := c;
            Inferencer.sampleSize := Num.of_Z 100 |}) |}.

(** The entry of the tool list for [deleteOne]. *)
Definition deleteOne_tool : Server.tool :=
  {| Server.tool_name := "deleteOne";
     Server.tool_description :=
       "Delete a single document from a MongoDB collection";
     Server.properties :=
       [ {| Server.p_name := "collection"; Server.p_type := "string";
            Server.p_description := "Collection name";
            Server.p_default := None |};
         {| Server.p_name := "filter"; Server.p_type := "object";
            Server.p_description := "Filter to find document";
            Server.p_default := None |} ];
     Server.required := Some ["collection"; "filter"] |}.

End Samples.

(** ** The sentences of the specification that the code does not satisfy,
    as they are written *)

Module Stated.

Import Js Inferencer.

(** P2: every field record has [0 < presenceCount <= sampleSize_actual]
    and a percentage, the rounding of [100 * presenceCount /
    sampleSize_actual], in [[1,100]]. *)
Definition frequency_bound (samples : list value) : Prop :=
  samples <> [] ->
  forall fi path info,
    forEach_analyze samples [] = Ok fi ->
    get fi path = Some info ->
    (0 < count info <= List.length samples)%nat
    /\ exists z : Z,
         Num.to_Z (percentage (count info) (List.length samples)) = Some z
         /\ z = ((200 * Z.of_nat (count info)
                  + Z.of_nat (List.length samples))
                 / (2 * Z.of_nat (List.length samples)))%Z
         /\ (1 <= z <= 100)%Z.

(** P5: [infer([], N)] yields [sampleSize = 0], [fields = {}] and an
    explicit no-data indicator. *)
Definition empty_report (params : GetSchemaParams) : Prop :=
  exists report,
    getSchema params [] = Ok report
    /\ prop report "sampleSize" = Some (VNum (Num.of_nat 0))
    /\ prop report "fields" = Some (VObj [])
    /\ prop report "message" <> None.

(** MalformedDocument: a record that is not mapping-shaped is skipped
    and the fold continues over the remainder. *)
Definition mapping_shaped (doc : value) : bool :=
  match doc with VObj _ => true | _ => false end.

Definition malformed_skipped (samples : list value) : Prop :=
  forEach_analyze samples [] = forEach_analyze (filter mapping_shaped samples) [].

(** The field-path set of the report is exactly the set of dotted key
    paths reachable by descent into object-typed values only. *)
Definition key_paths_exact (samples : list value) : Prop :=
  forall params report,
    getSchema params samples = Ok report ->
    forall path,
      (exists view, report_field report path = Some view)
      <-> (exists doc keys v,
             In doc samples /\ key_sequence doc keys v /\ path = dotted keys).

End Stated.

Import Js Inferencer Samples.

(** * Properties *)

(** ** Objects as property lists *)

Section PropertyLists.

Context {A : Type}.

Lemma get_overwrite (o : list (string * A)) (k k' : string) (a : A) :
  get (overwrite o k a) k'
  = if String.eqb k k' then option_map (fun _ => a) (get o k) else get o k'.
Proof.
  induction o as [|[k0 a0] o IH]; simpl.
  - now destruct (String.eqb k k').
  - destruct (String.eqb k0 k) eqn:E0; simpl.
    + apply String.eqb_eq in E0; subst k0.
      destruct (String.eqb k k'); reflexivity.
    + rewrite IH. destruct (String.eqb k k') eqn:E1; [|reflexivity].
      apply String.eqb_eq in E1; subst k'. now rewrite E0.
Qed.

Lemma get_create (o : list (string * A)) (k k' : string) (a : A) :
  get o k = None ->
  get (create o k a) k' = if String.eqb k k' then Some a else get o k'.
Proof.
  induction o as [|[k0 a0] o IH]; simpl; [reflexivity|].
  destruct (String.eqb k0 k) eqn:E0; [discriminate|]. intros Hk.
  destruct (goes_before k k0); simpl.
  - destruct (String.eqb k k'); reflexivity.
  - rewrite (IH Hk). destruct (String.eqb k k') eqn:E1; [|reflexivity].
    apply String.eqb_eq in E1; subst k'. now rewrite E0.
Qed.

Lemma get_define (o : list (string * A)) (k k' : string) (a : A) :
  get (define o k a) k' = if String.eqb k k' then Some a else get o k'.
Proof.
  unfold define. destruct (get o k) eqn:E.
  - rewrite get_overwrite, E. reflexivity.
  - now apply get_create.
Qed.

Lemma keys_overwrite (o : list (string * A)) (k : string) (a : A) :
  map fst (overwrite o k a) = map fst o.
Proof.
  induction o as [|[k0 a0] o IH]; simpl; [reflexivity|].
  destruct (String.eqb k0 k); simpl; congruence.
Qed.

Lemma keys_create (o : list (string * A)) (k k' : string) (a : A) :
  In k' (map fst (create o k a)) <-> k = k' \/ In k' (map fst o).
Proof.
  induction o as [|[k0 a0] o IH]; simpl; [tauto|].
  destruct (goes_before k k0); simpl; [tauto|]. rewrite IH. tauto.
Qed.

Lemma NoDup_create (o : list (string * A)) (k : string) (a : A) :
  ~ In k (map fst o) -> NoDup (map fst o) -> NoDup (map fst (create o k a)).
Proof.
  induction o as [|[k0 a0] o IH]; simpl; intros Hk Hnd.
  - constructor; [tauto|constructor].
  - destruct (goes_before k k0); simpl.
    + constructor; [simpl; intros [H|H]; apply Hk; auto|exact Hnd].
    + inversion Hnd as [|? ? Hnot Hnd']; subst. constructor.
      * rewrite keys_create. intros [H|H]; [apply Hk; auto|auto].
      * apply IH; [intros H; apply Hk; auto|assumption].
Qed.

Lemma length_create (o : list (string * A)) (k : string) (a : A) :
  List.length (create o k a) = S (List.length o).
Proof.
  induction o as [|[k0 a0] o IH]; simpl; [reflexivity|].
  destruct (goes_before k k0); simpl; congruence.
Qed.

Lemma get_In (o : list (string * A)) (k : string) (a : A) :
  get o k = Some a -> In (k, a) o.
Proof.
  induction o as [|[k0 a0] o IH]; simpl; [discriminate|].
  destruct (String.eqb k0 k) eqn:E.
  - apply String.eqb_eq in E; subst. intros [= ->]. now left.
  - intros H. right. auto.
Qed.

Lemma get_None (o : list (string * A)) (k : string) :
  get o k = None <-> ~ In k (map fst o).
Proof.
  induction o as [|[k0 a0] o IH]; simpl.
  - tauto.
  - destruct (String.eqb k0 k) eqn:E.
    + apply String.eqb_eq in E; subst. split; [discriminate|]. tauto.
    + apply String.eqb_neq in E. rewrite IH. tauto.
Qed.

Lemma In_get (o : list (string * A)) (k : string) (a : A) :
  NoDup (map fst o) -> In (k, a) o -> get o k = Some a.
Proof.
  induction o as [|[k0 a0] o IH]; simpl; [tauto|].
  intros Hnd [H|H].
  - injection H as -> ->. now rewrite String.eqb_refl.
  - inversion Hnd as [|? ? Hnot Hnd']; subst.
    destruct (String.eqb k0 k) eqn:E.
    + apply String.eqb_eq in E; subst. exfalso. apply Hnot.
      change k with (fst (k, a)). now apply in_map.
    + auto.
Qed.

End PropertyLists.

Example array_index_canonical :
  array_index "10" = Some 10%N /\ array_index "01" = None
  /\ array_index "4294967295" = None /\ array_index "a" = None.
Proof. repeat split; reflexivity. Qed.

(** Array indices are enumerated first, whatever the creation order. *)
Example define_order :
  map fst (define (define (define [] "b" 1) "2" 2) "10" 3) = ["2"; "10"; "b"].
Proof. reflexivity. Qed.

(** ** The error monad *)

Lemma bind_Ok {A B : Type} (r : result A) (k : A -> result B) (b : B) :
  bind r k = Ok b -> exists a, r = Ok a /\ k a = Ok b.
Proof. destruct r as [a|e]; simpl; [eauto|discriminate]. Qed.

Lemma bind_Ok_r {A : Type} (r : result A) : bind r Ok = r.
Proof. now destruct r. Qed.

(** ** Type tags *)

Lemma descends_VObj (v : value) :
  descends v = true <-> exists props, v = VObj props.
Proof.
  split.
  - destruct v; simpl; try discriminate. eauto.
  - intros [props ->]. reflexivity.
Qed.

Lemma descends_type_of (v : value) :
  descends v = true <-> type_of v = "object".
Proof.
  unfold descends. destruct v; simpl; split; intros H;
    try discriminate; reflexivity.
Qed.

Lemma descends_entries (v : value) :
  descends v = true -> exists es, Object_entries v = Ok es.
Proof. intros H. apply descends_VObj in H as [props ->]. simpl. eauto. Qed.

Lemma descends_chars (i : nat) (s : string) :
  Forall (fun kv => descends (snd kv) = false) (indexed i (chars s)).
Proof.
  revert i. induction s as [|c s IH]; intros i; simpl; constructor; auto.
Qed.

Lemma descends_indexed_numbers (i : nat) (l : list N) :
  Forall (fun kv => descends (snd kv) = false)
    (indexed i (map (fun b => VNum (Num.of_Z (Z.of_N b))) l)).
Proof.
  revert i. induction l as [|b l IH]; intros i; simpl; constructor; auto.
Qed.

Lemma descends_bytes (id : string) :
  Forall (fun kv => descends (snd kv) = false) (bytes_entries id).
Proof. apply descends_indexed_numbers. Qed.

(** ** [analyzeObject] is [visit] over the flattened document *)

Lemma analyzeObject_eq (obj : value) (prefix : string) (fi : fieldInfo_t) :
  analyzeObject obj prefix fi
  = do es <- Object_entries obj; fold_entries prefix es fi.
Proof.
  destruct obj; try reflexivity.
  - (* a string *)
    simpl. generalize (descends_chars 0 s).
    generalize (indexed 0 (chars s)) as l. intros l H. revert fi.
    induction H as [|[k v] l Hv _ IH]; intros fi; simpl; [reflexivity|].
    simpl in Hv. rewrite Hv.
    destruct (visit (field_path prefix k) v fi); simpl; auto.
  - (* an identifier *)
    cbn [analyzeObject Object_entries bind fold_entries].
    unfold ObjectId_buffer.
    generalize (descends_bytes id). generalize (bytes_entries id) as l.
    intros l H.
    destruct (visit (field_path prefix "buffer") (VObj l) fi) as [fi1|];
      cbn [bind]; [|reflexivity].
    change (descends (VObj l)) with true. cbn iota.
    generalize (field_path prefix "buffer") as p. intros p.
    revert fi1.
    induction H as [|[k v] l Hv _ IH]; intros fi1; [reflexivity|].
    simpl in Hv. simpl. rewrite Hv.
    destruct (visit (field_path p k) v fi1) as [fi2|]; simpl; [|reflexivity].
    apply IH.
  - (* an array *)
    simpl. generalize 0 as i. revert fi.
    induction elems as [|v l IH]; intros fi i; simpl; [reflexivity|].
    destruct (visit _ v fi) as [fi1|]; simpl; [|reflexivity].
    destruct (if descends v then _ else _) as [fi2|]; simpl; auto.
  - (* an object *)
    simpl. revert fi.
    induction props as [|[k v] l IH]; intros fi; simpl; [reflexivity|].
    destruct (visit _ v fi) as [fi1|]; simpl; [|reflexivity].
    destruct (if descends v then _ else _) as [fi2|]; simpl; auto.
Qed.

Lemma visits_eq (obj : value) (prefix : string) (es : list (string * value)) :
  Object_entries obj = Ok es -> visits obj prefix = visits_entries prefix es.
Proof.
  destruct obj; try (simpl; intros [= <-]; reflexivity).
  - simpl; intros [= <-].
    generalize (descends_chars 0 s).
    generalize (indexed 0 (chars s)) as l. intros l H.
    induction H as [|[k v] l Hv _ IH]; simpl; [reflexivity|].
    simpl in Hv. rewrite Hv. simpl. now f_equal.
  - cbn [Object_entries]. intros [= <-].
    cbn [visits visits_entries]. unfold ObjectId_buffer.
    generalize (descends_bytes id). generalize (bytes_entries id) as l.
    intros l H.
    change (descends (VObj l)) with true. cbn iota.
    rewrite app_nil_r. f_equal.
    generalize (field_path prefix "buffer") as p. intros p.
    induction H as [|[k v] l Hv _ IH]; simpl; [reflexivity|].
    simpl in Hv. rewrite Hv. simpl. now f_equal.
  - simpl; intros [= <-].
    generalize 0 as i.
    induction elems as [|v l IH]; intros i; simpl; [reflexivity|].
    now rewrite IH.
  - simpl; intros [= <-].
    induction props as [|[k v] l IH]; simpl; [reflexivity|].
    now rewrite IH.
Qed.

Lemma fold_visit_app (l1 l2 : list (string * value)) (fi : fieldInfo_t) :
  fold_visit (l1 ++ l2) fi = do fi' <- fold_visit l1 fi; fold_visit l2 fi'.
Proof.
  revert fi. induction l1 as [|[p v] l1 IH]; intros fi; simpl; [reflexivity|].
  destruct (visit p v fi); simpl; auto.
Qed.

Lemma entries_values (obj : value) (es : list (string * value)) (P : value -> Prop) :
  Object_entries obj = Ok es ->
  match obj with
  | VArr elems => Forall P elems
  | VObj props => Forall (fun kv => P (snd kv)) props
  | VObjectId id => P (ObjectId_buffer id)
  | _ => True
  end ->
  Forall (fun kv => descends (snd kv) = true -> P (snd kv)) es.
Proof.
  destruct obj; cbn [Object_entries]; intros [= <-] H; try constructor.
  - eapply Forall_impl; [|apply descends_chars]. simpl. congruence.
  - intros _. exact H.
  - constructor.
  - generalize 0 as i. induction H; intros i; simpl; constructor; auto.
  - eapply Forall_impl; [|exact H]. auto.
Qed.

Lemma fold_entries_visits (prefix : string) (es : list (string * value)) :
  Forall (fun kv => descends (snd kv) = true -> flattens (snd kv)) es ->
  forall fi,
    fold_entries prefix es fi = fold_visit (visits_entries prefix es) fi.
Proof.
  induction 1 as [|[k v] l Hv _ IH]; intros fi; simpl; [reflexivity|].
  destruct (visit _ v fi) as [fi1|]; simpl; [|reflexivity].
  rewrite fold_visit_app. simpl in Hv.
  destruct (descends v) eqn:D; simpl; [|apply IH].
  destruct (descends_entries _ D) as [es' Hes'].
  rewrite (Hv eq_refl _ _ _ Hes').
  destruct (fold_visit _ fi1); simpl; auto.
Qed.

Lemma flattens_leaves (props : list (string * value)) :
  Forall (fun kv => descends (snd kv) = false) props -> flattens (VObj props).
Proof.
  intros H prefix fi es Hes.
  rewrite analyzeObject_eq, Hes, (visits_eq _ _ _ Hes). cbn [bind].
  apply fold_entries_visits. injection Hes as <-.
  eapply Forall_impl; [|exact H]. cbn beta. congruence.
Qed.

Lemma analyzeObject_visits (obj : value) : flattens obj.
Proof.
  induction obj using value_ind; intros prefix fi es Hes;
    rewrite analyzeObject_eq, Hes, (visits_eq _ _ _ Hes); cbn [bind];
    apply fold_entries_visits;
    apply (entries_values _ _ _ Hes); cbn beta iota; auto.
  apply flattens_leaves, descends_bytes.
Qed.

Lemma forEach_analyze_app (l1 l2 : list value) (fi : fieldInfo_t) :
  forEach_analyze (l1 ++ l2) fi
  = do fi' <- forEach_analyze l1 fi; forEach_analyze l2 fi'.
Proof.
  revert fi. induction l1 as [|d l1 IH]; intros fi; simpl; [reflexivity|].
  destruct (analyzeObject d "" fi); simpl; auto.
Qed.

Lemma forEach_analyze_visits (samples : list value) :
  forall fi fi',
    forEach_analyze samples fi = Ok fi' ->
    fold_visit (all_visits samples) fi = Ok fi'
    /\ Forall (fun doc => exists es, Object_entries doc = Ok es) samples.
Proof.
  induction samples as [|d l IH]; intros fi fi'; simpl.
  - intros H. split; [exact H|constructor].
  - intros H. apply bind_Ok in H as (fi1 & H1 & H2).
    assert (Hes : exists es, Object_entries d = Ok es).
    { destruct (Object_entries d) as [es|e] eqn:E; [eauto|].
      rewrite analyzeObject_eq, E in H1. discriminate. }
    destruct Hes as [es Hes]. destruct (IH _ _ H2) as [IH1 IH2].
    unfold all_visits in *. simpl. rewrite fold_visit_app.
    rewrite <- (analyzeObject_visits d "" fi es Hes), H1. simpl.
    split; [exact IH1|]. constructor; eauto.
Qed.

(** ** What [visit] does to [fieldInfo] *)

Lemma assign_not_inherited {A : Type} (o : list (string * A)) (k : string) (a : A) :
  inherited k = false -> assign o k a = define o k a.
Proof.
  unfold assign. destruct (String.eqb k "__proto__") eqn:E; [|reflexivity].
  apply String.eqb_eq in E; subst. discriminate.
Qed.

Lemma visit_get (p : string) (v : value) (fi fi' : fieldInfo_t) :
  visit p v fi = Ok fi' ->
  forall p',
    get fi' p' = if String.eqb p p' then Some (observe v (current fi p))
                 else get fi p'.
Proof.
  unfold visit, current. destruct (get fi p) as [info|] eqn:E.
  - intros [= <-] p'. apply get_define.
  - destruct (inherited p) eqn:I; [discriminate|].
    intros [= <-] p'. rewrite assign_not_inherited by assumption.
    apply get_define.
Qed.

Lemma visit_Throw (p : string) (v : value) (fi : fieldInfo_t) (e : js_error) :
  visit p v fi = Throw e <-> get fi p = None /\ inherited p = true.
Proof.
  unfold visit. destruct (get fi p); [split; [discriminate|intros [? _]; discriminate]|].
  destruct (inherited p); split; try discriminate; auto.
  - destruct e. auto.
  - intros [_ ?]; discriminate.
Qed.

Lemma values_at_cons (p q : string) (v : value) (l : list (string * value)) :
  values_at p ((q, v) :: l)
  = if String.eqb q p then v :: values_at p l else values_at p l.
Proof. unfold values_at. simpl. now destruct (String.eqb q p). Qed.

Lemma values_at_app (p : string) (l1 l2 : list (string * value)) :
  values_at p (l1 ++ l2) = values_at p l1 ++ values_at p l2.
Proof. unfold values_at. now rewrite filter_app, map_app. Qed.

Lemma values_at_nil (p : string) (l : list (string * value)) :
  values_at p l = [] <-> ~ In p (map fst l).
Proof.
  induction l as [|[q v] l IH]; simpl; [unfold values_at; simpl; tauto|].
  rewrite values_at_cons. destruct (String.eqb q p) eqn:E.
  - apply String.eqb_eq in E. split; [discriminate|tauto].
  - apply String.eqb_neq in E. rewrite IH. tauto.
Qed.

Lemma values_at_In (p : string) (v : value) (l : list (string * value)) :
  In v (values_at p l) <-> In (p, v) l.
Proof.
  unfold values_at. rewrite in_map_iff. split.
  - intros [[q w] [<- H]]. apply filter_In in H as [H E]. simpl in *.
    apply String.eqb_eq in E. now subst.
  - intros H. exists (p, v). split; [reflexivity|].
    apply filter_In. split; [exact H|apply String.eqb_refl].
Qed.

Lemma fold_visit_get (l : list (string * value)) :
  forall fi fi',
    fold_visit l fi = Ok fi' ->
    forall p,
      get fi' p = match values_at p l with
                  | [] => get fi p
                  | vs => Some (observe_all vs (current fi p))
                  end.
Proof.
  induction l as [|[q v] l IH]; intros fi fi'; simpl.
  - intros [= <-] p. reflexivity.
  - intros H p. apply bind_Ok in H as (fi1 & H1 & H2).
    rewrite (IH _ _ H2 p), values_at_cons.
    pose proof (visit_get _ _ _ _ H1 p) as G. unfold current at 1.
    destruct (String.eqb q p) eqn:E.
    + apply String.eqb_eq in E; subst q. rewrite G.
      destruct (values_at p l); reflexivity.
    + rewrite G. unfold current. destruct (values_at p l); reflexivity.
Qed.

(** ** Records built from the values seen at a path *)

Lemma observe_all_app (vs ws : list value) (info : field_record) :
  observe_all (vs ++ ws) info = observe_all ws (observe_all vs info).
Proof. unfold observe_all. apply fold_left_app. Qed.

Lemma count_observe_all (vs : list value) (info : field_record) :
  count (observe_all vs info) = count info + List.length vs.
Proof.
  revert info. induction vs as [|v vs IH]; intros info; simpl; [lia|].
  change (count (observe_all vs (observe v info)) = count info + S (List.length vs)).
  rewrite IH. simpl. lia.
Qed.

Lemma examples_observe_all (vs : list value) (info : field_record) :
  examples (observe_all vs info)
  = examples info
    ++ firstn (3 - List.length (examples info))
         (filter (fun v => negb (is_null v)) vs).
Proof.
  revert info. induction vs as [|v vs IH]; intros info.
  - simpl. now rewrite firstn_nil, app_nil_r.
  - change (observe_all (v :: vs) info) with (observe_all vs (observe v info)).
    rewrite IH. cbn [observe examples filter].
    destruct (List.length (examples info) <? 3)%nat eqn:L.
    + apply Nat.ltb_lt in L.
      destruct (is_null v) eqn:N; cbn [andb negb]; [reflexivity|].
      rewrite length_app, <- app_assoc. cbn [List.length app].
      replace (3 - List.length (examples info))
        with (S (3 - (List.length (examples info) + 1))) by lia.
      now rewrite firstn_cons.
    + apply Nat.ltb_ge in L. cbn [andb].
      replace (3 - List.length (examples info)) with 0 by lia.
      now rewrite !firstn_O.
Qed.

Lemma set_add_In (s : list string) (x t : string) :
  In t (set_add s x) <-> In t s \/ t = x.
Proof.
  unfold set_add. destruct (existsb (String.eqb x) s) eqn:E.
  - apply existsb_exists in E as (y & Hy & Exy).
    apply String.eqb_eq in Exy; subst y.
    split; [tauto|]. intros [H| ->]; assumption.
  - rewrite in_app_iff. simpl. intuition congruence.
Qed.

Lemma set_add_NoDup (s : list string) (x : string) :
  NoDup s -> NoDup (set_add s x).
Proof.
  intros H. unfold set_add. destruct (existsb (String.eqb x) s) eqn:E; [exact H|].
  apply NoDup_app; [exact H|constructor; [tauto|constructor]|].
  intros y Hy [Hxy|[]]. subst y.
  assert (existsb (String.eqb x) s = true); [|congruence].
  apply existsb_exists. exists x. split; [exact Hy|apply String.eqb_refl].
Qed.

Lemma types_observe_all (vs : list value) (info : field_record) (t : string) :
  In t (types (observe_all vs info))
  <-> In t (types info) \/ exists v, In v vs /\ type_of v = t.
Proof.
  revert info. induction vs as [|v vs IH]; intros info.
  - simpl. split; [tauto|]. intros [H|(v & [] & _)]. exact H.
  - change (observe_all (v :: vs) info) with (observe_all vs (observe v info)).
    rewrite IH. simpl. rewrite set_add_In. split.
    + intros [[H| ->]|(w & Hw & Ht)]; eauto.
    + intros [H|(w & [<-|Hw] & Ht)]; eauto.
Qed.

Lemma types_observe_all_NoDup (vs : list value) (info : field_record) :
  NoDup (types info) -> NoDup (types (observe_all vs info)).
Proof.
  revert info. induction vs as [|v vs IH]; intros info H; [exact H|].
  change (observe_all (v :: vs) info) with (observe_all vs (observe v info)).
  apply IH. simpl. now apply set_add_NoDup.
Qed.

(** ** The keys of [fieldInfo] *)

Lemma keys_define {A : Type} (o : list (string * A)) (k k' : string) (a : A) :
  In k' (map fst (define o k a)) <-> k = k' \/ In k' (map fst o).
Proof.
  unfold define. destruct (get o k) as [a0|] eqn:E.
  - rewrite keys_overwrite. split; [tauto|]. intros [<-|H]; [|exact H].
    apply get_In in E. change k with (fst (k, a0)). now apply in_map.
  - apply keys_create.
Qed.

Lemma NoDup_define {A : Type} (o : list (string * A)) (k : string) (a : A) :
  NoDup (map fst o) -> NoDup (map fst (define o k a)).
Proof.
  intros H. unfold define. destruct (get o k) eqn:E.
  - now rewrite keys_overwrite.
  - apply NoDup_create; [now apply get_None|exact H].
Qed.

Lemma visit_keys (p : string) (v : value) (fi fi' : fieldInfo_t) :
  visit p v fi = Ok fi' ->
  (forall k, In k (map fst fi') <-> p = k \/ In k (map fst fi))
  /\ (NoDup (map fst fi) -> NoDup (map fst fi'))
  /\ (In p (map fst fi) \/ inherited p = false).
Proof.
  unfold visit. destruct (get fi p) as [info|] eqn:E.
  - intros [= <-]. split; [intros k; apply keys_define|].
    split; [apply NoDup_define|]. left. apply get_In in E.
    change p with (fst (p, info)). now apply in_map.
  - destruct (inherited p) eqn:I; [discriminate|]. intros [= <-].
    rewrite assign_not_inherited by assumption.
    split; [intros k; apply keys_define|].
    split; [apply NoDup_define|]. now right.
Qed.

(** The shape every [fieldInfo] built from the empty object has. *)
Lemma fold_visit_keys (l : list (string * value)) :
  forall fi fi',
    fold_visit l fi = Ok fi' ->
    (forall k, In k (map fst fi') <-> In k (map fst l) \/ In k (map fst fi))
    /\ (NoDup (map fst fi) -> NoDup (map fst fi'))
    /\ (Forall (fun k => inherited k = false) (map fst fi) ->
        Forall (fun k => inherited k = false) (map fst l)).
Proof.
  induction l as [|[q v] l IH]; intros fi fi'; simpl.
  - intros [= <-]. split; [tauto|]. split; [auto|constructor].
  - intros H. apply bind_Ok in H as (fi1 & H1 & H2).
    destruct (visit_keys _ _ _ _ H1) as (K1 & N1 & I1).
    destruct (IH _ _ H2) as (K2 & N2 & I2).
    split; [|split].
    + intros k. rewrite K2, K1. tauto.
    + auto.
    + intros Hfi. rewrite Forall_forall in Hfi.
      assert (Hq : inherited q = false) by (destruct I1; auto).
      constructor; [exact Hq|]. apply I2. apply Forall_forall.
      intros k Hk. apply K1 in Hk as [<-|Hk]; auto.
Qed.

(** ** The report *)

Section ReportFacts.

Variable divide : Num.number -> Num.number -> Num.number.

Lemma schema_fold (len : nat) (l : fieldInfo_t) :
  forall acc : list (string * value),
    NoDup (map fst l) ->
    Forall (fun k => inherited k = false /\ get acc k = None) (map fst l) ->
    let out :=
      fold_left
        (fun acc entry =>
           assign acc (fst entry) (public_view_with divide len (snd entry)))
        l acc in
    (forall p, get out p = match get l p with
                           | Some info => Some (public_view_with divide len info)
                           | None => get acc p
                           end)
    /\ List.length out = List.length acc + List.length l.
Proof.
  induction l as [|[k info] l IH]; intros acc Hnd Hall; simpl.
  - split; [reflexivity|lia].
  - inversion Hnd as [|? ? Hk Hnd']; subst.
    inversion Hall as [|? ? [Hi Hg] Hall']; subst.
    rewrite assign_not_inherited by assumption.
    unfold define. rewrite Hg.
    destruct (IH (create acc k (public_view_with divide len info)) Hnd') as [G L].
    + rewrite Forall_forall in *. intros k' Hk'. destruct (Hall' _ Hk') as [? ?].
      split; [assumption|]. rewrite get_create by assumption.
      destruct (String.eqb k k') eqn:E; [|assumption].
      apply String.eqb_eq in E. subst. contradiction.
    + split.
      * intros p. rewrite G. destruct (String.eqb k p) eqn:E.
        -- apply String.eqb_eq in E. subst p.
           assert (get l k = None) as -> by now apply get_None.
           now rewrite get_create, String.eqb_refl.
        -- destruct (get l p); [reflexivity|].
           now rewrite get_create, E.
      * rewrite L, length_create. lia.
Qed.

Lemma schema_with_spec (len : nat) (fi : fieldInfo_t) :
  NoDup (map fst fi) ->
  Forall (fun k => inherited k = false) (map fst fi) ->
  (forall p, get (schema_with divide len fi) p
             = option_map (public_view_with divide len) (get fi p))
  /\ List.length (schema_with divide len fi) = List.length fi.
Proof.
  intros Hnd Hall. unfold schema_with.
  destruct (schema_fold len fi [] Hnd) as [G L].
  - eapply Forall_impl; [|exact Hall]. simpl. auto.
  - split; [|exact L]. intros p. rewrite G. now destruct (get fi p).
Qed.

(** A run that returns has folded every sample and reports on the
    records that fold built. *)
Lemma getSchema_with_Ok (params : GetSchemaParams) (samples : list value)
  (report : value) :
  samples <> [] ->
  getSchema_with divide params samples = Ok report ->
  exists fi,
    forEach_analyze samples [] = Ok fi
    /\ fold_visit (all_visits samples) [] = Ok fi
    /\ report = report_with divide params (List.length samples) fi.
Proof.
  intros Hne. unfold getSchema_with.
  destruct samples as [|d l]; [contradiction|].
  change (List.length (d :: l) =? 0)%nat with false. cbv iota.
  intros H. apply bind_Ok in H as (fi & H1 & [= <-]).
  exists fi. split; [exact H1|]. split; [|reflexivity].
  now apply forEach_analyze_visits in H1.
Qed.

Lemma fieldInfo_spec (samples : list value) (fi : fieldInfo_t) :
  fold_visit (all_visits samples) [] = Ok fi ->
  (forall p,
     get fi p = match values_at p (all_visits samples) with
                | [] => None
                | vs => Some (observe_all vs new_record)
                end)
  /\ NoDup (map fst fi)
  /\ Forall (fun k => inherited k = false) (map fst fi)
  /\ (forall k, In k (map fst fi) <-> In k (map fst (all_visits samples))).
Proof.
  intros H. destruct (fold_visit_keys _ _ _ H) as (K & N & I).
  split; [|split; [|split]].
  - intros p. rewrite (fold_visit_get _ _ _ H p). reflexivity.
  - apply N. constructor.
  - apply Forall_forall. intros k Hk. specialize (I (Forall_nil _)).
    rewrite Forall_forall in I. apply I. apply K in Hk as [Hk|[]]. exact Hk.
  - intros k. rewrite K. simpl. tauto.
Qed.

Lemma report_field_spec (params : GetSchemaParams) (samples : list value)
  (report : value) :
  samples <> [] ->
  getSchema_with divide params samples = Ok report ->
  forall path,
    report_field report path
    = match values_at path (all_visits samples) with
      | [] => None
      | vs => Some (public_view_with divide (List.length samples)
                      (observe_all vs new_record))
      end.
Proof.
  intros Hne H path.
  destruct (getSchema_with_Ok _ _ _ Hne H) as (fi & _ & Hfi & ->).
  destruct (fieldInfo_spec _ _ Hfi) as (G & N & I & _).
  destruct (schema_with_spec (List.length samples) fi N I) as [S _].
  unfold report_field, report_with. simpl. rewrite S, G.
  now destruct (values_at path (all_visits samples)).
Qed.

End ReportFacts.

(** ** When a run returns

    [getSchema] raises exactly when a sampled record is [null] or
    [undefined], or when some field path is the name of a property that
    [fieldInfo] inherits from [Object.prototype]. *)

Lemma visit_not_inherited (p : string) (v : value) (fi : fieldInfo_t) :
  inherited p = false -> exists fi', visit p v fi = Ok fi'.
Proof.
  intros H. unfold visit. rewrite H. destruct (get fi p); eauto.
Qed.

Lemma fold_visit_total (l : list (string * value)) :
  Forall (fun pv => inherited (fst pv) = false) l ->
  forall fi, exists fi', fold_visit l fi = Ok fi'.
Proof.
  induction 1 as [|[p v] l Hp _ IH]; intros fi; simpl; [eauto|].
  destruct (visit_not_inherited p v fi Hp) as [fi1 ->]. simpl. apply IH.
Qed.

Lemma forEach_analyze_entries (samples : list value) :
  Forall (fun doc => exists es, Object_entries doc = Ok es) samples ->
  forall fi, forEach_analyze samples fi = fold_visit (all_visits samples) fi.
Proof.
  induction 1 as [|d l [es Hes] _ IH]; intros fi; [reflexivity|].
  unfold all_visits in *. simpl. rewrite fold_visit_app.
  rewrite (analyzeObject_visits d "" fi es Hes).
  destruct (fold_visit (visits d "") fi); simpl; auto.
Qed.

Lemma forEach_analyze_returns_iff (samples : list value) :
  (exists fi, forEach_analyze samples [] = Ok fi)
  <-> Forall (fun doc => exists es, Object_entries doc = Ok es) samples
      /\ Forall (fun pv => inherited (fst pv) = false) (all_visits samples).
Proof.
  split.
  - intros [fi H]. apply forEach_analyze_visits in H as [H Hes].
    split; [exact Hes|].
    destruct (fold_visit_keys _ _ _ H) as (_ & _ & I).
    specialize (I (Forall_nil _)). rewrite Forall_forall in *.
    intros pv Hpv. apply I. now apply in_map.
  - intros [Hes Hin]. rewrite (forEach_analyze_entries _ Hes).
    now apply fold_visit_total.
Qed.

(** A collection with a field named [constructor] cannot be analysed. *)
Lemma inherited_path_raises :
  getSchema users [VObj [("constructor", VStr "Ferrari")]] = Throw TypeError.
Proof. reflexivity. Qed.

(** ** The claims *)

(** C2. On the two-document sample [doc1; doc2] with requested size 2 the
    report has exactly the fields [_id] (types [string], frequency 2/2,
    percentage 100), [name] (types [string, number], 2/2, 100) and [tags]
    (types [array], 1/2, 50). *)
Theorem e2e_example (name : string) :
  exists report,
    getSchema {| collection := name; sampleSize := Num.of_Z 2 |} [doc1; doc2]
    = Ok report
    /\ prop report "fields"
       = Some (VObj
           [ ("_id",
               VObj [ ("types", VArr [VStr "string"]);
                      ("examples", VArr [VStr "1"; VStr "2"]);
                      ("frequency", VStr "2/2");
                      ("percentage", VNum (Num.of_Z 100)) ]);
             ("name",
               VObj [ ("types", VArr [VStr "string"; VStr "number"]);
                      ("examples", VArr [VStr "Al"; VNum (Num.of_Z 42)]);
                      ("frequency", VStr "2/2");
                      ("percentage", VNum (Num.of_Z 100)) ]);
             ("tags",
               VObj [ ("types", VArr [VStr "array"]);
                      ("examples", VArr [VArr [VStr "x"]]);
                      ("frequency", VStr "1/2");
                      ("percentage", VNum (Num.of_Z 50)) ]) ]).
Proof. eexists. split; vm_compute; reflexivity. Qed.

(** C3, as stated, fails: the object returned for an empty sample has no
    [sampleSize] property at all. *)
Lemma empty_report_has_no_sampleSize : ~ Stated.empty_report users.
Proof.
  intros (report & H & Hsize & _). vm_compute in H.
  injection H as <-. vm_compute in Hsize. discriminate.
Qed.

(** C3, amended.  For every requested sample size, an empty sample gives
    exactly [{ message: 'No documents found in collection', fields: {} }]:
    an empty field mapping and the no-documents note, without
    [sampleSize], [collection] or [summary]; the result is the same
    whatever the division does, so none is performed. *)
Theorem empty_sample_report
  (divide : Num.number -> Num.number -> Num.number)
  (params : GetSchemaParams) :
  getSchema_with divide params []
  = Ok (VObj [ ("message", VStr "No documents found in collection");
               ("fields", VObj []) ]).
Proof. reflexivity. Qed.

(** C4, as stated, fails: a [null] record makes the whole fold raise, and
    the document after it is never folded. *)
Lemma null_record_aborts : ~ Stated.malformed_skipped null_then_doc.
Proof. unfold Stated.malformed_skipped. vm_compute. discriminate. Qed.

(** C4, amended.  There is no per-document isolation.  A sampled record
    that is a number, a boolean, a bigint or a date has no enumerable
    key: it contributes nothing and the fold continues over the remaining
    documents.  A string or an array is folded like a document, through
    its index keys, and an identifier through its [buffer]: it is
    reported at the path [buffer] and, byte by byte, at the paths
    [buffer.0], [buffer.1] and so on.  A [null] or [undefined] record
    raises a [TypeError] that aborts the whole [getSchema] call. *)
Theorem non_mapping_records (params : GetSchemaParams)
  (pre post : list value) (d : value) (fi : fieldInfo_t) :
  match d with
  | VNull | VUndefined =>
      getSchema params (pre ++ d :: post) = Throw TypeError
  | VBool _ | VNum _ | VBigInt _ | VDate _ =>
      forEach_analyze (pre ++ d :: post) fi = forEach_analyze (pre ++ post) fi
  | VObjectId id =>
      forEach_analyze (pre ++ d :: post) fi
      = do fi1 <- forEach_analyze pre fi;
        do fi2 <- fold_visit
                    (("buffer", ObjectId_buffer id)
                       :: map (fun kv => (("buffer." ++ fst kv)%string, snd kv))
                            (bytes_entries id)) fi1;
        forEach_analyze post fi2
  | VStr _ | VArr _ | VObj _ =>
      forEach_analyze (pre ++ d :: post) fi
      = do fi1 <- forEach_analyze pre fi;
        do fi2 <- fold_visit (visits d "") fi1;
        forEach_analyze post fi2
  end.
Proof.
  assert (Hthrow : forall d', Object_entries d' = Throw TypeError ->
            getSchema params (pre ++ d' :: post) = Throw TypeError).
  { intros d' Hd. unfold getSchema, getSchema_with.
    destruct (List.length (pre ++ d' :: post) =? 0)%nat eqn:L.
    - apply Nat.eqb_eq in L. rewrite length_app in L. simpl in L. lia.
    - rewrite forEach_analyze_app.
      destruct (forEach_analyze pre []) as [fi0|[]]; simpl; [|reflexivity].
      now rewrite analyzeObject_eq, Hd. }
  assert (Hfold : forall d' es, Object_entries d' = Ok es ->
            forEach_analyze (pre ++ d' :: post) fi
            = do fi1 <- forEach_analyze pre fi;
              do fi2 <- fold_visit (visits d' "") fi1;
              forEach_analyze post fi2).
  { intros d' es Hd. rewrite forEach_analyze_app.
    destruct (forEach_analyze pre fi) as [fi0|]; simpl; [|reflexivity].
    now rewrite (analyzeObject_visits d' "" fi0 es Hd). }
  assert (Hskip : forall d', Object_entries d' = Ok [] ->
            forEach_analyze (pre ++ d' :: post) fi
            = forEach_analyze (pre ++ post) fi).
  { intros d' Hd. rewrite (Hfold _ _ Hd), forEach_analyze_app.
    rewrite (visits_eq _ _ _ Hd). simpl.
    destruct (forEach_analyze pre fi); reflexivity. }
  destruct d; try (apply Hthrow; reflexivity);
    try (apply Hskip; reflexivity);
    eapply Hfold; reflexivity.
Qed.

Lemma type_of_spec (v : value) : type_of v = spec_type_tag v.
Proof. destruct v; reflexivity. Qed.

Lemma visited_tag_reported (params : GetSchemaParams) (samples : list value)
  (report : value) (path : string) (v : value) :
  getSchema params samples = Ok report ->
  In (path, v) (all_visits samples) ->
  exists view tags,
    report_field report path = Some view
    /\ prop view "types" = Some (VArr (map VStr tags))
    /\ In (type_of v) tags.
Proof.
  intros H Hin.
  assert (Hne : samples <> []) by (intros ->; destruct Hin).
  rewrite (report_field_spec _ _ _ _ Hne H path).
  apply values_at_In in Hin.
  destruct (values_at path (all_visits samples)) as [|w ws] eqn:E;
    [destruct Hin|].
  eexists. exists (types (observe_all (w :: ws) new_record)).
  split; [reflexivity|]. split; [reflexivity|].
  apply types_observe_all. right. eauto.
Qed.



(** ** Reachable key paths and visited paths *)

Lemma visits_entries_In (prefix : string) (es : list (string * value))
  (pv : string * value) :
  In pv (visits_entries prefix es)
  <-> exists k v,
        In (k, v) es
        /\ (pv = (field_path prefix k, v)
            \/ (descends v = true /\ In pv (visits v (field_path prefix k)))).
Proof.
  induction es as [|[k v] es IH]; simpl.
  - split; [tauto|]. intros (k & v & [] & _).
  - rewrite in_app_iff, IH. split.
    + intros [H|[H|(k' & v' & Hin & H)]].
      * exists k, v. split; [now left|]. now left.
      * exists k, v. split; [now left|]. right.
        destruct (descends v); [tauto|destruct H].
      * exists k', v'. split; [now right|exact H].
    + intros (k' & v' & [Heq|Hin] & Hc).
      * injection Heq as <- <-.
        destruct Hc as [Hc|[D Hc]]; [now left|]. right. left. now rewrite D.
      * right. right. eauto.
Qed.

Lemma reachable_visits (obj : value) (prefix path : string) :
  reachable obj prefix path -> In path (map fst (visits obj prefix)).
Proof.
  induction 1 as [obj prefix es k v Hes Hin
                 |obj prefix es k v path Hes Hin Ht _ IH];
    rewrite (visits_eq _ _ _ Hes).
  - apply in_map_iff. exists (field_path prefix k, v). split; [reflexivity|].
    apply visits_entries_In. exists k, v. auto.
  - apply in_map_iff in IH as (pv & <- & Hpv).
    apply in_map. apply visits_entries_In. exists k, v. split; [exact Hin|].
    right. split; [now apply descends_type_of|exact Hpv].
Qed.

Lemma visits_reachable_leaves (props : list (string * value)) :
  Forall (fun kv => descends (snd kv) = false) props ->
  forall prefix pv,
    In pv (visits (VObj props) prefix) -> reachable (VObj props) prefix (fst pv).
Proof.
  intros H prefix pv Hin.
  rewrite (visits_eq (VObj props) prefix props eq_refl) in Hin.
  apply visits_entries_In in Hin as (k & v & Hkv & [->|[D _]]).
  - eapply reach_key; [reflexivity | exact Hkv].
  - rewrite Forall_forall in H. specialize (H _ Hkv). cbn [snd] in H.
    congruence.
Qed.

Lemma visits_reachable (obj : value) :
  forall prefix pv, In pv (visits obj prefix) -> reachable obj prefix (fst pv).
Proof.
  induction obj using value_ind; intros prefix pv Hin;
    match goal with
    | |- reachable ?o _ _ =>
        destruct (Object_entries o) as [es|] eqn:Hes;
        [|simpl in Hes; try discriminate; destruct Hin]
    end;
    pose proof Hin as Hin'; rewrite (visits_eq _ _ _ Hes) in Hin';
    apply visits_entries_In in Hin' as (k & v & Hkv & Hcase);
    (destruct Hcase as [->|[D Hsub]];
     [ eapply reach_key; eauto
     | eapply reach_nested;
       [exact Hes|exact Hkv|now apply descends_type_of|] ]).
  all: try (exfalso; pose proof (entries_values _ _ (fun _ => False) Hes) as F;
            simpl in F; specialize (F I); rewrite Forall_forall in F;
            exact (F _ Hkv D)).
  - injection Hes as <-. destruct Hkv as [Hkv|[]]. injection Hkv as <- <-.
    exact (visits_reachable_leaves _ (descends_bytes id) _ _ Hsub).
  - pose proof (entries_values _ _
      (fun v => forall prefix pv, In pv (visits v prefix) ->
                                  reachable v prefix (fst pv)) Hes) as F.
    simpl in F. specialize (F H). rewrite Forall_forall in F.
    exact (F _ Hkv D _ _ Hsub).
  - pose proof (entries_values _ _
      (fun v => forall prefix pv, In pv (visits v prefix) ->
                                  reachable v prefix (fst pv)) Hes) as F.
    simpl in F. specialize (F H). rewrite Forall_forall in F.
    exact (F _ Hkv D _ _ Hsub).
Qed.


Lemma report_field_In (params : GetSchemaParams) (samples : list value)
  (report : value) (path : string) :
  samples <> [] ->
  getSchema params samples = Ok report ->
  (exists view, report_field report path = Some view)
  <-> In path (map fst (all_visits samples)).
Proof.
  intros Hne H. rewrite (report_field_spec _ _ _ _ Hne H path).
  pose proof (values_at_nil path (all_visits samples)) as N.
  destruct (values_at path (all_visits samples)) as [|w ws].
  - split; [intros [view [=]]|]. intros Hin. exfalso. now apply N.
  - split; [|eauto]. intros _.
    destruct (in_dec string_dec path (map fst (all_visits samples)))
      as [Hin|Hout]; [exact Hin|].
    apply N in Hout. discriminate.
Qed.

(** *** Key sequences and the paths they are reported at *)

Lemma append_assoc (a b c : string) :
  ((a ++ b) ++ c)%string = (a ++ (b ++ c))%string.
Proof. induction a as [|x a IH]; simpl; congruence. Qed.

Lemma dotted_cons (k k' : string) (keys : list string) :
  dotted (k :: k' :: keys) = (k ++ "." ++ dotted (k' :: keys))%string.
Proof. reflexivity. Qed.

(** Under a prefix that is not empty the keys are joined with dots. *)
Lemma join_dotted (keys : list string) :
  forall prefix,
    prefix <> "" -> fold_left field_path keys prefix = dotted (prefix :: keys).
Proof.
  induction keys as [|k keys IH]; intros prefix Hp; [reflexivity|].
  cbn [fold_left]. destruct prefix as [|c p]; [contradiction|].
  rewrite IH by (simpl; discriminate). cbn [field_path].
  destruct keys as [|k' keys]; [reflexivity|].
  rewrite (dotted_cons (String c p ++ "." ++ k)), (dotted_cons (String c p)),
    (dotted_cons k).
  rewrite append_assoc. f_equal.
Qed.

(** From the empty prefix, the empty keys in front are lost. *)
Lemma join_from_empty (keys : list string) :
  fold_left field_path keys "" = dotted (without_leading_empty keys).
Proof.
  induction keys as [|k keys IH]; [reflexivity|].
  cbn [fold_left]. destruct k as [|c k]; [exact IH|].
  change (field_path "" (String c k)) with (String c k).
  apply join_dotted. discriminate.
Qed.

Lemma reachable_key_sequence (obj : value) (prefix path : string) :
  reachable obj prefix path
  <-> exists keys v,
        key_sequence obj keys v /\ path = fold_left field_path keys prefix.
Proof.
  split.
  - induction 1 as [obj prefix es k v Hes Hin
                   |obj prefix es k v path Hes Hin Ht _ IH].
    + exists [k], v. split; [eapply keys_here; eauto | reflexivity].
    + destruct IH as (keys & w & Hk & ->). exists (k :: keys), w.
      split; [|reflexivity].
      eapply keys_below; [exact Hes | exact Hin | | exact Hk].
      rewrite <- type_of_spec. exact Ht.
  - intros (keys & v & Hk & ->). revert prefix.
    induction Hk as [obj es k v Hes Hin|obj es k v keys w Hes Hin Ht _ IH];
      intros prefix.
    + eapply reach_key; eauto.
    + cbn [fold_left]. eapply reach_nested; [exact Hes | exact Hin | |apply IH].
      rewrite type_of_spec. exact Ht.
Qed.

Lemma key_sequence_head (obj : value) (keys : list string) (v : value) :
  key_sequence obj keys v ->
  exists es key x rest,
    Object_entries obj = Ok es /\ In (key, x) es /\ keys = key :: rest.
Proof. destruct 1; eauto 8. Qed.

(** C6, as stated, fails: under an empty key the nested keys are reported
    without the dot.  The document [{ "": { "b": 1 } }] has the key
    sequences [""] and ["", "b"], whose dotted paths are the empty path
    and [.b], but it is reported at the empty path and at [b]. *)
Lemma dotted_paths_fail : ~ Stated.key_paths_exact [empty_key_doc].
Proof.
  intros H.
  destruct (getSchema users [empty_key_doc]) as [report|] eqn:E;
    [|vm_compute in E; discriminate].
  specialize (H users report E "b"). destruct H as [H _].
  destruct H as (doc & keys & v & [<-|[]] & Hk & Hp).
  { vm_compute in E. injection E as <-. vm_compute. eauto. }
  inversion Hk as [obj es k x Hes Hin|obj es k x keys' w Hes Hin Ht Hk'];
    subst; injection Hes as <-; destruct Hin as [Hin|[]];
    injection Hin as <- <-.
  - discriminate.
  - inversion Hk' as [obj es k x Hes Hin|obj es k x keys'' w' Hes Hin Ht' Hk''];
      subst; injection Hes as <-; destruct Hin as [Hin|[]];
      injection Hin as <- <-.
    + discriminate.
    + discriminate.
Qed.

(** C6, amended.  The field paths of the report are exactly the dotted
    key sequences reached by descending into object-typed values only,
    the empty keys in front of a sequence left out: when no sampled
    record has an empty key of its own, they are exactly the dotted key
    sequences.  An array is reported with type [array] at its own path
    and is never descended into.  On [{ "tags": [{"x":1},{"y":2}] }] the
    report has the path [tags] with type [array] and neither [tags.x]
    nor [tags.y]. *)
Theorem array_opacity (params : GetSchemaParams) (samples : list value)
  (report : value) :
  samples <> [] ->
  getSchema params samples = Ok report ->
  (forall path,
     (exists view, report_field report path = Some view)
     <-> (exists doc keys v,
            In doc samples /\ key_sequence doc keys v
            /\ path = dotted (without_leading_empty keys)))
  /\ ((forall doc es key v,
         In doc samples -> Object_entries doc = Ok es -> In (key, v) es ->
         key <> "") ->
      forall path,
        (exists view, report_field report path = Some view)
        <-> (exists doc keys v,
               In doc samples /\ key_sequence doc keys v
               /\ path = dotted keys))
  /\ (forall path elems,
        In (path, VArr elems) (all_visits samples) ->
        (forall obj, ~ In (VArr elems) (recursive_calls obj))
        /\ exists view tags,
             report_field report path = Some view
             /\ prop view "types" = Some (VArr (map VStr tags))
             /\ In "array" tags)
  /\ (exists report3 view,
        getSchema params [tags_doc] = Ok report3
        /\ prop report3 "fields" = Some (VObj [("tags", view)])
        /\ prop view "types" = Some (VArr [VStr "array"])
        /\ report_field report3 "tags.x" = None
        /\ report_field report3 "tags.y" = None).
Proof.
  intros Hne H.
  assert (Hpaths : forall path,
             (exists view, report_field report path = Some view)
             <-> (exists doc keys v,
                    In doc samples /\ key_sequence doc keys v
                    /\ path = dotted (without_leading_empty keys))).
  { intros path. rewrite (report_field_In _ _ _ _ Hne H). unfold all_visits.
    split.
    - intros Hin. apply in_map_iff in Hin as (pv & <- & Hpv).
      apply in_flat_map in Hpv as (doc & Hdoc & Hpv).
      apply visits_reachable, reachable_key_sequence in Hpv
        as (keys & v & Hk & Hp).
      exists doc, keys, v. rewrite <- join_from_empty. auto.
    - intros (doc & keys & v & Hdoc & Hk & ->).
      assert (Hreach : reachable doc "" (dotted (without_leading_empty keys))).
      { apply reachable_key_sequence. exists keys, v.
        rewrite join_from_empty. auto. }
      apply reachable_visits in Hreach.
      apply in_map_iff in Hreach as (pv & <- & Hpv).
      apply in_map. apply in_flat_map. eauto. }
  split; [exact Hpaths|]. split; [|split].
  - intros Hkeys path. rewrite Hpaths.
    assert (Hsame : forall doc keys v,
               In doc samples -> key_sequence doc keys v ->
               without_leading_empty keys = keys).
    { intros doc keys v Hdoc Hk.
      destruct (key_sequence_head _ _ _ Hk) as (es & k & x & rest & Hes & Hin & ->).
      specialize (Hkeys doc es k x Hdoc Hes Hin).
      destruct k; [contradiction|reflexivity]. }
    split; intros (doc & keys & v & Hdoc & Hk & ->); exists doc, keys, v;
      rewrite (Hsame doc keys v Hdoc Hk); auto.
  - intros path elems Hin. split.
    + intros obj Hcall. unfold recursive_calls in Hcall.
      destruct (Object_entries obj); [|destruct Hcall].
      apply filter_In in Hcall as [_ D]. discriminate.
    + exact (visited_tag_reported _ _ _ _ _ H Hin).
  - eexists. eexists. repeat split; vm_compute; reflexivity.
Qed.

Lemma array_opacity_witness :
  [tags_doc] <> []
  /\ getSchema users [tags_doc]
     = Ok (match getSchema users [tags_doc] with
           | Ok r => r
           | Throw _ => VUndefined
           end)
  /\ ((exists view,
         report_field (match getSchema users [tags_doc] with
                       | Ok r => r
                       | Throw _ => VUndefined
                       end) "tags.x" = Some view)
      <-> (exists doc keys v,
             In doc [tags_doc] /\ key_sequence doc keys v
             /\ "tags.x" = dotted (without_leading_empty keys))).
Proof.
  assert (H1 : [tags_doc] <> []) by discriminate.
  assert (H2 : getSchema users [tags_doc]
               = Ok (match getSchema users [tags_doc] with
                     | Ok r => r
                     | Throw _ => VUndefined
                     end)) by (vm_compute; reflexivity).
  split; [exact H1|]. split; [exact H2|].
  exact (proj1 (array_opacity users [tags_doc] _ H1 H2) "tags.x").
Defined.

(** C7.  The examples of every field record are the first three values
    other than [null] seen at the path, in the order seen: at most three,
    never [null]; a [null] value still counts in the presence count and
    adds the tag [null] to the types. *)
Theorem example_cap (samples : list value) (fi : fieldInfo_t)
  (path : string) (info : field_record) :
  forEach_analyze samples [] = Ok fi ->
  get fi path = Some info ->
  let seen := values_at path (all_visits samples) in
  examples info = firstn 3 (filter (fun v => negb (is_null v)) seen)
  /\ (List.length (examples info) <= 3)%nat
  /\ ~ In VNull (examples info)
  /\ count info = List.length seen
  /\ (forall v, In v seen -> In (type_of v) (types info))
  /\ (In VNull seen -> In "null" (types info)).
Proof.
  intros H Hget seen.
  apply forEach_analyze_visits in H as [H _].
  destruct (fieldInfo_spec _ _ H) as (G & _).
  rewrite (G path) in Hget. fold seen in Hget.
  assert (Hinfo : info = observe_all seen new_record).
  { destruct seen; [discriminate|]. now injection Hget as <-. }
  assert (Hex : examples info
                = firstn 3 (filter (fun v => negb (is_null v)) seen)).
  { rewrite Hinfo, examples_observe_all. reflexivity. }
  assert (Hty : forall v, In v seen -> In (type_of v) (types info)).
  { intros v Hv. rewrite Hinfo. apply types_observe_all. right. eauto. }
  split; [exact Hex|]. split; [|split; [|split; [|split]]].
  - rewrite Hex. apply firstn_le_length.
  - rewrite Hex. intros Hin.
    assert (Hall : In VNull (filter (fun v => negb (is_null v)) seen)).
    { rewrite <- (firstn_skipn 3). apply in_or_app. now left. }
    apply filter_In in Hall as [_ Hn]. discriminate.
  - rewrite Hinfo, count_observe_all. reflexivity.
  - exact Hty.
  - intros Hn. exact (Hty VNull Hn).
Qed.

Lemma example_cap_witness :
  forEach_analyze null_first [] = Ok [("a", null_first_record)]
  /\ get [("a", null_first_record)] "a" = Some null_first_record
  /\ (let seen := values_at "a" (all_visits null_first) in
      examples null_first_record
      = firstn 3 (filter (fun v => negb (is_null v)) seen)
      /\ (List.length (examples null_first_record) <= 3)%nat
      /\ ~ In VNull (examples null_first_record)
      /\ count null_first_record = List.length seen
      /\ (forall v, In v seen -> In (type_of v) (types null_first_record))
      /\ (In VNull seen -> In "null" (types null_first_record))).
Proof.
  assert (H1 : forEach_analyze null_first [] = Ok [("a", null_first_record)])
    by (vm_compute; reflexivity).
  assert (H2 : get [("a", null_first_record)] "a" = Some null_first_record)
    by reflexivity.
  split; [exact H1|]. split; [exact H2|].
  exact (example_cap null_first _ "a" null_first_record H1 H2).
Defined.

(** C8.  The public view of every field record has the frequency
    [presenceCount/samples.length] and the percentage computed from the
    same count of sampled documents; the report's [sampleSize] and
    [summary.totalDocuments] are that count, whatever size was requested,
    and [summary.totalFields] is the number of distinct field paths. *)
Theorem report_aggregation (params : GetSchemaParams) (samples : list value)
  (report : value) :
  samples <> [] ->
  getSchema params samples = Ok report ->
  let n := List.length samples in
  prop report "sampleSize" = Some (VNum (Num.of_nat n))
  /\ report_summary report "totalDocuments" = Some (VNum (Num.of_nat n))
  /\ report_summary report "totalFields"
     = Some (VNum (Num.of_nat
               (List.length (nodup string_dec (map fst (all_visits samples))))))
  /\ (exists fields,
        prop report "fields" = Some (VObj fields)
        /\ List.length fields
           = List.length (nodup string_dec (map fst (all_visits samples))))
  /\ exists fi,
       forEach_analyze samples [] = Ok fi
       /\ forall path info,
            get fi path = Some info ->
            exists view,
              report_field report path = Some view
              /\ prop view "types" = Some (VArr (map VStr (types info)))
              /\ prop view "examples" = Some (VArr (examples info))
              /\ prop view "frequency"
                 = Some (VStr (Num.string_of_nat (count info) ++ "/"
                               ++ Num.string_of_nat n))
              /\ prop view "percentage"
                 = Some (VNum (Num.Math_round
                                 (Num.mul
                                    (Num.div (Num.of_nat (count info))
                                       (Num.of_nat n))
                                    (Num.of_Z 100)))).
Proof.
  intros Hne H n.
  destruct (getSchema_with_Ok _ _ _ _ Hne H) as (fi & Hrun & Hfi & ->).
  destruct (fieldInfo_spec _ _ Hfi) as (G & N & I & K).
  destruct (schema_with_spec Num.div n fi N I) as [S L].
  assert (Hlen : List.length (schema_with Num.div n fi)
                 = List.length (nodup string_dec (map fst (all_visits samples)))).
  { rewrite L, <- (length_map fst fi). apply Permutation_length.
    apply NoDup_Permutation; [exact N|apply NoDup_nodup|].
    intros k. rewrite nodup_In. apply K. }
  unfold report_summary, report_field, report_with. fold n.
  remember (schema_with Num.div n fi) as sch eqn:Hsch.
  split; [reflexivity|]. split; [reflexivity|].
  split; [simpl; now rewrite Hlen|].
  split; [eexists; split; [reflexivity|exact Hlen]|].
  exists fi. split; [exact Hrun|]. intros path info Hget.
  exists (public_view_with Num.div n info).
  split; [|repeat split].
  simpl. now rewrite S, Hget.
Qed.

Lemma report_aggregation_witness :
  [doc1; doc2] <> []
  /\ getSchema e2e_params [doc1; doc2] = Ok e2e_report
  /\ prop e2e_report "sampleSize" = Some (VNum (Num.of_nat 2)).
Proof.
  assert (H1 : [doc1; doc2] <> []) by discriminate.
  assert (H2 : getSchema e2e_params [doc1; doc2] = Ok e2e_report)
    by (vm_compute; reflexivity).
  split; [exact H1|]. split; [exact H2|].
  exact (proj1 (report_aggregation e2e_params [doc1; doc2] e2e_report H1 H2)).
Defined.

(** ** Termination *)








(** ** Binary64 arithmetic: bounds on rounding *)

Section Binary64.

Local Open Scope Z_scope.

Local Abbreviation fexp := (SpecFloat.fexp Num.prec Num.emax).

Lemma fexp_eq (e : Z) : fexp e = Z.max (e - 53) (-1074).
Proof. reflexivity. Qed.

Lemma digits2_pos_size (p : positive) : digits2_pos p = Pos.size p.
Proof. induction p; simpl; congruence. Qed.

Lemma Zdigits2_nonneg (m : Z) : 0 <= Zdigits2 m.
Proof. destruct m; simpl; lia. Qed.

Lemma Zdigits2_lower (m : Z) : 0 < m -> 2 ^ (Zdigits2 m - 1) <= m.
Proof.
  destruct m as [|p|p]; try lia. intros _.
  change (Zdigits2 (Zpos p)) with (Zpos (digits2_pos p)).
  rewrite digits2_pos_size. pose proof (Pos.size_le p) as H.
  apply Pos2Z.pos_le_pos in H. rewrite Pos2Z.inj_pow, Pos2Z.inj_xO in H.
  assert (H' : 2 ^ Zpos (Pos.size p) <= 2 * Zpos p) by exact H.
  clear H. remember (Zpos (Pos.size p)) as d eqn:Hd.
  assert (Hd1 : 1 <= d) by lia.
  replace d with (Z.succ (d - 1)) in H' by lia.
  rewrite Z.pow_succ_r in H' by lia. lia.
Qed.

Lemma Zdigits2_upper (m : Z) : 0 <= m -> m < 2 ^ Zdigits2 m.
Proof.
  destruct m as [|p|p]; try lia; intros _; [simpl; lia|].
  change (Zdigits2 (Zpos p)) with (Zpos (digits2_pos p)).
  rewrite digits2_pos_size. pose proof (Pos.size_gt p) as H.
  apply Pos2Z.pos_lt_pos in H. rewrite Pos2Z.inj_pow in H. exact H.
Qed.

(** *** Shifting right *)

Lemma shr_1_spec (mrs : shr_record) :
  0 <= shr_m mrs ->
  shr_m (shr_1 mrs) = shr_m mrs / 2
  /\ (Num.inexact mrs = false -> shr_m mrs mod 2 = 0 ->
      Num.inexact (shr_1 mrs) = false).
Proof.
  destruct mrs as [m r s]. unfold Num.inexact. cbn [shr_m shr_r shr_s].
  intros Hm. split.
  - rewrite <- Z.div2_div. destruct m as [|[p|p|]|p]; try reflexivity; lia.
  - intros Hi Hmod. rewrite Zmod_odd in Hmod.
    destruct m as [|[p|p|]|p]; try lia; simpl in *;
      try discriminate; exact Hi.
Qed.

Lemma iter_pos_shr_1 (m0 : Z) (i0 : bool) (p : positive) :
  forall (n : Z) (mrs : shr_record),
    0 <= m0 -> 0 <= n ->
    shr_m mrs = m0 / 2 ^ n ->
    (i0 = false -> m0 mod 2 ^ n = 0 -> Num.inexact mrs = false) ->
    let mrs' := iter_pos shr_1 p mrs in
    shr_m mrs' = m0 / 2 ^ (n + Zpos p)
    /\ (i0 = false -> m0 mod 2 ^ (n + Zpos p) = 0 -> Num.inexact mrs' = false).
Proof.
  assert (Hstep : forall n mrs, 0 <= m0 -> 0 <= n ->
            shr_m mrs = m0 / 2 ^ n ->
            (i0 = false -> m0 mod 2 ^ n = 0 -> Num.inexact mrs = false) ->
            shr_m (shr_1 mrs) = m0 / 2 ^ (n + 1)
            /\ (i0 = false -> m0 mod 2 ^ (n + 1) = 0 ->
                Num.inexact (shr_1 mrs) = false)).
  { intros n mrs Hm0 Hn Hm Hi.
    assert (Hpos : 0 <= shr_m mrs) by (rewrite Hm; apply Z.div_pos; lia).
    destruct (shr_1_spec mrs Hpos) as [S1 S2].
    rewrite Z.pow_add_r, Z.pow_1_r by lia.
    split.
    - rewrite S1, Hm, Z.div_div by lia. reflexivity.
    - intros H0 Hmod.
      apply Z.mod_divide in Hmod; [|lia]. destruct Hmod as [t Ht].
      assert (Hmod' : m0 mod 2 ^ n = 0).
      { apply Z.mod_divide; [lia|]. exists (t * 2). lia. }
      apply S2; [auto|]. rewrite Hm.
      replace m0 with (t * 2 * 2 ^ n) by lia.
      rewrite Z.div_mul by lia. rewrite Z.mul_comm.
      apply Z.mod_divide; [lia|]. exists t. lia. }
  induction p as [p IH|p IH|]; intros n mrs Hm0 Hn Hm Hi; simpl.
  - destruct (Hstep n mrs Hm0 Hn Hm Hi) as [A1 A2].
    destruct (IH (n + 1) (shr_1 mrs) Hm0 ltac:(lia) A1 A2) as [B1 B2].
    destruct (IH (n + 1 + Zpos p) _ Hm0 ltac:(lia) B1 B2) as [C1 C2].
    replace (n + Zpos p~1) with (n + 1 + Zpos p + Zpos p) by lia. auto.
  - destruct (IH n mrs Hm0 Hn Hm Hi) as [B1 B2].
    destruct (IH (n + Zpos p) _ Hm0 ltac:(lia) B1 B2) as [C1 C2].
    replace (n + Zpos p~0) with (n + Zpos p + Zpos p) by lia. auto.
  - apply Hstep; assumption.
Qed.

Lemma shr_fexp_spec (m e : Z) (l : location) :
  0 <= m ->
  let e' := Z.max e (fexp (Zdigits2 m + e)) in
  exists mrs,
    shr_fexp Num.prec Num.emax m e l = (mrs, e')
    /\ shr_m mrs = m / 2 ^ (e' - e)
    /\ (l = loc_Exact -> m mod 2 ^ (e' - e) = 0 ->
        loc_of_shr_record mrs = loc_Exact).
Proof.
  intros Hm e'. unfold shr_fexp, shr.
  assert (Hloc : forall mrs, Num.inexact mrs = false ->
                             loc_of_shr_record mrs = loc_Exact).
  { intros [m1 [|] [|]]; unfold Num.inexact; simpl; intros; try discriminate.
    reflexivity. }
  assert (Hrec : shr_m (shr_record_of_loc m l) = m
                 /\ (l = loc_Exact -> Num.inexact (shr_record_of_loc m l) = false)).
  { destruct l as [|[| |]]; simpl; split; try reflexivity; discriminate. }
  destruct Hrec as [R1 R2].
  destruct (fexp (Zdigits2 m + e) - e) as [|p|p] eqn:E.
  - exists (shr_record_of_loc m l).
    replace e' with e by (unfold e'; lia).
    rewrite Z.sub_diag, Z.pow_0_r, Z.div_1_r. auto.
  - assert (He' : e' = e + Zpos p) by (unfold e'; lia).
    destruct (iter_pos_shr_1 m (negb (match l with loc_Exact => true | _ => false end))
                p 0 (shr_record_of_loc m l) Hm ltac:(lia)) as [S1 S2].
    + rewrite R1, Z.pow_0_r, Z.div_1_r. reflexivity.
    + intros Hl _. apply R2. destruct l; [reflexivity|discriminate].
    + exists (iter_pos shr_1 p (shr_record_of_loc m l)).
      rewrite He'. replace (e + Zpos p - e) with (0 + Zpos p) by lia.
      split; [reflexivity|]. split; [exact S1|].
      intros Hl Hmod. apply Hloc, S2; [now rewrite Hl|exact Hmod].
  - exists (shr_record_of_loc m l).
    replace e' with e by (unfold e'; lia).
    rewrite Z.sub_diag, Z.pow_0_r, Z.div_1_r. auto.
Qed.

(** *** Rounding never crosses a representable bound *)

Lemma shift_le (m e M E : Z) :
  0 <= m -> e <= E -> -1074 <= E -> 0 < M < 2 ^ 53 ->
  m <= M * 2 ^ (E - e) ->
  let e' := Z.max e (fexp (Zdigits2 m + e)) in
  e' <= E
  /\ m / 2 ^ (e' - e) <= M * 2 ^ (E - e')
  /\ (m < M * 2 ^ (E - e) -> m / 2 ^ (e' - e) < M * 2 ^ (E - e'))
  /\ (m mod 2 ^ (e' - e) <> 0 -> m / 2 ^ (e' - e) < M * 2 ^ (E - e')).
Proof.
  intros Hm He HE HM Hle e'.
  assert (He' : e' <= E).
  { unfold e'. rewrite fexp_eq.
    destruct (Z_le_gt_dec (Zdigits2 m + e - 53) E) as [|Hgt]; [lia|].
    exfalso.
    assert (Hpos : 0 < m).
    { destruct (Z.eq_dec m 0) as [->|]; [simpl in Hgt; lia|lia]. }
    pose proof (Zdigits2_lower m Hpos) as Hlow.
    assert (Hup : M * 2 ^ (E - e) < 2 ^ 53 * 2 ^ (E - e)).
    { apply Z.mul_lt_mono_pos_r; [apply Z.pow_pos_nonneg; lia|lia]. }
    rewrite <- Z.pow_add_r in Hup by lia.
    assert (Hlt : 2 ^ (Zdigits2 m - 1) < 2 ^ (53 + (E - e))) by lia.
    apply Z.pow_lt_mono_r_iff in Hlt; lia. }
  assert (Hk : 0 <= e' - e) by (unfold e'; lia).
  assert (Hsplit : M * 2 ^ (E - e) = M * 2 ^ (E - e') * 2 ^ (e' - e)).
  { rewrite <- Z.mul_assoc, <- Z.pow_add_r by lia. do 2 f_equal. lia. }
  assert (Hp : 0 < 2 ^ (e' - e)) by (apply Z.pow_pos_nonneg; lia).
  assert (Hstrict : m < M * 2 ^ (E - e) ->
                    m / 2 ^ (e' - e) < M * 2 ^ (E - e')).
  { intros Hlt. apply Z.div_lt_upper_bound; [exact Hp|]. lia. }
  split; [exact He'|]. split; [|split].
  - rewrite Hsplit in Hle.
    apply Z.div_le_upper_bound; [exact Hp|]. lia.
  - exact Hstrict.
  - intros Hmod. apply Hstrict.
    destruct (Z.eq_dec m (M * 2 ^ (E - e))) as [Heq|]; [|lia].
    exfalso. apply Hmod. rewrite Heq, Hsplit. apply Z.mod_mul. lia.
Qed.

Lemma round_nearest_even_bounds (m : Z) (l : location) :
  m <= round_nearest_even m l <= m + 1
  /\ (l = loc_Exact -> round_nearest_even m l = m).
Proof.
  destruct l as [|[| |]]; simpl; try destruct (Z.even m);
    split; try lia; try discriminate; reflexivity.
Qed.

(** A non-negative value at most a representable bound [M * 2^E] rounds
    to zero or to a value at most that bound. *)
Lemma binary_round_aux_le (mx ex : Z) (lx : location) (M E : Z) :
  0 <= mx -> ex <= E -> -1074 <= E <= 971 -> 0 < M < 2 ^ 53 ->
  mx + match lx with loc_Exact => 0 | _ => 1 end <= M * 2 ^ (E - ex) ->
  binary_round_aux Num.prec Num.emax false mx ex lx = S754_zero false
  \/ exists m e,
       binary_round_aux Num.prec Num.emax false mx ex lx
       = S754_finite false m e
       /\ e <= E /\ Zpos m <= M * 2 ^ (E - e).
Proof.
  intros Hmx Hex HE HM Hle. unfold binary_round_aux.
  destruct (shr_fexp_spec mx ex lx Hmx) as (mrs1 & Heq1 & Hm1 & Hx1).
  rewrite Heq1.
  assert (Hle0 : mx <= M * 2 ^ (E - ex)) by (destruct lx; lia).
  destruct (shift_le mx ex M E Hmx Hex ltac:(lia) HM Hle0)
    as (He1 & Hd1 & Hs1 & Hr1).
  set (e1 := Z.max ex (fexp (Zdigits2 mx + ex))) in *.
  set (m2 := round_nearest_even (shr_m mrs1) (loc_of_shr_record mrs1)).
  assert (Hm1pos : 0 <= shr_m mrs1).
  { rewrite Hm1. apply Z.div_pos; [lia|]. apply Z.pow_pos_nonneg; lia. }
  assert (Hm2 : 0 <= m2 <= M * 2 ^ (E - e1)).
  { unfold m2.
    destruct (round_nearest_even_bounds (shr_m mrs1) (loc_of_shr_record mrs1))
      as [[B1 B2] B3].
    split; [lia|].
    destruct (loc_of_shr_record mrs1) eqn:L1.
    - rewrite B3 by reflexivity. rewrite Hm1. exact Hd1.
    - assert (Hlt : shr_m mrs1 < M * 2 ^ (E - e1)); [|lia].
      rewrite Hm1. destruct lx as [|c'].
      + apply Hr1. intros Hmod. specialize (Hx1 eq_refl Hmod). discriminate.
      + apply Hs1. lia. }
  destruct (shr_fexp_spec m2 e1 loc_Exact (proj1 Hm2))
    as (mrs3 & Heq3 & Hm3 & _).
  rewrite Heq3.
  destruct (shift_le m2 e1 M E (proj1 Hm2) He1 ltac:(lia) HM (proj2 Hm2))
    as (He3 & Hd3 & _ & _).
  set (e3 := Z.max e1 (fexp (Zdigits2 m2 + e1))) in *.
  assert (Hm3pos : 0 <= shr_m mrs3).
  { rewrite Hm3. apply Z.div_pos; [lia|]. apply Z.pow_pos_nonneg; lia. }
  destruct (shr_m mrs3) as [|m|m] eqn:E3; [now left| |lia].
  right. exists m, e3.
  replace (e3 <=? Num.emax - Num.prec) with true
    by (symmetry; apply Z.leb_le; unfold Num.emax, Num.prec; lia).
  split; [reflexivity|]. split; [exact He3|]. rewrite <- Hm3 in Hd3. lia.
Qed.

(** *** Integers as numbers *)

Lemma iter_xO (p k : positive) :
  Zpos (Pos.iter xO p k) = Zpos p * 2 ^ Zpos k
  /\ Zpos (digits2_pos (Pos.iter xO p k)) = Zpos (digits2_pos p) + Zpos k.
Proof.
  induction k as [|k [IH1 IH2]] using Pos.peano_ind.
  - simpl. split; lia.
  - rewrite Pos.iter_succ. cbn [digits2_pos].
    rewrite Pos2Z.inj_xO, IH1, !Pos2Z.inj_succ, IH2.
    rewrite Z.pow_succ_r by lia. split; lia.
Qed.

Lemma shl_align_spec (p : positive) (e e' : Z) :
  e' <= e ->
  exists mz,
    shl_align p e e' = (mz, e')
    /\ Zpos mz = Zpos p * 2 ^ (e - e')
    /\ Zdigits2 (Zpos mz) = Zdigits2 (Zpos p) + (e - e').
Proof.
  intros H. unfold shl_align. destruct (e' - e) as [|k|k] eqn:E; try lia.
  - assert (e' = e) as -> by lia. exists p.
    rewrite Z.sub_diag, Z.pow_0_r. split; [reflexivity|]. lia.
  - destruct (iter_xO p k) as [I1 I2]. exists (Pos.iter xO p k).
    replace (e - e') with (Zpos k) by lia.
    cbn [Zdigits2]. auto.
Qed.

(** A value with exactly 53 digits and an exponent in range is kept. *)
Lemma binary_round_aux_exact (m : positive) (e : Z) :
  Zdigits2 (Zpos m) = 53 -> -1074 <= e <= 971 ->
  binary_round_aux Num.prec Num.emax false (Zpos m) e loc_Exact
  = S754_finite false m e.
Proof.
  intros Hd He. unfold binary_round_aux.
  assert (Hfix : Z.max e (fexp (Zdigits2 (Zpos m) + e)) = e)
    by (rewrite fexp_eq, Hd; lia).
  destruct (shr_fexp_spec (Zpos m) e loc_Exact ltac:(lia))
    as (mrs1 & Heq1 & Hm1 & Hx1).
  rewrite Hfix in *. rewrite Heq1.
  rewrite Z.sub_diag, Z.pow_0_r, Z.div_1_r in Hm1.
  rewrite Z.sub_diag, Z.pow_0_r, Z.mod_1_r in Hx1.
  rewrite (Hx1 eq_refl eq_refl), Hm1. cbn [round_nearest_even].
  destruct (shr_fexp_spec (Zpos m) e loc_Exact ltac:(lia))
    as (mrs3 & Heq3 & Hm3 & _).
  rewrite Hfix in *. rewrite Heq3.
  rewrite Z.sub_diag, Z.pow_0_r, Z.div_1_r in Hm3. rewrite Hm3.
  replace (e <=? Num.emax - Num.prec) with true
    by (symmetry; apply Z.leb_le; unfold Num.emax, Num.prec; lia).
  reflexivity.
Qed.

Lemma of_Z_finite (c : Z) :
  0 < c < 2 ^ 53 ->
  exists m e,
    Num.of_Z c = S754_finite false m e
    /\ -52 <= e <= 0
    /\ Zpos m = c * 2 ^ (- e)
    /\ Zdigits2 (Zpos m) = 53.
Proof.
  intros [Hpos Hlt]. destruct c as [|p|p]; try lia.
  unfold Num.of_Z, binary_normalize, binary_round.
  pose proof (Zdigits2_lower (Zpos p) ltac:(lia)) as Hlow.
  pose proof (Zdigits2_nonneg (Zpos p)) as Hnn.
  change (Zpos (digits2_pos p)) with (Zdigits2 (Zpos p)).
  set (d := Zdigits2 (Zpos p)) in *.
  assert (Hd : 1 <= d <= 53).
  { split; [unfold d; simpl; lia|].
    assert (H : 2 ^ (d - 1) < 2 ^ 53) by lia.
    apply Z.pow_lt_mono_r_iff in H; lia. }
  assert (Hfexp : fexp (d + 0) = d - 53) by (rewrite fexp_eq; lia).
  rewrite Hfexp.
  destruct (shl_align_spec p 0 (d - 53) ltac:(lia)) as (mz & Heq & Hmz & Hdz).
  rewrite Heq. exists mz, (d - 53).
  fold d in Hdz.
  split; [apply binary_round_aux_exact; lia|].
  split; [lia|]. split; [|lia].
  rewrite Hmz. replace (0 - (d - 53)) with (- (d - 53)) by lia. reflexivity.
Qed.

(** *** The percentage *)

Lemma new_location_zero (nb : Z) : new_location nb 0 = loc_Exact.
Proof.
  unfold new_location, new_location_even, new_location_odd.
  now destruct (Z.even nb).
Qed.

(** A ratio of counts [c <= n] is a number at most 1. *)
Lemma div_le_one (c n : Z) :
  0 < c <= n -> n < 2 ^ 53 ->
  Num.div (Num.of_Z c) (Num.of_Z n) = S754_zero false
  \/ exists m e,
       Num.div (Num.of_Z c) (Num.of_Z n) = S754_finite false m e
       /\ e <= 0 /\ Zpos m <= 2 ^ (- e).
Proof.
  intros Hc Hn.
  destruct (of_Z_finite c ltac:(lia)) as (mc & ec & -> & Hec & Hmc & Hdc).
  destruct (of_Z_finite n ltac:(lia)) as (mn & en & -> & Hen & Hmn & Hdn).
  unfold Num.div, SFdiv, SFdiv_core_binary. rewrite Hdc, Hdn.
  change (xorb false false) with false.
  assert (He' : Z.min (fexp (53 + ec - (53 + en))) (ec - en) = ec - en - 53)
    by (rewrite fexp_eq; lia).
  rewrite He'. replace (ec - en - (ec - en - 53)) with 53 by lia.
  cbv iota. rewrite Z.shiftl_mul_pow2 by lia.
  pose proof (Z_div_mod (Zpos mc * 2 ^ 53) (Zpos mn) ltac:(lia)) as Hdiv.
  destruct (Z.div_eucl (Zpos mc * 2 ^ 53) (Zpos mn)) as [q r].
  destruct Hdiv as [Hqr Hr].
  set (A := 2 ^ (- ec)) in *. set (B := 2 ^ (- en)) in *.
  set (T := 2 ^ (53 + en - ec)).
  assert (HA : 0 < A) by (apply Z.pow_pos_nonneg; lia).
  assert (HB : 0 < B) by (apply Z.pow_pos_nonneg; lia).
  assert (HT : 0 < T) by (apply Z.pow_pos_nonneg; lia).
  assert (HTB : T * B = 2 ^ 53 * A).
  { unfold T, A, B. rewrite <- !Z.pow_add_r by lia. f_equal. lia. }
  assert (Hq : 0 <= q) by nia.
  assert (Hbound : Zpos mn * q <= T * Zpos mn).
  { rewrite Hmn. 
    assert (Zpos mn * q <= Zpos mc * 2 ^ 53) by lia.
    assert (Zpos mc * 2 ^ 53 = c * (T * B)) by (rewrite HTB, Hmc; lia).
    nia. }
  assert (HqT : q <= T) by nia.
  assert (Hstrict : r <> 0 -> q < T).
  { intros Hr0.
    assert (Zpos mn * q < Zpos mc * 2 ^ 53) by lia.
    assert (Zpos mc * 2 ^ 53 = c * (T * B)) by (rewrite HTB, Hmc; lia).
    assert (Zpos mn * q < T * Zpos mn) by (rewrite Hmn in *; nia).
    nia. }
  assert (Hone : 0 < 1 < 2 ^ 53) by (split; reflexivity).
  assert (Hmain : q + match new_location (Zpos mn) r with
                      | loc_Exact => 0
                      | _ => 1
                      end <= 1 * 2 ^ (0 - (ec - en - 53))).
  { rewrite Z.mul_1_l. replace (0 - (ec - en - 53)) with (53 + en - ec) by lia.
    fold T. destruct (Z.eq_dec r 0) as [->|Hr0].
    - rewrite new_location_zero. lia.
    - specialize (Hstrict Hr0).
      destruct (new_location (Zpos mn) r); lia. }
  destruct (binary_round_aux_le q (ec - en - 53) (new_location (Zpos mn) r) 1 0
              Hq ltac:(lia) ltac:(lia) Hone Hmain)
    as [Hz|(m & e & Hf & He & Hm)].
  - now left.
  - right. exists m, e. split; [exact Hf|]. split; [exact He|].
    rewrite Z.mul_1_l, Z.sub_0_l in Hm. exact Hm.
Qed.

(** A number at most 1 times 100 is a number at most 100. *)
Lemma mul_100_le (m : positive) (e : Z) :
  e <= 0 -> Zpos m <= 2 ^ (- e) ->
  Num.mul (S754_finite false m e) (Num.of_Z 100) = S754_zero false
  \/ exists m' e',
       Num.mul (S754_finite false m e) (Num.of_Z 100)
       = S754_finite false m' e'
       /\ e' <= -46 /\ Zpos m' <= 7036874417766400 * 2 ^ (-46 - e').
Proof.
  intros He Hm.
  change (Num.of_Z 100) with (S754_finite false 7036874417766400 (-46)).
  unfold Num.mul, SFmul. change (xorb false false) with false.
  assert (HM : 0 < 7036874417766400 < 2 ^ 53) by (split; reflexivity).
  apply binary_round_aux_le; [lia|lia|lia|exact HM|].
  rewrite Pos2Z.inj_mul, Z.add_0_r.
  replace (-46 - (e + -46)) with (- e) by lia.
  rewrite (Z.mul_comm (Zpos m)).
  apply Z.mul_le_mono_nonneg_l; lia.
Qed.

Lemma to_Z_of_Z_small (z : Z) :
  0 <= z <= 100 -> Num.to_Z (Num.of_Z z) = Some z.
Proof.
  intros Hz.
  assert (Hall : forallb
            (fun k => match Num.to_Z (Num.of_Z (Z.of_nat k)) with
                      | Some z' => Z.eqb z' (Z.of_nat k)
                      | None => false
                      end) (seq 0 101) = true) by (vm_compute; reflexivity).
  rewrite forallb_forall in Hall.
  specialize (Hall (Z.to_nat z)). rewrite Z2Nat.id in Hall by lia.
  assert (Hin : In (Z.to_nat z) (seq 0 101)) by (apply in_seq; lia).
  specialize (Hall Hin).
  destruct (Num.to_Z (Num.of_Z z)) as [z'|]; [|discriminate].
  apply Z.eqb_eq in Hall. now subst.
Qed.

(** [Math.round] of a number at most 100 is an integer in [0,100]. *)
Lemma Math_round_le_100 (x : Num.number) :
  (x = S754_zero false
   \/ exists m e,
        x = S754_finite false m e
        /\ e <= -46 /\ Zpos m <= 7036874417766400 * 2 ^ (-46 - e)) ->
  exists z, Num.to_Z (Num.Math_round x) = Some z /\ 0 <= z <= 100.
Proof.
  intros [->|(m & e & -> & He & Hm)].
  - exists 0. split; [reflexivity|lia].
  - unfold Num.Math_round.
    replace (0 <=? e) with false by (symmetry; apply Z.leb_gt; lia).
    cbn [cond_Zopp].
    set (P := 2 ^ (- e)) in *.
    assert (HP : 0 < P) by (apply Z.pow_pos_nonneg; lia).
    assert (Hm' : Zpos m <= 100 * P).
    { replace (-46 - e) with (- e - 46) in Hm by lia.
      assert (H46 : 2 ^ (- e) = 2 ^ (- e - 46) * 2 ^ 46).
      { rewrite <- Z.pow_add_r by lia. f_equal. lia. }
      fold P in H46. change (2 ^ 46) with 70368744177664 in H46.
      assert (0 < 2 ^ (- e - 46)) by (apply Z.pow_pos_nonneg; lia).
      lia. }
    assert (H2 : 2 ^ (1 - e) = 2 * P).
    { replace (1 - e) with (Z.succ (- e)) by lia.
      now rewrite Z.pow_succ_r by lia. }
    rewrite H2.
    set (z := (2 * Zpos m + P) / (2 * P)).
    assert (Hz : 0 <= z <= 100).
    { split.
      - apply Z.div_pos; lia.
      - assert (z < 101); [|lia].
        apply Z.div_lt_upper_bound; lia. }
    exists z. split; [|exact Hz].
    destruct z as [|k|k] eqn:Ez; [reflexivity| |lia].
    apply to_Z_of_Z_small. lia.
Qed.

(** The percentage of a count that does not exceed the number of samples
    is an integer between 0 and 100. *)
Lemma percentage_range (c n : nat) :
  (0 < c <= n)%nat -> Z.of_nat n < 2 ^ 53 ->
  exists z,
    Num.to_Z
      (Num.Math_round
         (Num.mul (Num.div (Num.of_nat c) (Num.of_nat n)) (Num.of_Z 100)))
    = Some z
    /\ 0 <= z <= 100.
Proof.
  intros Hc Hn. apply Math_round_le_100. unfold Num.of_nat.
  destruct (div_le_one (Z.of_nat c) (Z.of_nat n) ltac:(lia) Hn)
    as [->|(m & e & -> & He & Hm)].
  - left. reflexivity.
  - apply mul_100_le; assumption.
Qed.

End Binary64.

(** The product is rounded twice: 29 of 200 is 14.5 percent exactly, yet
    [(29 / 200) * 100] is 14.499999999999998 and rounds to 14; 1 of 8 is
    12.5 and rounds up to 13; 1 of 201 rounds to 0. *)
Example percentage_29_of_200 : Num.to_Z (percentage 29 200) = Some 14%Z.
Proof. reflexivity. Qed.

Example percentage_1_of_8 : Num.to_Z (percentage 1 8) = Some 13%Z.
Proof. reflexivity. Qed.

Example percentage_1_of_201 : Num.to_Z (percentage 1 201) = Some 0%Z.
Proof. reflexivity. Qed.

Example percentage_1_of_200 : Num.to_Z (percentage 1 200) = Some 1%Z.
Proof. reflexivity. Qed.

(** ** Presence counts *)

Lemma values_at_NoDup (p : string) (l : list (string * value)) :
  NoDup (map fst l) -> (List.length (values_at p l) <= 1)%nat.
Proof.
  induction l as [|[q v] l IH]; simpl; intros Hnd; [unfold values_at; simpl; lia|].
  inversion Hnd as [|? ? Hq Hnd']; subst. rewrite values_at_cons.
  destruct (String.eqb q p) eqn:E; [|auto].
  apply String.eqb_eq in E. subst q.
  apply values_at_nil in Hq. rewrite Hq. simpl. lia.
Qed.

Lemma presence_le_samples (p : string) (samples : list value) :
  (forall doc, In doc samples -> NoDup (map fst (visits doc ""))) ->
  (List.length (values_at p (all_visits samples)) <= List.length samples)%nat.
Proof.
  induction samples as [|d l IH]; intros Hnd.
  - unfold all_visits, values_at. simpl. lia.
  - unfold all_visits in *. simpl. rewrite values_at_app, length_app.
    pose proof (values_at_NoDup p _ (Hnd d (or_introl eq_refl))).
    specialize (IH (fun doc H => Hnd doc (or_intror H))). lia.
Qed.

(** ** Documents with plain keys yield every path once *)

Lemma append_inv_l (a b c : string) : (a ++ b = a ++ c)%string -> b = c.
Proof. induction a as [|x a IH]; simpl; intros H; [exact H|]. injection H. auto. Qed.

Lemma append_nil_inv (a b : string) : (a ++ b)%string = a -> b = "".
Proof.
  induction a as [|x a IH]; simpl; intros H; [exact H|]. injection H. auto.
Qed.

Lemma field_path_separator (prefix key : string) :
  field_path prefix key = (separator prefix ++ key)%string.
Proof.
  destruct prefix as [|c prefix]; [reflexivity|].
  unfold field_path, separator. now rewrite append_assoc.
Qed.

Lemma dotless_split (k k' x y : string) :
  dotless k = true -> dotless k' = true ->
  (x = "" \/ exists r, x = String "." r) ->
  (y = "" \/ exists r, y = String "." r) ->
  (k ++ x)%string = (k' ++ y)%string ->
  k = k'.
Proof.
  revert k'. induction k as [|c k IH]; intros [|c' k'] Dk Dk' Hx Hy H;
    simpl in *.
  - reflexivity.
  - apply andb_prop in Dk' as [Dc _]. exfalso.
    destruct Hx as [->|[r ->]]; [discriminate|].
    injection H as <- _. discriminate.
  - apply andb_prop in Dk as [Dc _]. exfalso.
    destruct Hy as [->|[r ->]]; [discriminate|].
    injection H as -> _. discriminate.
  - apply andb_prop in Dk as [_ Dk]. apply andb_prop in Dk' as [_ Dk'].
    injection H as -> H. f_equal. eauto.
Qed.

(** Below a non-empty path, every path continues it after a dot. *)
Lemma reachable_below (obj : value) (prefix path : string) :
  reachable obj prefix path ->
  prefix <> "" ->
  exists rest, path = (prefix ++ String "." rest)%string.
Proof.
  induction 1 as [obj prefix es k v Hes Hin
                 |obj prefix es k v path Hes Hin Ht _ IH]; intros Hne.
  - exists k. destruct prefix; [contradiction|reflexivity].
  - destruct IH as [rest ->].
    + destruct prefix; [contradiction|discriminate].
    + exists (k ++ String "." rest)%string.
      destruct prefix; [contradiction|]. unfold field_path.
      now rewrite !append_assoc.
Qed.

Lemma plain_key_nonempty (prefix k : string) :
  plain_key k = true -> field_path prefix k <> "".
Proof.
  unfold plain_key. intros H. apply andb_prop in H as [H _].
  destruct k; [discriminate|]. destruct prefix; discriminate.
Qed.

(** The paths under one entry: the key, possibly continued after a dot. *)
Lemma entry_paths (prefix k : string) (v : value) (p : string) :
  plain_key k = true ->
  In p (field_path prefix k
        :: map fst (if descends v then visits v (field_path prefix k) else [])) ->
  exists x,
    p = (separator prefix ++ k ++ x)%string
    /\ (x = "" \/ exists r, x = String "." r).
Proof.
  intros Hk [<-|Hin].
  - exists "". split; [|now left].
    rewrite field_path_separator. f_equal.
    clear. induction k; simpl; congruence.
  - destruct (descends v); [|destruct Hin].
    apply in_map_iff in Hin as (pv & <- & Hpv).
    apply visits_reachable in Hpv.
    destruct (reachable_below _ _ _ Hpv (plain_key_nonempty prefix k Hk))
      as [rest ->].
    exists (String "." rest). split; [|right; eauto].
    now rewrite field_path_separator, append_assoc.
Qed.

Lemma entries_paths (prefix : string) (l : list (string * value)) (p : string) :
  Forall (fun kv => plain_key (fst kv) = true) l ->
  In p (map fst (visits_entries prefix l)) ->
  exists k x,
    In k (map fst l)
    /\ p = (separator prefix ++ k ++ x)%string
    /\ (x = "" \/ exists r, x = String "." r).
Proof.
  induction 1 as [|[k v] l Hk _ IH]; simpl; [tauto|].
  rewrite map_app, in_app_iff. intros [H|[H|H]].
  - destruct (entry_paths prefix k v p Hk (or_introl H)) as (x & ? & ?).
    exists k, x. auto.
  - destruct (entry_paths prefix k v p Hk (or_intror H)) as (x & ? & ?).
    exists k, x. auto.
  - destruct (IH H) as (k' & x & ? & ? & ?). exists k', x. auto.
Qed.

Lemma plain_keys_entries (props : list (string * value)) :
  plain_keys (VObj props) ->
  NoDup (map fst props)
  /\ Forall (fun kv => plain_key (fst kv) = true /\ plain_keys (snd kv)) props.
Proof.
  intros [Hnd Hall]. split; [exact Hnd|]. clear Hnd.
  induction props as [|[k x] l IH]; constructor.
  - simpl. tauto.
  - apply IH. tauto.
Qed.

Lemma plain_dotless (k : string) : plain_key k = true -> dotless k = true.
Proof. unfold plain_key. intros H. now apply andb_prop in H. Qed.

Lemma entries_NoDup (prefix : string) (l : list (string * value)) :
  NoDup (map fst l) ->
  Forall (fun kv =>
            plain_key (fst kv) = true
            /\ (descends (snd kv) = true ->
                forall prefix, NoDup (map fst (visits (snd kv) prefix)))) l ->
  NoDup (map fst (visits_entries prefix l)).
Proof.
  intros Hnd Hall. induction Hall as [|[k v] l [Hk Hv] Hall IH];
    simpl in *; [constructor|].
  inversion Hnd as [|? ? Hnotin Hnd']; subst. specialize (IH Hnd').
  assert (Hplain : Forall (fun kv => plain_key (fst kv) = true) l).
  { eapply Forall_impl; [|exact Hall]. simpl. tauto. }
  assert (Hother : forall p x,
            p = (separator prefix ++ k ++ x)%string ->
            (x = "" \/ exists r, x = String "." r) ->
            ~ In p (map fst (visits_entries prefix l))).
  { intros p x -> Hx Hin.
    destruct (entries_paths prefix l _ Hplain Hin) as (k' & x' & Hk' & Heq & Hx').
    apply append_inv_l in Heq.
    assert (k = k'); [|subst; contradiction].
    apply (dotless_split k k' x x'); auto using plain_dotless.
    apply plain_dotless. rewrite Forall_forall in Hplain.
    apply in_map_iff in Hk' as ([k0 v0] & <- & Hin0).
    exact (Hplain _ Hin0). }
  rewrite map_app. constructor.
  - rewrite in_app_iff. intros [Hin|Hin].
    + destruct (descends v) eqn:D; [|destruct Hin].
      apply in_map_iff in Hin as (pv & Heq & Hpv).
      apply visits_reachable in Hpv.
      destruct (reachable_below _ _ _ Hpv (plain_key_nonempty prefix k Hk))
        as [rest Hrest].
      rewrite Hrest in Heq. apply append_nil_inv in Heq. discriminate.
    + destruct (entry_paths prefix k v _ Hk (or_introl eq_refl)) as (x & Hp & Hx).
      exact (Hother _ _ Hp Hx Hin).
  - apply NoDup_app.
    + destruct (descends v); [now apply Hv|constructor].
    + exact IH.
    + intros p Hin.
      destruct (entry_paths prefix k v p Hk (or_intror Hin)) as (x & Hp & Hx).
      exact (Hother _ _ Hp Hx).
Qed.

(** A mapping with plain keys yields no path twice. *)
Lemma plain_keys_NoDup (obj : value) :
  forall prefix,
    descends obj = true -> plain_keys obj ->
    NoDup (map fst (visits obj prefix)).
Proof.
  induction obj as [| | | | | | | | |props IHprops] using value_ind;
    intros prefix D Hplain; try discriminate.
  rewrite (visits_eq (VObj props) prefix props eq_refl).
  destruct (plain_keys_entries props Hplain) as [Hnd Hall].
  apply entries_NoDup; [exact Hnd|].
  rewrite Forall_forall in *. intros kv Hkv.
  destruct (Hall kv Hkv) as [Hk Hx]. split; [exact Hk|].
  intros Dx prefix'. apply IHprops; assumption.
Qed.

(** C1, as stated, fails twice.  With 201 sampled documents of which one
    has the field, the percentage is 0, below 1.  With one document whose
    key [a.b] collides with the key [b] of its nested object [a], the
    presence count is 2, above the sample count 1. *)
Lemma frequency_bound_fails :
  ~ Stated.frequency_bound sparse_sample
  /\ ~ Stated.frequency_bound [dotted_doc].
Proof.
  split; intros H.
  - destruct (H ltac:(discriminate)
                [("a", {| types := ["number"];
                          examples := [VNum (Num.of_Z 1)];
                          count := 1 |})]
                "a" _ ltac:(vm_compute; reflexivity) eq_refl)
      as (_ & z & Hz & _ & Hz1).
    vm_compute in Hz. injection Hz as <-. lia.
  - destruct (H ltac:(discriminate)
                [("a.b", {| types := ["number"];
                            examples := [VNum (Num.of_Z 1); VNum (Num.of_Z 2)];
                            count := 2 |});
                 ("a", {| types := ["object"];
                          examples := [VObj [("b", VNum (Num.of_Z 2))]];
                          count := 1 |})]
                "a.b" _ ltac:(vm_compute; reflexivity) eq_refl)
      as (Hc & _).
    simpl in Hc. lia.
Qed.

(** C1, amended.  For a sample of fewer than 2^53 documents none of which
    yields the same path string twice, every field record has
    [0 < presenceCount <= samples.length], and the percentage,
    [Math.round((presenceCount / samples.length) * 100)] in binary64
    arithmetic, is an integer in [[0,100]]. *)
Theorem frequency_bound_amended (samples : list value) (fi : fieldInfo_t)
  (path : string) (info : field_record) :
  (Z.of_nat (List.length samples) < 2 ^ 53)%Z ->
  (forall doc, In doc samples -> NoDup (map fst (visits doc ""))) ->
  forEach_analyze samples [] = Ok fi ->
  get fi path = Some info ->
  (0 < count info <= List.length samples)%nat
  /\ count info = List.length (values_at path (all_visits samples))
  /\ percentage (count info) (List.length samples)
     = Num.Math_round
         (Num.mul
            (Num.div (Num.of_nat (count info))
               (Num.of_nat (List.length samples)))
            (Num.of_Z 100))
  /\ exists z : Z,
       Num.to_Z (percentage (count info) (List.length samples)) = Some z
       /\ (0 <= z <= 100)%Z.
Proof.
  intros Hlen Hnd H Hget.
  apply forEach_analyze_visits in H as [H _].
  destruct (fieldInfo_spec _ _ H) as (G & _).
  rewrite (G path) in Hget.
  pose proof (presence_le_samples path samples Hnd) as Hle.
  assert (Hcount : count info
                   = List.length (values_at path (all_visits samples))).
  { destruct (values_at path (all_visits samples)); [discriminate|].
    injection Hget as <-. now rewrite count_observe_all. }
  assert (Hpos : (0 < count info)%nat).
  { rewrite Hcount.
    destruct (values_at path (all_visits samples)); [discriminate|simpl; lia]. }
  split; [lia|]. split; [exact Hcount|]. split; [reflexivity|].
  apply percentage_range; [lia|exact Hlen].
Qed.

Lemma frequency_bound_amended_witness :
  (Z.of_nat (List.length [doc1; doc2]) < 2 ^ 53)%Z
  /\ (forall doc, In doc [doc1; doc2] -> NoDup (map fst (visits doc "")))
  /\ forEach_analyze [doc1; doc2] []
     = Ok [ ("_id", {| types := ["string"];
                       examples := [VStr "1"; VStr "2"];
                       count := 2 |});
            ("name", {| types := ["string"; "number"];
                        examples := [VStr "Al"; VNum (Num.of_Z 42)];
                        count := 2 |});
            ("tags", {| types := ["array"];
                        examples := [VArr [VStr "x"]];
                        count := 1 |}) ]
  /\ (0 < 1 <= List.length [doc1; doc2])%nat.
Proof.
  assert (H1 : (Z.of_nat (List.length [doc1; doc2]) < 2 ^ 53)%Z)
    by reflexivity.
  assert (H2 : forall doc, In doc [doc1; doc2] ->
                           NoDup (map fst (visits doc ""))).
  { intros doc [<-|[<-|[]]]; simpl;
      repeat (constructor; [simpl; intuition discriminate|]); constructor. }
  assert (H3 : forEach_analyze [doc1; doc2] []
     = Ok [ ("_id", {| types := ["string"];
                       examples := [VStr "1"; VStr "2"];
                       count := 2 |});
            ("name", {| types := ["string"; "number"];
                        examples := [VStr "Al"; VNum (Num.of_Z 42)];
                        count := 2 |});
            ("tags", {| types := ["array"];
                        examples := [VArr [VStr "x"]];
                        count := 1 |}) ]) by (vm_compute; reflexivity).
  split; [exact H1|]. split; [exact H2|]. split; [exact H3|].
  exact (proj1 (frequency_bound_amended [doc1; doc2] _ "tags" _
                  H1 H2 H3 eq_refl)).
Defined.

(** ** Identifier coercion *)

(** The two conversion rules, on a string alone and on a string directly
    under an id-like key. *)
Lemma convert_string (ObjectId_isValid : string -> bool) (s : string) :
  Coercion.convertToObjectIds ObjectId_isValid (VStr s)
  = if ObjectId_isValid s && (String.length s =? 24)%nat
    then VObjectId s
    else VStr s.
Proof.
  destruct s as [|c s]; simpl; [|reflexivity].
  now rewrite andb_false_r.
Qed.

Lemma convert_under_id_key (ObjectId_isValid : string -> bool)
  (key s : string) :
  Coercion.id_key key = true ->
  ObjectId_isValid s = true ->
  Coercion.convertToObjectIds ObjectId_isValid (VObj [(key, VStr s)])
  = VObj (assign [] key (VObjectId s)).
Proof. intros Hk Hs. simpl. now rewrite Hk, Hs. Qed.

(** C9.  On the filter [{"_id": {"$in": ["507f1f77bcf86cd799439011"],
    "$exists": true}}], whatever the driver's validity test answers, the
    object under [_id] is rebuilt with its [$in] property alone: the
    sibling [$exists: true], a value neither rule applies to, is dropped
    instead of being returned unchanged. *)
Theorem coercion_drops_in_siblings (ObjectId_isValid : string -> bool) :
  Coercion.convertToObjectIds ObjectId_isValid in_with_sibling
  = VObj [ ("_id",
             VObj [ ("$in",
                      VArr [ Coercion.coerce_element ObjectId_isValid
                               (VStr "507f1f77bcf86cd799439011") ]) ]) ]
  /\ (exists original,
        prop in_with_sibling "_id" = Some original
        /\ prop original "$exists" = Some (VBool true))
  /\ (exists converted,
        prop (Coercion.convertToObjectIds ObjectId_isValid in_with_sibling)
          "_id" = Some converted
        /\ prop converted "$exists" = None).
Proof.
  split; [reflexivity|]. split.
  - eexists. split; reflexivity.
  - eexists. split; reflexivity.
Qed.

(** * Further properties of the code *)

(** ** When [getSchema] returns, in terms of the documents *)

Lemma entries_defined (doc : value) :
  (exists es, Object_entries doc = Ok es)
  <-> doc <> VNull /\ doc <> VUndefined.
Proof.
  destruct doc; simpl; split;
    try (intros [es H]; discriminate);
    try (intros _; split; discriminate);
    try (intros _; eauto; fail);
    intros [H1 H2]; contradiction.
Qed.

Lemma all_visits_reachable (samples : list value) (P : string -> Prop) :
  Forall (fun pv => P (fst pv)) (all_visits samples)
  <-> (forall doc path, In doc samples -> reachable doc "" path -> P path).
Proof.
  rewrite Forall_forall. unfold all_visits. split.
  - intros H doc path Hdoc Hreach. apply reachable_visits in Hreach.
    apply in_map_iff in Hreach as (pv & <- & Hpv). apply H.
    apply in_flat_map. eauto.
  - intros H pv Hpv. apply in_flat_map in Hpv as (doc & Hdoc & Hpv).
    apply (H doc); [exact Hdoc|]. now apply visits_reachable.
Qed.

(** X1.  The analysis of a sample, from the test of line 507 to the
    report object handed to [JSON.stringify], builds that object exactly
    when no sampled record is [null] or [undefined] and no key path of a
    sampled document is the name of a property inherited from
    [Object.prototype]; in every other case it raises a [TypeError].
    (Serialising the object is a later step, which can raise as well.) *)
Theorem report_built_iff (params : GetSchemaParams)
  (samples : list value) :
  ((exists report, getSchema params samples = Ok report)
   <-> Forall (fun doc => doc <> VNull /\ doc <> VUndefined) samples
       /\ (forall doc path,
             In doc samples -> reachable doc "" path ->
             inherited path = false))
  /\ ((forall report, getSchema params samples <> Ok report)
      -> getSchema params samples = Throw TypeError).
Proof.
  split.
  - rewrite <- (all_visits_reachable samples (fun p => inherited p = false)).
    assert (Hent : Forall (fun doc => doc <> VNull /\ doc <> VUndefined) samples
                   <-> Forall (fun doc => exists es, Object_entries doc = Ok es)
                         samples).
    { rewrite !Forall_forall. split; intros H doc Hdoc;
        apply entries_defined; auto. }
    rewrite Hent, <- forEach_analyze_returns_iff.
    unfold getSchema, getSchema_with. destruct samples as [|d l].
    + split; intros _; eexists; reflexivity.
    + change (List.length (d :: l) =? 0)%nat with false. cbv iota. split.
      * intros [report H]. apply bind_Ok in H as (fi & H & _). eauto.
      * intros [fi ->]. simpl. eauto.
  - intros H. destruct (getSchema params samples) as [report|[]] eqn:E;
      [exfalso; exact (H report eq_refl)|reflexivity].
Qed.

(** ** The types of a path, in first-seen order *)

Lemma first_occurrences_ext (l : list string) :
  forall s1 s2,
    (forall x, existsb (String.eqb x) s1 = existsb (String.eqb x) s2) ->
    first_occurrences s1 l = first_occurrences s2 l.
Proof.
  induction l as [|x l IH]; intros s1 s2 H; simpl; [reflexivity|].
  rewrite (H x). destruct (existsb (String.eqb x) s2); [now apply IH|].
  f_equal. apply IH. intros y. simpl. now rewrite H.
Qed.

Lemma types_observe_all_eq (vs : list value) :
  forall info,
    types (observe_all vs info)
    = types info ++ first_occurrences (types info) (map type_of vs).
Proof.
  induction vs as [|v vs IH]; intros info.
  - simpl. now rewrite app_nil_r.
  - change (observe_all (v :: vs) info) with (observe_all vs (observe v info)).
    rewrite IH. cbn [observe types map first_occurrences]. unfold set_add.
    destruct (existsb (String.eqb (type_of v)) (types info)) eqn:E.
    + reflexivity.
    + rewrite <- app_assoc. f_equal.
      change ([type_of v] ++ ?l) with (type_of v :: l). f_equal.
      apply first_occurrences_ext. intros x.
      rewrite existsb_app. simpl. rewrite orb_false_r. apply orb_comm.
Qed.

Lemma first_occurrences_In (l : list string) :
  forall seen x,
    In x (first_occurrences seen l) <-> In x l /\ ~ In x seen.
Proof.
  induction l as [|y l IH]; intros seen x; simpl; [tauto|].
  destruct (existsb (String.eqb y) seen) eqn:E.
  - apply existsb_exists in E as (z & Hz & Ez). apply String.eqb_eq in Ez.
    subst z. rewrite IH. split; [tauto|]. intros [[<-|H] Hn]; tauto.
  - assert (Hy : ~ In y seen).
    { intros Hy. assert (existsb (String.eqb y) seen = true); [|congruence].
      apply existsb_exists. exists y. split; [exact Hy|apply String.eqb_refl]. }
    simpl. rewrite IH. simpl. split.
    + intros [<-|[H Hn]]; [tauto|]. split; [tauto|]. intros Hs. apply Hn. auto.
    + intros [[<-|H] Hn]; [tauto|].
      destruct (string_dec y x) as [->|Hne]; [tauto|]. right.
      split; [exact H|]. intros [Heq|Hs]; [contradiction|contradiction].
Qed.

Lemma first_occurrences_NoDup (l : list string) :
  forall seen, NoDup (first_occurrences seen l).
Proof.
  induction l as [|y l IH]; intros seen; simpl; [constructor|].
  destruct (existsb (String.eqb y) seen); [apply IH|].
  constructor; [|apply IH]. rewrite first_occurrences_In. simpl. tauto.
Qed.

Lemma report_field_Some (params : GetSchemaParams) (samples : list value)
  (report : value) (path : string) (view : value) :
  getSchema params samples = Ok report ->
  report_field report path = Some view ->
  samples <> []
  /\ values_at path (all_visits samples) <> []
  /\ view = public_view (List.length samples)
             (observe_all (values_at path (all_visits samples)) new_record).
Proof.
  intros H Hview.
  assert (Hne : samples <> []).
  { intros ->. injection H as <-. discriminate. }
  rewrite (report_field_spec _ _ _ _ Hne H path) in Hview.
  split; [exact Hne|].
  destruct (values_at path (all_visits samples)); [discriminate|].
  split; [discriminate|]. now injection Hview as <-.
Qed.

(** X2.  The [types] of a reported field are the tags of the values seen
    at its path, each once, in the order in which they were first seen:
    no tag is repeated and none is listed that was not observed. *)
Theorem reported_types_first_seen (params : GetSchemaParams)
  (samples : list value) (report : value) (path : string) (view : value) :
  getSchema params samples = Ok report ->
  report_field report path = Some view ->
  prop view "types" = Some (VArr (map VStr (tags_at path samples)))
  /\ NoDup (tags_at path samples)
  /\ (forall tag,
        In tag (tags_at path samples)
        <-> exists v, In (path, v) (all_visits samples) /\ type_of v = tag).
Proof.
  intros H Hview.
  destruct (report_field_Some _ _ _ _ _ H Hview) as (_ & _ & ->).
  split; [|split].
  - unfold public_view, public_view_with. cbn [prop get String.eqb].
    simpl. rewrite types_observe_all_eq. reflexivity.
  - apply first_occurrences_NoDup.
  - intros tag. unfold tags_at. rewrite first_occurrences_In, in_map_iff.
    split.
    + intros [(v & <- & Hv) _]. exists v. split; [|reflexivity].
      now apply values_at_In.
    + intros (v & Hv & <-). split; [|tauto]. exists v.
      split; [reflexivity|]. now apply values_at_In.
Qed.

Lemma reported_types_first_seen_witness :
  getSchema e2e_params [doc1; doc2] = Ok e2e_report
  /\ report_field e2e_report "name"
     = Some (VObj [ ("types", VArr [VStr "string"; VStr "number"]);
                    ("examples", VArr [VStr "Al"; VNum (Num.of_Z 42)]);
                    ("frequency", VStr "2/2");
                    ("percentage", VNum (Num.of_Z 100)) ])
  /\ NoDup (tags_at "name" [doc1; doc2]).
Proof.
  assert (H1 : getSchema e2e_params [doc1; doc2] = Ok e2e_report)
    by (vm_compute; reflexivity).
  assert (H2 : report_field e2e_report "name"
     = Some (VObj [ ("types", VArr [VStr "string"; VStr "number"]);
                    ("examples", VArr [VStr "Al"; VNum (Num.of_Z 42)]);
                    ("frequency", VStr "2/2");
                    ("percentage", VNum (Num.of_Z 100)) ]))
    by (vm_compute; reflexivity).
  split; [exact H1|]. split; [exact H2|].
  exact (proj1 (proj2 (reported_types_first_seen e2e_params [doc1; doc2]
                         e2e_report "name" _ H1 H2))).
Defined.

(** ** Presence counts count documents *)

Lemma values_at_once (p : string) (l : list (string * value)) :
  NoDup (map fst l) ->
  List.length (values_at p l)
  = if existsb (String.eqb p) (map fst l) then 1 else 0.
Proof.
  induction l as [|[q v] l IH]; intros Hnd; [reflexivity|].
  inversion Hnd as [|? ? Hq Hnd']; subst. rewrite values_at_cons.
  cbn [map fst existsb]. rewrite (String.eqb_sym p q).
  destruct (String.eqb q p) eqn:E; cbn [orb]; [|auto].
  apply String.eqb_eq in E. subst q.
  apply values_at_nil in Hq. now rewrite Hq.
Qed.

Lemma presence_counts_docs (p : string) (samples : list value) :
  (forall doc, In doc samples -> NoDup (map fst (visits doc ""))) ->
  List.length (values_at p (all_visits samples))
  = List.length (filter (has_path p) samples).
Proof.
  induction samples as [|d l IH]; intros Hnd; [reflexivity|].
  unfold all_visits in *. cbn [flat_map filter].
  rewrite values_at_app, length_app.
  rewrite (values_at_once p _ (Hnd d (or_introl eq_refl))).
  rewrite (IH (fun doc H => Hnd doc (or_intror H))).
  unfold has_path at 2. now destruct (existsb (String.eqb p) _).
Qed.

(** X3.  When the sampled documents are mappings whose keys, at every
    level descended into, are distinct, non-empty and free of dots, the
    presence count of a path is the number of sampled documents in which
    the path occurs. *)
Theorem presence_count_is_document_count (samples : list value)
  (fi : fieldInfo_t) (path : string) (info : field_record) :
  (forall doc, In doc samples -> descends doc = true /\ plain_keys doc) ->
  forEach_analyze samples [] = Ok fi ->
  get fi path = Some info ->
  count info = List.length (filter (has_path path) samples).
Proof.
  intros Hplain H Hget.
  apply forEach_analyze_visits in H as [H _].
  destruct (fieldInfo_spec _ _ H) as (G & _).
  rewrite (G path) in Hget.
  rewrite <- presence_counts_docs.
  - destruct (values_at path (all_visits samples)); [discriminate|].
    injection Hget as <-. now rewrite count_observe_all.
  - intros doc Hdoc. destruct (Hplain doc Hdoc) as [D P].
    now apply plain_keys_NoDup.
Qed.

Lemma presence_count_is_document_count_witness :
  (forall doc, In doc [doc1; doc2] -> descends doc = true /\ plain_keys doc)
  /\ forEach_analyze [doc1; doc2] []
     = Ok [ ("_id", {| types := ["string"];
                       examples := [VStr "1"; VStr "2"];
                       count := 2 |});
            ("name", {| types := ["string"; "number"];
                        examples := [VStr "Al"; VNum (Num.of_Z 42)];
                        count := 2 |});
            ("tags", {| types := ["array"];
                        examples := [VArr [VStr "x"]];
                        count := 1 |}) ]
  /\ 1 = List.length (filter (has_path "tags") [doc1; doc2]).
Proof.
  assert (H1 : forall doc, In doc [doc1; doc2] ->
                           descends doc = true /\ plain_keys doc).
  { intros doc [<-|[<-|[]]]; (split; [reflexivity|]); simpl;
      (split; [repeat (constructor; [simpl; intuition discriminate|]);
               constructor|tauto]). }
  assert (H2 : forEach_analyze [doc1; doc2] []
     = Ok [ ("_id", {| types := ["string"];
                       examples := [VStr "1"; VStr "2"];
                       count := 2 |});
            ("name", {| types := ["string"; "number"];
                        examples := [VStr "Al"; VNum (Num.of_Z 42)];
                        count := 2 |});
            ("tags", {| types := ["array"];
                        examples := [VArr [VStr "x"]];
                        count := 1 |}) ]) by (vm_compute; reflexivity).
  split; [exact H1|]. split; [exact H2|].
  exact (presence_count_is_document_count [doc1; doc2] _ "tags" _
           H1 H2 eq_refl).
Defined.

(** ** The order of the sampled documents *)

Lemma values_at_Permutation (p : string) (l l' : list (string * value)) :
  Permutation l l' -> Permutation (values_at p l) (values_at p l').
Proof.
  induction 1 as [|[q v] l l' _ IH|[q v] [q' v'] l|l l' l'' _ IH1 _ IH2].
  - constructor.
  - rewrite !values_at_cons. destruct (String.eqb q p); auto.
  - rewrite !values_at_cons.
    destruct (String.eqb q p), (String.eqb q' p); auto. constructor.
  - now transitivity (values_at p l').
Qed.

Lemma all_visits_Permutation (samples samples' : list value) :
  Permutation samples samples' ->
  Permutation (all_visits samples) (all_visits samples').
Proof. intros H. unfold all_visits. now apply Permutation_flat_map. Qed.

Lemma getSchema_Ok_fold (params : GetSchemaParams) (samples : list value) :
  samples <> [] ->
  forall fi,
    forEach_analyze samples [] = Ok fi ->
    getSchema params samples
    = Ok (report_with Num.div params (List.length samples) fi).
Proof.
  intros Hne fi H. unfold getSchema, getSchema_with.
  destruct samples as [|d l]; [contradiction|].
  change (List.length (d :: l) =? 0)%nat with false. cbv iota.
  now rewrite H.
Qed.

(** X4.  The order in which the documents were sampled does not change
    what is counted: for a permutation of the sample the report is built
    as well, with the same [sampleSize] and the same field paths, and
    every field has the same frequency, the same percentage and the same
    set of types.  (Nothing is said of the order of the fields, of the
    order of the types, or of the examples.) *)
Theorem sample_order_irrelevant (params : GetSchemaParams)
  (samples samples' : list value) (report : value) :
  Permutation samples samples' ->
  getSchema params samples = Ok report ->
  exists report',
    getSchema params samples' = Ok report'
    /\ prop report' "sampleSize" = prop report "sampleSize"
    /\ (forall path,
          (exists view', report_field report' path = Some view')
          <-> (exists view, report_field report path = Some view))
    /\ forall path view,
         report_field report path = Some view ->
         exists view',
           report_field report' path = Some view'
           /\ prop view' "frequency" = prop view "frequency"
           /\ prop view' "percentage" = prop view "percentage"
           /\ Permutation (tags_at path samples') (tags_at path samples)
           /\ prop view "types" = Some (VArr (map VStr (tags_at path samples)))
           /\ prop view' "types"
              = Some (VArr (map VStr (tags_at path samples'))).
Proof.
  intros Hperm H.
  assert (Hret : exists fi', forEach_analyze samples' [] = Ok fi').
  { destruct samples as [|d l].
    - apply Permutation_nil in Hperm. subst. simpl. eauto.
    - assert (Hfi : exists fi, forEach_analyze (d :: l) [] = Ok fi).
      { destruct (getSchema_with_Ok Num.div params (d :: l) report
                    ltac:(discriminate) H) as (fi & Hfi & _). eauto. }
      apply forEach_analyze_returns_iff in Hfi as [F1 F2].
      apply forEach_analyze_returns_iff. split.
      + eapply Permutation_Forall; [exact Hperm|exact F1].
      + eapply Permutation_Forall;
          [apply all_visits_Permutation; exact Hperm|exact F2]. }
  destruct Hret as [fi' Hfi'].
  destruct samples as [|d l].
  - apply Permutation_nil in Hperm. subst samples'.
    exists report. split; [exact H|]. split; [reflexivity|].
    split; [tauto|].
    intros path view Hview. injection H as <-. discriminate.
  - assert (Hne' : samples' <> []).
    { intros ->. apply Permutation_sym, Permutation_nil in Hperm.
      discriminate. }
    pose proof (getSchema_Ok_fold params samples' Hne' fi' Hfi') as H'.
    eexists. split; [exact H'|].
    assert (Hlen : List.length samples' = List.length (d :: l))
      by (symmetry; now apply Permutation_length).
    destruct (getSchema_with_Ok Num.div params (d :: l) report
                ltac:(discriminate) H) as (fi & _ & _ & Hrep).
    split; [rewrite Hrep, Hlen; reflexivity|].
    split.
    { intros path.
      rewrite (report_field_In _ _ _ _ Hne' H'),
        (report_field_In params (d :: l) report path ltac:(discriminate) H).
      pose proof (Permutation_map fst (all_visits_Permutation _ _ Hperm)) as P.
      split; apply Permutation_in; [exact (Permutation_sym P)|exact P]. }
    intros path view Hview.
    destruct (report_field_Some _ _ _ _ _ H Hview) as (_ & Hseen & ->).
    pose proof (values_at_Permutation path _ _
                  (all_visits_Permutation _ _ Hperm)) as Hvals.
    rewrite (report_field_spec Num.div params samples' _ Hne' H' path).
    destruct (values_at path (all_visits samples')) as [|w ws] eqn:Ew.
    { apply Permutation_sym, Permutation_nil in Hvals. contradiction. }
    eexists. split; [reflexivity|].
    rewrite <- Ew in Hvals. rewrite <- Ew.
    unfold public_view, public_view_with.
    cbn [prop get String.eqb Ascii.eqb Bool.eqb].
    rewrite !count_observe_all, !types_observe_all_eq, Hlen.
    rewrite (Permutation_length Hvals).
    split; [reflexivity|]. split; [reflexivity|].
    split; [|split; reflexivity].
    apply NoDup_Permutation; try apply first_occurrences_NoDup.
    intros tag. unfold tags_at. rewrite !first_occurrences_In.
    assert (Hin : In tag (map type_of (values_at path (all_visits samples')))
                  <-> In tag (map type_of (values_at path (all_visits (d :: l))))).
    { split; apply Permutation_in, Permutation_map;
        [exact (Permutation_sym Hvals)|exact Hvals]. }
    tauto.
Qed.

Lemma sample_order_irrelevant_witness :
  Permutation [doc1; doc2] [doc2; doc1]
  /\ getSchema e2e_params [doc1; doc2] = Ok e2e_report
  /\ exists report',
       getSchema e2e_params [doc2; doc1] = Ok report'
       /\ prop report' "sampleSize" = prop e2e_report "sampleSize".
Proof.
  assert (H1 : Permutation [doc1; doc2] [doc2; doc1]) by apply perm_swap.
  assert (H2 : getSchema e2e_params [doc1; doc2] = Ok e2e_report)
    by (vm_compute; reflexivity).
  split; [exact H1|]. split; [exact H2|].
  destruct (sample_order_irrelevant e2e_params _ _ _ H1 H2)
    as (report' & Hr & Hs & _).
  exists report'. split; assumption.
Defined.

(** ** The order of the reported fields *)

Lemma goes_before_asym (k k' : string) :
  goes_before k k' = true -> goes_before k' k = false.
Proof.
  unfold goes_before.
  destruct (array_index k) as [n|], (array_index k') as [n'|];
    try discriminate; try reflexivity.
  intros H. apply N.ltb_lt in H. apply N.ltb_ge. lia.
Qed.

Lemma goes_before_trans (k k0 x : string) :
  goes_before k k0 = true -> goes_before x k0 = false ->
  goes_before x k = false.
Proof.
  unfold goes_before.
  destruct (array_index k) as [n|], (array_index k0) as [n0|],
    (array_index x) as [nx|]; try discriminate; try reflexivity.
  intros H1 H2. apply N.ltb_lt in H1. apply N.ltb_ge in H2.
  apply N.ltb_ge. lia.
Qed.

Section EnumerationOrder.

Context {A : Type}.

Lemma create_append (o : list (string * A)) (k : string) (a : A) :
  Forall (fun k' => goes_before k k' = false) (map fst o) ->
  create o k a = o ++ [(k, a)].
Proof.
  induction o as [|[k0 a0] o IH]; simpl; intros H; [reflexivity|].
  inversion H as [|? ? H0 H']; subst. rewrite H0. f_equal. auto.
Qed.

Lemma create_enumeration_order (o : list (string * A)) (k : string) (a : A) :
  enumeration_order (map fst o) ->
  enumeration_order (map fst (create o k a)).
Proof.
  induction o as [|[k0 a0] o IH]; simpl; intros H.
  - split; [constructor|exact I].
  - destruct H as [H0 H']. destruct (goes_before k k0) eqn:G; simpl.
    + split; [|split; assumption].
      constructor; [now apply goes_before_asym|].
      eapply Forall_impl; [|exact H0]. simpl. intros x Hx.
      exact (goes_before_trans k k0 x G Hx).
    + split; [|auto]. apply Forall_forall. intros x Hx.
      apply keys_create in Hx as [<-|Hx]; [exact G|].
      rewrite Forall_forall in H0. auto.
Qed.

Lemma define_enumeration_order (o : list (string * A)) (k : string) (a : A) :
  enumeration_order (map fst o) ->
  enumeration_order (map fst (define o k a)).
Proof.
  intros H. unfold define. destruct (get o k).
  - now rewrite keys_overwrite.
  - now apply create_enumeration_order.
Qed.

Lemma enumeration_order_app (l1 : list string) (k : string) (l2 : list string) :
  enumeration_order (l1 ++ k :: l2) ->
  Forall (fun k' => goes_before k k' = false) l1.
Proof.
  induction l1 as [|x l1 IH]; simpl; intros H; [constructor|].
  destruct H as [H0 H']. constructor; [|auto].
  rewrite Forall_forall in H0. apply H0. apply in_or_app. right. now left.
Qed.

(** Rebuilding an object key by key gives its entries back in place. *)
Lemma rebuild_in_place {B : Type} (f : string * B -> A) (l2 : list (string * B)) :
  forall l1,
    NoDup (map fst (l1 ++ l2)) ->
    enumeration_order (map fst (l1 ++ l2)) ->
    Forall (fun kv => fst kv <> "__proto__") l2 ->
    fold_left (fun acc kv => assign acc (fst kv) (f kv)) l2
      (map (fun kv => (fst kv, f kv)) l1)
    = map (fun kv => (fst kv, f kv)) (l1 ++ l2).
Proof.
  induction l2 as [|[k b] l2 IH]; intros l1 Hnd Hord Hproto; simpl.
  - now rewrite app_nil_r.
  - inversion Hproto as [|? ? Hk Hproto']; subst. simpl in Hk.
    unfold assign. apply String.eqb_neq in Hk. rewrite Hk.
    replace (define (map (fun kv => (fst kv, f kv)) l1) k (f (k, b)))
      with (map (fun kv => (fst kv, f kv)) (l1 ++ [(k, b)])).
    + replace (l1 ++ (k, b) :: l2) with ((l1 ++ [(k, b)]) ++ l2)
        by now rewrite <- app_assoc.
      apply IH; [| |exact Hproto']; now rewrite <- app_assoc.
    + rewrite map_app. simpl. unfold define.
      assert (Hkeys : map fst (map (fun kv => (fst kv, f kv)) l1) = map fst l1)
        by (rewrite map_map; reflexivity).
      assert (Hnone : get (map (fun kv => (fst kv, f kv)) l1) k = None).
      { apply get_None. rewrite Hkeys. rewrite map_app in Hnd.
        simpl in Hnd. apply NoDup_remove_2 in Hnd.
        intros Hin. apply Hnd. apply in_or_app. now left. }
      rewrite Hnone. symmetry. apply create_append. rewrite Hkeys.
      rewrite map_app in Hord. simpl in Hord.
      now apply enumeration_order_app in Hord.
Qed.

End EnumerationOrder.

Lemma visit_enumeration_order (p : string) (v : value) (fi fi' : fieldInfo_t) :
  visit p v fi = Ok fi' ->
  enumeration_order (map fst fi) -> enumeration_order (map fst fi').
Proof.
  unfold visit. destruct (get fi p).
  - intros [= <-]. apply define_enumeration_order.
  - destruct (inherited p) eqn:I; [discriminate|]. intros [= <-].
    rewrite assign_not_inherited by assumption.
    apply define_enumeration_order.
Qed.

Lemma fold_visit_enumeration_order (l : list (string * value)) :
  forall fi fi',
    fold_visit l fi = Ok fi' ->
    enumeration_order (map fst fi) -> enumeration_order (map fst fi').
Proof.
  induction l as [|[q v] l IH]; intros fi fi'; simpl.
  - now intros [= <-].
  - intros H Hord. apply bind_Ok in H as (fi1 & H1 & H2).
    eapply IH; [exact H2|]. eapply visit_enumeration_order; eauto.
Qed.

Lemma get_existsb {A : Type} (o : list (string * A)) (k : string) :
  existsb (String.eqb k) (map fst o)
  = match get o k with Some _ => true | None => false end.
Proof.
  induction o as [|[k0 a0] o IH]; simpl; [reflexivity|].
  rewrite (String.eqb_sym k k0). destruct (String.eqb k0 k); simpl; auto.
Qed.

Lemma named_app (l1 l2 : list string) :
  named (l1 ++ l2) = named l1 ++ named l2.
Proof. apply filter_app. Qed.

Lemma named_create {A : Type} (o : list (string * A)) (k : string) (a : A) :
  named (map fst (create o k a)) = named (map fst o) ++ named [k].
Proof.
  induction o as [|[k0 a0] o IH]; [reflexivity|].
  cbn [create]. destruct (goes_before k k0) eqn:G.
  - assert (Hk : named [k] = []).
    { unfold goes_before in G. unfold named. cbn [filter].
      destruct (array_index k); [reflexivity|discriminate]. }
    rewrite Hk, app_nil_r.
    change (map fst ((k, a) :: (k0, a0) :: o))
      with ([k] ++ map fst ((k0, a0) :: o)).
    rewrite named_app, Hk. reflexivity.
  - change (map fst ((k0, a0) :: create o k a))
      with ([k0] ++ map fst (create o k a)).
    change (map fst ((k0, a0) :: o)) with ([k0] ++ map fst o).
    rewrite !named_app, IH, app_assoc. reflexivity.
Qed.

(** The keys that are not array indices are kept in the order in which
    they were first met. *)
Lemma fold_visit_named (l : list (string * value)) :
  forall fi fi',
    fold_visit l fi = Ok fi' ->
    named (map fst fi')
    = named (map fst fi) ++ named (first_occurrences (map fst fi) (map fst l)).
Proof.
  induction l as [|[q v] l IH]; intros fi fi'; simpl.
  - intros [= <-]. now rewrite app_nil_r.
  - intros H. apply bind_Ok in H as (fi1 & H1 & H2).
    rewrite (IH _ _ H2). rewrite get_existsb.
    unfold visit in H1. destruct (get fi q) eqn:G.
    + injection H1 as <-. unfold define. rewrite G, keys_overwrite.
      reflexivity.
    + destruct (inherited q) eqn:I; [discriminate|]. injection H1 as <-.
      rewrite assign_not_inherited by assumption. unfold define. rewrite G.
      rewrite named_create, <- app_assoc. f_equal.
      change (q :: first_occurrences (q :: map fst fi) (map fst l))
        with ([q] ++ first_occurrences (q :: map fst fi) (map fst l)).
      rewrite named_app. f_equal. f_equal.
      apply first_occurrences_ext. intros x.
      rewrite get_existsb, (get_create fi q x _ G).
      cbn [existsb]. rewrite get_existsb, (String.eqb_sym x q).
      destruct (String.eqb q x); reflexivity.
Qed.

(** X5.  The report lists every path met in the sample exactly once, in
    the enumeration order of a JavaScript object: no path comes after one
    it goes before (the paths that are array indices come first, in
    ascending order), and the paths that are not array indices appear in
    the order in which they were first met in the sample. *)
Theorem report_fields_order (params : GetSchemaParams)
  (samples : list value) (report : value) :
  samples <> [] ->
  getSchema params samples = Ok report ->
  exists fields,
    prop report "fields" = Some (VObj fields)
    /\ NoDup (map fst fields)
    /\ (forall path,
          In path (map fst fields) <-> In path (map fst (all_visits samples)))
    /\ enumeration_order (map fst fields)
    /\ named (map fst fields)
       = named (first_occurrences [] (map fst (all_visits samples))).
Proof.
  intros Hne H.
  destruct (getSchema_with_Ok _ _ _ _ Hne H) as (fi & _ & Hfi & ->).
  destruct (fieldInfo_spec _ _ Hfi) as (_ & N & Hinh & K).
  pose proof (fold_visit_enumeration_order _ _ _ Hfi (Logic.I : enumeration_order [])) as O.
  assert (Hschema : schema_with Num.div (List.length samples) fi
                    = map (fun kv => (fst kv,
                                      public_view (List.length samples) (snd kv)))
                        fi).
  { unfold schema_with.
    apply (rebuild_in_place
             (fun kv => public_view (List.length samples) (snd kv)) fi []);
      [exact N|exact O|].
    rewrite Forall_forall in *. intros kv Hkv Heq.
    specialize (Hinh (fst kv) (in_map fst _ _ Hkv)). rewrite Heq in Hinh.
    discriminate. }
  assert (Hkeys : map fst (schema_with Num.div (List.length samples) fi)
                  = map fst fi).
  { rewrite Hschema, map_map. reflexivity. }
  eexists. split; [reflexivity|]. rewrite Hkeys.
  split; [exact N|]. split; [exact K|]. split; [exact O|].
  exact (fold_visit_named _ _ _ Hfi).
Qed.

Lemma report_fields_order_witness :
  [doc2; doc1] <> []
  /\ getSchema e2e_params [doc2; doc1]
     = Ok (match getSchema e2e_params [doc2; doc1] with
           | Ok r => r
           | Throw _ => VUndefined
           end)
  /\ exists fields,
       prop (match getSchema e2e_params [doc2; doc1] with
             | Ok r => r
             | Throw _ => VUndefined
             end) "fields" = Some (VObj fields)
       /\ NoDup (map fst fields).
Proof.
  assert (H1 : [doc2; doc1] <> []) by discriminate.
  assert (H2 : getSchema e2e_params [doc2; doc1]
     = Ok (match getSchema e2e_params [doc2; doc1] with
           | Ok r => r
           | Throw _ => VUndefined
           end)) by (vm_compute; reflexivity).
  split; [exact H1|]. split; [exact H2|].
  destruct (report_fields_order e2e_params _ _ H1 H2) as (fields & Hf & Hn & _).
  exists fields. split; assumption.
Defined.

(** ** A field present in every document *)

Section Binary64Exact.

Local Open Scope Z_scope.

Local Abbreviation fexp := (SpecFloat.fexp Num.prec Num.emax).

(** A representable value is rounded to itself. *)
Lemma binary_round_aux_representable (mx ex M E : Z) :
  0 < M < 2 ^ 53 -> -1074 <= E <= 971 -> ex <= E ->
  mx = M * 2 ^ (E - ex) ->
  exists m e,
    binary_round_aux Num.prec Num.emax false mx ex loc_Exact
    = S754_finite false m e
    /\ e <= E /\ Zpos m = M * 2 ^ (E - e).
Proof.
  intros HM HE Hex Hmx.
  assert (Hpos : 0 <= mx).
  { rewrite Hmx. apply Z.mul_nonneg_nonneg; [lia|].
    apply Z.pow_nonneg. lia. }
  assert (Hexact : forall m e e',
            e <= e' -> e' <= E -> m = M * 2 ^ (E - e) ->
            m / 2 ^ (e' - e) = M * 2 ^ (E - e')
            /\ m mod 2 ^ (e' - e) = 0).
  { intros m e e' H1 H2 ->.
    replace (M * 2 ^ (E - e)) with (M * 2 ^ (E - e') * 2 ^ (e' - e)).
    - assert (0 < 2 ^ (e' - e)) by (apply Z.pow_pos_nonneg; lia).
      rewrite Z.div_mul, Z.mod_mul by lia. auto.
    - rewrite <- Z.mul_assoc, <- Z.pow_add_r by lia. do 2 f_equal. lia. }
  unfold binary_round_aux.
  destruct (shr_fexp_spec mx ex loc_Exact Hpos) as (mrs1 & Heq1 & Hm1 & Hx1).
  rewrite Heq1.
  destruct (shift_le mx ex M E Hpos Hex ltac:(lia) HM ltac:(lia))
    as (He1 & _).
  set (e1 := Z.max ex (fexp (Zdigits2 mx + ex))) in *.
  destruct (Hexact mx ex e1 ltac:(unfold e1; lia) He1 Hmx) as [D1 R1].
  rewrite (Hx1 eq_refl R1). cbn [round_nearest_even].
  rewrite D1 in Hm1.
  assert (Hm1pos : 0 < shr_m mrs1).
  { rewrite Hm1. apply Z.mul_pos_pos; [lia|].
    apply Z.pow_pos_nonneg; lia. }
  destruct (shr_fexp_spec (shr_m mrs1) e1 loc_Exact ltac:(lia))
    as (mrs3 & Heq3 & Hm3 & _).
  rewrite Heq3.
  destruct (shift_le (shr_m mrs1) e1 M E ltac:(lia) He1 ltac:(lia) HM
              ltac:(lia)) as (He3 & _).
  set (e3 := Z.max e1 (fexp (Zdigits2 (shr_m mrs1) + e1))) in *.
  destruct (Hexact (shr_m mrs1) e1 e3 ltac:(unfold e3; lia) He3 Hm1)
    as [D3 _].
  rewrite D3 in Hm3.
  assert (Hm3pos : 0 < shr_m mrs3).
  { rewrite Hm3. apply Z.mul_pos_pos; [lia|].
    apply Z.pow_pos_nonneg; lia. }
  destruct (shr_m mrs3) as [|m|m] eqn:E3; try lia.
  exists m, e3.
  replace (e3 <=? Num.emax - Num.prec) with true
    by (symmetry; apply Z.leb_le; unfold Num.emax, Num.prec; lia).
  auto.
Qed.

Lemma div_eucl_exact (a b : Z) : b <> 0 -> Z.div_eucl (a * b) b = (a, 0).
Proof.
  intros Hb. pose proof (Z.div_mul a b Hb) as Hd.
  pose proof (Z.mod_mul a b Hb) as Hm.
  unfold Z.div, Z.modulo in *.
  destruct (Z.div_eucl (a * b) b) as [q r]. simpl in *. congruence.
Qed.

Lemma percentage_all (n : nat) :
  (0 < n)%nat -> Z.of_nat n < 2 ^ 53 ->
  percentage n n = Num.of_Z 100.
Proof.
  intros Hn Hlt. unfold percentage, percentage_with, Num.of_nat.
  destruct (of_Z_finite (Z.of_nat n) ltac:(lia))
    as (mn & en & -> & Hen & Hmn & Hdn).
  unfold Num.div, SFdiv, SFdiv_core_binary. rewrite Hdn.
  change (xorb false false) with false.
  assert (He' : Z.min (fexp (53 + en - (53 + en))) (en - en) = -53)
    by (rewrite fexp_eq; lia).
  rewrite He'. replace (en - en - -53) with 53 by lia.
  cbv iota. rewrite Z.shiftl_mul_pow2 by lia.
  rewrite (Z.mul_comm (Zpos mn)), div_eucl_exact by lia.
  rewrite new_location_zero.
  assert (Hone : 0 < 1 < 2 ^ 53) by (split; reflexivity).
  destruct (binary_round_aux_representable (2 ^ 53) (-53) 1 0 Hone
              ltac:(lia) ltac:(lia) eq_refl) as (m & e & -> & He & Hm).
  change (Num.of_Z 100) with (S754_finite false 7036874417766400 (-46)).
  unfold Num.mul, SFmul. change (xorb false false) with false.
  assert (HM : 0 < 7036874417766400 < 2 ^ 53) by (split; reflexivity).
  destruct (binary_round_aux_representable
              (Zpos (m * 7036874417766400)) (e + -46) 7036874417766400 (-46)
              HM ltac:(lia) ltac:(lia)) as (m' & e' & -> & He1 & Hm').
  { rewrite Pos2Z.inj_mul, Hm, Z.mul_1_l, Z.sub_0_l.
    replace (-46 - (e + -46)) with (- e) by lia. lia. }
  unfold Num.Math_round.
  replace (0 <=? e') with false by (symmetry; apply Z.leb_gt; lia).
  cbn [cond_Zopp].
  set (P := 2 ^ (- e')).
  assert (HP : 0 < P) by (apply Z.pow_pos_nonneg; lia).
  assert (Hm100 : Zpos m' = 100 * P).
  { rewrite Hm'. unfold P.
    replace (- e') with ((-46 - e') + 46) by lia.
    rewrite Z.pow_add_r by lia. change (2 ^ 46) with 70368744177664. lia. }
  assert (H2 : 2 ^ (1 - e') = 2 * P).
  { unfold P. replace (1 - e') with (Z.succ (- e')) by lia.
    now rewrite Z.pow_succ_r by lia. }
  rewrite H2, Hm100.
  replace (2 * (100 * P) + P) with (201 * P) by lia.
  rewrite Z.div_mul_cancel_r by lia.
  reflexivity.
Qed.

End Binary64Exact.

(** X6.  In a sample of fewer than 2^53 mappings with distinct, non-empty,
    dot-free keys, a path that occurs in every document is reported with
    frequency [n/n] and percentage 100, [n] being the number of sampled
    documents. *)
Theorem field_in_every_document (params : GetSchemaParams)
  (samples : list value) (report : value) (path : string) (view : value) :
  (Z.of_nat (List.length samples) < 2 ^ 53)%Z ->
  (forall doc, In doc samples ->
     descends doc = true /\ plain_keys doc /\ has_path path doc = true) ->
  getSchema params samples = Ok report ->
  report_field report path = Some view ->
  prop view "frequency"
  = Some (VStr (Num.string_of_nat (List.length samples) ++ "/"
                ++ Num.string_of_nat (List.length samples)))
  /\ prop view "percentage" = Some (VNum (Num.of_Z 100)).
Proof.
  intros Hlen Hdocs H Hview.
  destruct (report_field_Some _ _ _ _ _ H Hview) as (Hne & _ & ->).
  assert (Hcount : List.length (values_at path (all_visits samples))
                   = List.length samples).
  { rewrite presence_counts_docs.
    - f_equal. apply forallb_filter_id. apply forallb_forall.
      intros doc Hdoc. now apply Hdocs.
    - intros doc Hdoc. destruct (Hdocs doc Hdoc) as (D & P & _).
      now apply plain_keys_NoDup. }
  unfold public_view, public_view_with.
  cbn [prop get String.eqb Ascii.eqb Bool.eqb].
  rewrite count_observe_all, Hcount. cbn [count new_record Nat.add].
  split; [reflexivity|].
  fold (percentage (List.length samples) (List.length samples)).
  rewrite percentage_all; [reflexivity| |exact Hlen].
  destruct samples; [contradiction|simpl; lia].
Qed.

Lemma field_in_every_document_witness :
  (Z.of_nat (List.length [doc1; doc2]) < 2 ^ 53)%Z
  /\ (forall doc, In doc [doc1; doc2] ->
        descends doc = true /\ plain_keys doc /\ has_path "name" doc = true)
  /\ getSchema e2e_params [doc1; doc2] = Ok e2e_report
  /\ report_field e2e_report "name"
     = Some (VObj [ ("types", VArr [VStr "string"; VStr "number"]);
                    ("examples", VArr [VStr "Al"; VNum (Num.of_Z 42)]);
                    ("frequency", VStr "2/2");
                    ("percentage", VNum (Num.of_Z 100)) ])
  /\ prop (VObj [ ("types", VArr [VStr "string"; VStr "number"]);
                  ("examples", VArr [VStr "Al"; VNum (Num.of_Z 42)]);
                  ("frequency", VStr "2/2");
                  ("percentage", VNum (Num.of_Z 100)) ]) "percentage"
     = Some (VNum (Num.of_Z 100)).
Proof.
  assert (H1 : (Z.of_nat (List.length [doc1; doc2]) < 2 ^ 53)%Z)
    by reflexivity.
  assert (H2 : forall doc, In doc [doc1; doc2] ->
      descends doc = true /\ plain_keys doc /\ has_path "name" doc = true).
  { intros doc [<-|[<-|[]]]; (split; [reflexivity|]);
      (split; [|reflexivity]); simpl;
      (split; [repeat (constructor; [simpl; intuition discriminate|]);
               constructor|tauto]). }
  assert (H3 : getSchema e2e_params [doc1; doc2] = Ok e2e_report)
    by (vm_compute; reflexivity).
  assert (H4 : report_field e2e_report "name"
     = Some (VObj [ ("types", VArr [VStr "string"; VStr "number"]);
                    ("examples", VArr [VStr "Al"; VNum (Num.of_Z 42)]);
                    ("frequency", VStr "2/2");
                    ("percentage", VNum (Num.of_Z 100)) ]))
    by (vm_compute; reflexivity).
  split; [exact H1|]. split; [exact H2|]. split; [exact H3|].
  split; [exact H4|].
  exact (proj2 (field_in_every_document e2e_params [doc1; doc2] e2e_report
                  "name" _ H1 H2 H3 H4)).
Defined.

(** ** Identifier coercion: what is kept, what is made *)

Section CoercionFacts.

Variable ObjectId_isValid : string -> bool.

Local Abbreviation convert := (Coercion.convertToObjectIds ObjectId_isValid).
Local Abbreviation entry := (Coercion.convert_entry ObjectId_isValid).
Local Abbreviation coerce := (Coercion.coerce_element ObjectId_isValid).

Lemma convert_VObj (props : list (string * value)) :
  convert (VObj props)
  = VObj (fold_left (fun acc kv => assign acc (fst kv) (entry (fst kv) (snd kv)))
            props []).
Proof.
  simpl. f_equal.
  match goal with
  | |- ?F props [] = _ =>
      assert (Hgen : forall l acc,
                F l acc
                = fold_left
                    (fun acc kv => assign acc (fst kv) (entry (fst kv) (snd kv)))
                    l acc)
  end.
  { induction l as [|[k v] l IH]; intros acc; [reflexivity|].
    exact (IH (assign acc k (entry k v))). }
  apply Hgen.
Qed.

Lemma convert_VArr (elems : list value) :
  convert (VArr elems) = VArr (map convert elems).
Proof. reflexivity. Qed.

Lemma fold_assign_get {A B : Type} (f : string * B -> A)
  (l : list (string * B)) (k : string) :
  forall acc,
    NoDup (map fst l) ->
    get (fold_left (fun acc kv => assign acc (fst kv) (f kv)) l acc) k
    = if String.eqb k "__proto__" then get acc k
      else match get l k with
           | Some b => Some (f (k, b))
           | None => get acc k
           end.
Proof.
  induction l as [|[k0 b0] l IH]; intros acc Hnd; simpl.
  - now destruct (String.eqb k "__proto__").
  - inversion Hnd as [|? ? Hk0 Hnd']; subst. rewrite (IH _ Hnd').
    destruct (String.eqb k "__proto__") eqn:P.
    + apply String.eqb_eq in P. subst k. unfold assign.
      destruct (String.eqb k0 "__proto__") eqn:P0; [reflexivity|].
      rewrite get_define, P0. reflexivity.
    + destruct (String.eqb k0 k) eqn:E.
      * apply String.eqb_eq in E. subst k0.
        assert (get l k = None) as -> by now apply get_None.
        unfold assign. rewrite P, get_define, String.eqb_refl. reflexivity.
      * destruct (get l k); [reflexivity|]. unfold assign.
        destruct (String.eqb k0 "__proto__"); [reflexivity|].
        now rewrite get_define, E.
Qed.

(** X7.  Converting an object keeps its keys: every property other than
    [__proto__] is present in the result exactly when it is in the
    argument, holding the conversion of the argument's value (the plain
    recursive conversion under a key that is not id-like); a property
    named [__proto__] is dropped. *)
Theorem converted_object_properties (props : list (string * value))
  (k : string) :
  NoDup (map fst props) ->
  (k <> "__proto__" ->
   prop (convert (VObj props)) k = option_map (entry k) (get props k))
  /\ (k <> "__proto__" -> Coercion.id_key k = false ->
      prop (convert (VObj props)) k = option_map convert (get props k))
  /\ prop (convert (VObj props)) "__proto__" = None.
Proof.
  intros Hnd. rewrite convert_VObj. cbn [prop].
  assert (Hk : k <> "__proto__" ->
               get (fold_left
                      (fun acc kv => assign acc (fst kv) (entry (fst kv) (snd kv)))
                      props []) k
               = option_map (entry k) (get props k)).
  { intros Hne.
    rewrite (fold_assign_get (fun kv => entry (fst kv) (snd kv)) props k [] Hnd).
    apply String.eqb_neq in Hne. rewrite Hne.
    destruct (get props k); reflexivity. }
  split; [exact Hk|]. split.
  - intros Hne Hid. rewrite (Hk Hne).
    destruct (get props k) as [v|]; [|reflexivity]. simpl.
    unfold Coercion.convert_entry. now rewrite Hid.
  - rewrite (fold_assign_get (fun kv => entry (fst kv) (snd kv))
               props "__proto__" [] Hnd).
    reflexivity.
Qed.

(** *** Values in which there is nothing to convert *)

Lemma coerce_passes (v : value) :
  Coercion.passes_through ObjectId_isValid v -> coerce v = v.
Proof. intros H. inversion H; subst; simpl; try reflexivity. now rewrite H0. Qed.

Lemma map_id_on {A : Type} (f : A -> A) (l : list A) :
  Forall (fun x => f x = x) l -> map f l = l.
Proof. induction 1; simpl; congruence. Qed.

Lemma passes_through_arr (elems : list value) :
  Coercion.passes_through ObjectId_isValid (VArr elems) ->
  Forall (Coercion.passes_through ObjectId_isValid) elems.
Proof. now inversion 1. Qed.

(** X8.  A value in which there is nothing to convert is returned
    structurally unchanged: no [Date] or [ObjectId] instance, no string
    the driver accepts, objects with distinct keys in enumeration order
    and no [__proto__] key, and no [$in] beside other properties under
    an id-like key. *)
Theorem nothing_to_convert_unchanged (v : value) :
  Coercion.passes_through ObjectId_isValid v -> convert v = v.
Proof.
  induction v as [| | | | |s| | |elems IH|props IH] using value_ind;
    intros H; try (inversion H; fail).
  - reflexivity.
  - reflexivity.
  - now destruct b.
  - now destruct x.
  - now destruct z.
  - inversion H; subst. rewrite convert_string.
    now replace (ObjectId_isValid s) with false.
  - rewrite convert_VArr. f_equal. apply map_id_on.
    apply passes_through_arr in H. rewrite Forall_forall in *. auto.
  - inversion H as [| | | | | | |? Hnd Hord Hproto Hvals Hin]; subst.
    rewrite convert_VObj.
    pose proof (rebuild_in_place (fun kv => entry (fst kv) (snd kv)) props []
                  Hnd Hord Hproto) as R.
    cbn [map app] in R. rewrite R. f_equal. rewrite <- (map_id props) at 2. apply map_ext_in.
    intros [k x] Hkx. simpl. f_equal.
    rewrite Forall_forall in *.
    specialize (IH _ Hkx (Hvals _ Hkx)). specialize (Hvals _ Hkx).
    specialize (Hin _ Hkx). simpl in *.
    unfold Coercion.convert_entry.
    destruct (Coercion.id_key k); [|exact IH].
    specialize (Hin eq_refl).
    destruct x as [| | | | |s| | |vs|ps]; try exact IH.
    + inversion Hvals; subst.
      replace (ObjectId_isValid s) with false. exact IH.
    + f_equal. apply map_id_on. apply passes_through_arr in Hvals.
      eapply Forall_impl; [|exact Hvals]. apply coerce_passes.
    + unfold Coercion.has_in, Coercion.get_in. cbn [prop].
      destruct (get ps "$in") as [y|] eqn:G; [|exact IH].
      rewrite (Hin ps y eq_refl G) in *. do 3 f_equal.
      inversion Hvals as [| | | | | | |? _ _ _ Hy _]; subst.
      inversion Hy as [|? ? Hy' _]; subst. simpl in Hy'.
      destruct y; try reflexivity.
      f_equal. apply map_id_on. apply passes_through_arr in Hy'.
      eapply Forall_impl; [|exact Hy']. apply coerce_passes.
Qed.

(** *** Where identifiers come from *)

Lemma overwrite_In {A : Type} (o : list (string * A)) (k : string) (a : A)
  (e : string * A) :
  In e (overwrite o k a) -> e = (k, a) \/ In e o.
Proof.
  induction o as [|[k0 a0] o IH]; simpl; [tauto|].
  destruct (String.eqb k0 k) eqn:E; simpl.
  - apply String.eqb_eq in E. subst. intros [H|H]; auto.
  - intros [H|H]; [tauto|]. destruct (IH H); tauto.
Qed.

Lemma create_In {A : Type} (o : list (string * A)) (k : string) (a : A)
  (e : string * A) :
  In e (create o k a) -> e = (k, a) \/ In e o.
Proof.
  induction o as [|[k0 a0] o IH]; simpl; [intros [H|[]]; auto|].
  destruct (goes_before k k0); simpl; [intros [H|H]; auto|].
  intros [H|H]; [tauto|]. destruct (IH H); tauto.
Qed.

Lemma assign_In {A : Type} (o : list (string * A)) (k : string) (a : A)
  (e : string * A) :
  In e (assign o k a) -> e = (k, a) \/ In e o.
Proof.
  unfold assign, define. destruct (String.eqb k "__proto__"); [tauto|].
  destruct (get o k); [apply overwrite_In|apply create_In].
Qed.

Lemma fold_assign_In {A B : Type} (f : string * B -> A)
  (l : list (string * B)) (e : string * A) :
  forall acc,
    In e (fold_left (fun acc kv => assign acc (fst kv) (f kv)) l acc) ->
    In e acc \/ exists b, In (fst e, b) l /\ snd e = f (fst e, b).
Proof.
  induction l as [|[k0 b0] l IH]; intros acc; simpl; [tauto|].
  intros H. apply IH in H as [H|(b & Hb & Hf)].
  - apply assign_In in H as [->|H]; [|tauto].
    right. exists b0. simpl. tauto.
  - right. exists b. tauto.
Qed.

Lemma bytes_numbers (id : string) (kv : string * value) :
  In kv (bytes_entries id) -> exists x, snd kv = VNum x.
Proof.
  unfold bytes_entries. generalize 0 as i.
  induction (fromHex id) as [|b l IH]; intros i; simpl; [tauto|].
  intros [<-|H]; [simpl; eauto | eauto].
Qed.

(** The conversion of an identifier holds its bytes and no identifier. *)
Lemma converted_identifier_holds_none (id s : string) :
  ~ Coercion.occurs (VObjectId s) (convert (VObjectId id)).
Proof.
  cbn [Coercion.convertToObjectIds falsy].
  change (assign [] "buffer" ?v) with [("buffer", v)].
  inversion 1 as [| |? k y Hky Hocc]; subst.
  destruct Hky as [Hky|[]]. injection Hky as <- <-.
  inversion Hocc as [| |? k' y' Hky' Hocc']; subst.
  apply (fold_assign_In snd) in Hky' as [[]|(b & Hb & Hy)].
  cbn [fst snd] in Hb, Hy. subst b.
  destruct (bytes_numbers _ _ Hb) as [x Hx]. cbn [snd] in Hx. subst y'.
  inversion Hocc'.
Qed.

Lemma occurs_id_inv (s s0 : string) :
  Coercion.occurs (VObjectId s) (VObjectId s0) -> s = s0.
Proof. inversion 1. reflexivity. Qed.

Lemma coerce_occurs (s : string) (e : value) :
  Coercion.occurs (VObjectId s) (coerce e) ->
  Coercion.occurs (VObjectId s) e
  \/ (ObjectId_isValid s = true /\ Coercion.occurs (VStr s) e).
Proof.
  destruct e; simpl; try tauto.
  destruct (ObjectId_isValid s0) eqn:V; [|tauto].
  intros H. apply occurs_id_inv in H. subst. right.
  split; [exact V|constructor].
Qed.

Lemma coerced_array_occurs (s : string) (vs : list value) :
  Coercion.occurs (VObjectId s) (VArr (map coerce vs)) ->
  Coercion.occurs (VObjectId s) (VArr vs)
  \/ (ObjectId_isValid s = true /\ Coercion.occurs (VStr s) (VArr vs)).
Proof.
  inversion 1 as [|elems x Hx Hocc|]; subst.
  apply in_map_iff in Hx as (e & <- & He).
  destruct (coerce_occurs s e Hocc) as [Ho|[Hv Ho]].
  - left. eapply Coercion.occurs_element; eauto.
  - right. split; [exact Hv|]. eapply Coercion.occurs_element; eauto.
Qed.

Lemma entry_occurs (k : string) (b : value) (s : string) :
  Coercion.made_from_valid ObjectId_isValid b ->
  Coercion.occurs (VObjectId s) (entry k b) ->
  Coercion.occurs (VObjectId s) b
  \/ (ObjectId_isValid s = true /\ Coercion.occurs (VStr s) b).
Proof.
  intros IH. unfold Coercion.convert_entry.
  destruct (Coercion.id_key k); [|apply IH].
  destruct b as [| | | | |s0| | |vs|ps]; try apply IH.
  - destruct (ObjectId_isValid s0) eqn:V; [|apply IH].
    intros H. apply occurs_id_inv in H. subst. right.
    split; [exact V|constructor].
  - apply coerced_array_occurs.
  - unfold Coercion.has_in, Coercion.get_in. cbn [prop].
    destruct (get ps "$in") as [y|] eqn:G; [|apply IH].
    apply get_In in G.
    inversion 1 as [|? ? ? ?|props k' x Hx Hocc]; subst.
    destruct Hx as [Hx|[]]. injection Hx as <- <-.
    assert (Hy : Coercion.occurs (VObjectId s) y
                 \/ (ObjectId_isValid s = true
                     /\ Coercion.occurs (VStr s) y)).
    { destruct y; try (left; exact Hocc).
      now apply coerced_array_occurs. }
    destruct Hy as [Ho|[Hv Ho]].
    + left. eapply Coercion.occurs_property; eauto.
    + right. split; [exact Hv|]. eapply Coercion.occurs_property; eauto.
Qed.

(** X9.  Every identifier in the result of a conversion was already in
    the argument or was made from a string of the argument that the
    driver accepts: [new ObjectId] is never applied to a string that
    [ObjectId.isValid] rejects. *)
Theorem identifiers_from_valid_strings (v : value) (s : string) :
  Coercion.occurs (VObjectId s) (convert v) ->
  Coercion.occurs (VObjectId s) v
  \/ (ObjectId_isValid s = true /\ Coercion.occurs (VStr s) v).
Proof.
  revert s. change (Coercion.made_from_valid ObjectId_isValid v).
  induction v as [| | | | |s0| | |elems IH|props IH] using value_ind;
    intros s.
  - tauto.
  - tauto.
  - destruct b; tauto.
  - destruct x; tauto.
  - destruct z; tauto.
  - rewrite convert_string.
    destruct (ObjectId_isValid s0 && (String.length s0 =? 24)%nat) eqn:V;
      [|tauto].
    intros H. apply occurs_id_inv in H. subst. right.
    apply andb_prop in V as [V _]. split; [exact V|constructor].
  - simpl. inversion 1 as [| |? ? ? Hx _]; subst. destruct Hx.
  - intros H. exfalso. revert H. apply converted_identifier_holds_none.
  - rewrite convert_VArr.
    inversion 1 as [|? x Hx Hocc|]; subst.
    apply in_map_iff in Hx as (e & <- & He).
    rewrite Forall_forall in IH.
    destruct (IH e He s Hocc) as [Ho|[Hv Ho]].
    + left. eapply Coercion.occurs_element; eauto.
    + right. split; [exact Hv|]. eapply Coercion.occurs_element; eauto.
  - rewrite convert_VObj.
    inversion 1 as [| |? k y Hky Hocc]; subst.
    apply fold_assign_In in Hky as [[]|(b & Hb & Hy)]. simpl in Hb, Hy.
    subst y. rewrite Forall_forall in IH.
    destruct (entry_occurs k b s (IH (k, b) Hb) Hocc) as [Ho|[Hv Ho]].
    + left. eapply Coercion.occurs_property; eauto.
    + right. split; [exact Hv|]. eapply Coercion.occurs_property; eauto.
Qed.

End CoercionFacts.

Lemma converted_object_properties_witness :
  NoDup (map fst [("name", VStr "Al"); ("__proto__", VNull)])
  /\ prop (Coercion.convertToObjectIds (fun s => (String.length s =? 24)%nat)
             (VObj [("name", VStr "Al"); ("__proto__", VNull)]))
       "__proto__" = None.
Proof.
  assert (H : NoDup (map fst [("name", VStr "Al"); ("__proto__", VNull)])).
  { repeat (constructor; [simpl; intuition discriminate|]). constructor. }
  split; [exact H|].
  exact (proj2 (proj2 (converted_object_properties
                         (fun s => (String.length s =? 24)%nat) _ "name" H))).
Defined.

Lemma nothing_to_convert_unchanged_witness :
  Coercion.passes_through (fun s => (String.length s =? 24)%nat)
    (VObj [("name", VStr "Al"); ("age", VNum (Num.of_Z 42))])
  /\ Coercion.convertToObjectIds (fun s => (String.length s =? 24)%nat)
       (VObj [("name", VStr "Al"); ("age", VNum (Num.of_Z 42))])
     = VObj [("name", VStr "Al"); ("age", VNum (Num.of_Z 42))].
Proof.
  assert (H : Coercion.passes_through (fun s => (String.length s =? 24)%nat)
                (VObj [("name", VStr "Al"); ("age", VNum (Num.of_Z 42))])).
  { apply Coercion.pt_obj.
    - repeat (constructor; [simpl; intuition discriminate|]). constructor.
    - simpl. repeat split; repeat constructor.
    - repeat constructor; simpl; discriminate.
    - repeat (constructor; try reflexivity).
    - repeat constructor; simpl; discriminate. }
  split; [exact H|].
  exact (nothing_to_convert_unchanged _ _ H).
Defined.

Lemma identifiers_from_valid_strings_witness :
  Coercion.occurs (VObjectId "507f1f77bcf86cd799439011")
    (Coercion.convertToObjectIds (fun s => (String.length s =? 24)%nat)
       (VObj [("_id", VStr "507f1f77bcf86cd799439011")]))
  /\ (Coercion.occurs (VObjectId "507f1f77bcf86cd799439011")
        (VObj [("_id", VStr "507f1f77bcf86cd799439011")])
      \/ ((String.length "507f1f77bcf86cd799439011" =? 24)%nat = true
          /\ Coercion.occurs (VStr "507f1f77bcf86cd799439011")
               (VObj [("_id", VStr "507f1f77bcf86cd799439011")]))).
Proof.
  assert (H : Coercion.occurs (VObjectId "507f1f77bcf86cd799439011")
    (Coercion.convertToObjectIds (fun s => (String.length s =? 24)%nat)
       (VObj [("_id", VStr "507f1f77bcf86cd799439011")]))).
  { apply (Coercion.occurs_property _ _ "_id"
             (VObjectId "507f1f77bcf86cd799439011"));
      [simpl; auto|constructor]. }
  split; [exact H|].
  exact (identifiers_from_valid_strings
           (fun s => (String.length s =? 24)%nat) _ _ H).
Defined.

(** ** The server *)

Section ServerFacts.

Import Server.

Variable env : environment.
Variable zod : validators.

Local Abbreviation connect := (Server.connect env).
Local Abbreviation ensureConnected := (Server.ensureConnected env).
Local Abbreviation dispatch := (Server.dispatch env zod).
Local Abbreviation call_tool := (Server.call_tool env zod).
Local Abbreviation step := (Server.step env zod).
Local Abbreviation run := (Server.run env zod).
Local Abbreviation consistent := (Server.consistent env).
Local Abbreviation databases_opened := (Server.databases_opened env).

Lemma last_client_app (tr tr' : list event) :
  last_client (tr ++ tr')
  = match last_client tr' with
    | Some c => Some c
    | None => last_client tr
    end.
Proof.
  induction tr as [|e tr IH].
  - change ([] ++ tr') with tr'. destruct (last_client tr'); reflexivity.
  - change ((e :: tr) ++ tr') with (e :: (tr ++ tr')).
    cbn [last_client]. rewrite IH. destruct (last_client tr'); reflexivity.
Qed.

Lemma databases_opened_app (tr tr' : list event) :
  databases_opened (tr ++ tr')
  = (databases_opened tr + databases_opened tr')%nat.
Proof.
  induction tr as [|e tr IH]; [reflexivity|].
  change ((e :: tr) ++ tr') with (e :: (tr ++ tr')).
  cbn [Server.databases_opened].
  destruct e; try exact IH.
  destruct (db_error env name); [exact IH | rewrite IH; reflexivity].
Qed.

Lemma clients_created_app (tr tr' : list event) :
  clients_created (tr ++ tr')
  = (clients_created tr + clients_created tr')%nat.
Proof.
  induction tr as [|e tr IH]; [reflexivity|].
  change ((e :: tr) ++ tr') with (e :: (tr ++ tr')).
  cbn [clients_created].
  destruct e; try exact IH. rewrite IH. reflexivity.
Qed.

Lemma consistent_initial : consistent initial.
Proof. split; reflexivity. Qed.

(** [connect]: what it returns and what it leaves. *)
Lemma connect_spec (w : world) (o : outcome unit) (w' : world) :
  consistent w ->
  connect w = (o, w') ->
  consistent w'
  /\ match o with
     | Returned _ => db (server w') <> None
     | Raised e =>
         db (server w') = db (server w)
         /\ exists text, e = McpError InternalError text
     end.
Proof.
  intros W E. pose proof W as [Hc Hd]. unfold Server.connect in E.
  destruct (db (server w)) as [d0|] eqn:Ed.
  - destruct Hd as (Hm & _). rewrite Hm in E. injection E as <- <-.
    split; [exact W|]. rewrite Ed. discriminate.
  - destruct (mongoClient (server w)) as [c0|] eqn:Ec.
    all: destruct (MONGODB_URI env) as [[|a u]|];
      [ injection E as <- <-; split; [exact W|]; split; [exact Ed | eauto]
      | 
      | injection E as <- <-; split; [exact W|]; split; [exact Ed | eauto] ].
    all: destruct (construct_error env (String a u));
      [ injection E as <- <-; split; [exact W|]; split; [exact Ed | eauto] |].
    all: destruct (connect_error env (List.length (trace w)));
      [ injection E as <- <-; cbn [server trace db mongoClient];
        split; [|split; [reflexivity | eauto]];
        split; cbn [server trace db mongoClient];
        [ rewrite last_client_app; reflexivity
        | rewrite databases_opened_app, Hd; reflexivity ] |].
    all: destruct (db_error env (MONGODB_DATABASE env)) eqn:Edb;
      injection E as <- <-; cbn [server trace db mongoClient].
    all: try (split; [|split; [reflexivity | eauto]]).
    all: try (split; [|discriminate]).
    all: split; cbn [server trace db mongoClient db_client db_name].
    all: try (rewrite !last_client_app; reflexivity).
    all: repeat split.
    all: rewrite !databases_opened_app, Hd;
      cbn [Server.databases_opened]; rewrite Edb; reflexivity.
Qed.

(** [ensureConnected]: the database it returns is there. *)
Lemma ensureConnected_spec (w : world) (o : outcome (option database))
    (w' : world) :
  consistent w ->
  ensureConnected w = (o, w') ->
  consistent w'
  /\ match o with
     | Returned r => exists d, r = Some d /\ db (server w') = Some d
     | Raised e =>
         db (server w') = db (server w)
         /\ exists text, e = McpError InternalError text
     end.
Proof.
  intros W E. unfold Server.ensureConnected in E.
  destruct (db (server w)) as [d|] eqn:Ed.
  - injection E as <- <-. split; [exact W|]. exists d. split; [reflexivity | exact Ed].
  - destruct (connect w) as [[u|e] w1] eqn:Ec;
      destruct (connect_spec w _ w1 W Ec) as [W1 H1];
      injection E as <- <-; (split; [exact W1|]).
    + destruct (db (server w1)) as [d|]; [|congruence].
      exists d. split; reflexivity.
    + rewrite Ed in H1. exact H1.
Qed.

(** The [switch]: a refusal leaves the world as it was, anything else
    follows exactly one operation. *)
Lemma dispatch_spec (d : database) (name : string) (args : value)
    (w : world) (o : outcome value) (w' : world) :
  dispatch d name args w = (o, w') ->
  match o with
  | Raised (McpError code text) =>
      w' = w
      /\ (In name tool_names -> code = InvalidParams)
      /\ (~ In name tool_names ->
          code = MethodNotFound /\ text = ("Unknown tool: " ++ name)%string)
  | _ =>
      In name tool_names
      /\ exists op,
           w' = asked d op w
           /\ (modifies op = true ->
               In name ["insertOne"; "updateOne"; "deleteOne"])
  end.
Proof.
  intros E. unfold Server.dispatch in E.
  repeat match type of E with
  | (if String.eqb ?n ?s then _ else _) = _ =>
      destruct (String.eqb_spec n s) as [->|?]
  end.
  all: unfold Server.documents, Server.perform, Server.rejected,
    Server.respond in E.
  all: repeat match type of E with
  | context [match ?x with _ => _ end] =>
      lazymatch x with
      | context [match _ with _ => _ end] => fail
      | _ => destruct x
      end
  end.
  all: injection E as <- <-.
  all: try (split; [reflexivity|]; split;
            [ intros _; reflexivity
            | intros N; exfalso; apply N; vm_compute; tauto ]).
  all: try (split; [vm_compute; tauto|]; eexists; split; [reflexivity|];
            cbn [modifies]; first [discriminate | intros _; vm_compute; tauto]).
  split; [reflexivity|]. split.
  - intros H. exfalso. vm_compute in H. intuition congruence.
  - intros _. split; reflexivity.
Qed.

Lemma consistent_asked (d : database) (op : operation) (w : world) :
  consistent w -> consistent (asked d op w).
Proof.
  intros [Hc Hd]. split; cbn [asked server trace].
  - rewrite last_client_app. exact Hc.
  - rewrite databases_opened_app, Nat.add_0_r. exact Hd.
Qed.

Lemma consistent_cleanup (w : world) :
  consistent w -> consistent (cleanup w).
Proof.
  intros W. pose proof W as [Hc Hd]. unfold cleanup.
  destruct (mongoClient (server w)) as [c|] eqn:Ec; [|exact W].
  split; cbn [server trace].
  - rewrite last_client_app, Ec. exact Hc.
  - rewrite databases_opened_app, Nat.add_0_r, Ec. exact Hd.
Qed.

(** A call: the connection, then the [switch]. *)
Lemma call_tool_spec (name : string) (args : value) (w : world)
    (o : outcome value) (w' : world) :
  consistent w ->
  call_tool name args w = (o, w') ->
  exists o1 w1,
    ensureConnected w = (o1, w1) /\ consistent w1
    /\ match o1 with
       | Raised e =>
           o = Raised e /\ w' = w1
           /\ exists text, e = McpError InternalError text
       | Returned r =>
           exists d, r = Some d /\ db (server w1) = Some d
                     /\ dispatch d name args w1 = (o, w')
       end.
Proof.
  intros W E. unfold Server.call_tool in E.
  destruct (ensureConnected w) as [[r|e] w1] eqn:E1;
    destruct (ensureConnected_spec w _ w1 W E1) as [W1 H1].
  - destruct H1 as (d & -> & Hd). exists (Returned (Some d)), w1.
    split; [reflexivity|]. split; [exact W1|]. exists d. auto.
  - injection E as <- <-. exists (Raised e), w1. destruct H1 as [_ H1].
    split; [reflexivity|]. split; [exact W1|]. auto.
Qed.

Lemma step_consistent (w : world) (a : action) :
  consistent w -> consistent (step w a).
Proof.
  intros W. destruct a as [name args|]; [|exact (consistent_cleanup w W)].
  unfold Server.step.
  destruct (call_tool name args w) as [o w'] eqn:E. cbn [snd].
  destruct (call_tool_spec name args w o w' W E) as (o1 & w1 & E1 & W1 & H).
  destruct o1 as [r|e].
  - destruct H as (d & _ & _ & D). pose proof (dispatch_spec d name args w1 o w' D) as S.
    destruct o as [v|[code text|text|]].
    + destruct S as (_ & op & -> & _). exact (consistent_asked d op w1 W1).
    + destruct S as (-> & _). exact W1.
    + destruct S as (_ & op & -> & _). exact (consistent_asked d op w1 W1).
    + destruct S as (_ & op & -> & _). exact (consistent_asked d op w1 W1).
  - destruct H as (_ & -> & _). exact W1.
Qed.

Lemma fold_step_consistent (actions : list action) (w : world) :
  consistent w -> consistent (fold_left step actions w).
Proof.
  revert w. induction actions as [|a actions IH]; intros w W; [exact W|].
  cbn [fold_left]. apply IH, step_consistent, W.
Qed.

Lemma run_consistent (actions : list action) : consistent (run actions).
Proof. apply fold_step_consistent, consistent_initial. Qed.

Lemma operations_app (tr tr' : list event) :
  operations (tr ++ tr') = operations tr ++ operations tr'.
Proof. apply filter_app. Qed.

(** Connecting asks no operation. *)
Lemma connect_operations (w : world) (o : outcome unit) (w' : world) :
  connect w = (o, w') -> operations (trace w') = operations (trace w).
Proof.
  unfold Server.connect. intros E.
  repeat match type of E with
  | context [match ?x with _ => _ end] =>
      lazymatch x with
      | context [match _ with _ => _ end] => fail
      | _ => destruct x
      end
  end.
  all: injection E as <- <-; cbn [trace]; rewrite ?operations_app;
    cbn [operations filter is_operation]; rewrite ?app_nil_r; reflexivity.
Qed.

Lemma ensureConnected_operations (w : world)
    (o : outcome (option database)) (w' : world) :
  ensureConnected w = (o, w') -> operations (trace w') = operations (trace w).
Proof.
  unfold Server.ensureConnected. intros E.
  destruct (db (server w)); [injection E as <- <-; reflexivity|].
  destruct (connect w) as [[u|e] w1] eqn:Ec; injection E as <- <-;
    exact (connect_operations w _ w1 Ec).
Qed.

(** Once the database is there, nothing changes the connection. *)
Lemma connected_step (w : world) (a : action) (d : database) :
  db (server w) = Some d ->
  server (step w a) = server w
  /\ clients_created (trace (step w a)) = clients_created (trace w).
Proof.
  intros Hd. destruct a as [name args|].
  - unfold Server.step, Server.call_tool, Server.ensureConnected.
    rewrite Hd.
    destruct (dispatch d name args w) as [o w'] eqn:D. cbn [snd].
    pose proof (dispatch_spec d name args w o w' D) as S.
    assert (w' = w \/ exists op, w' = asked d op w) as [->| [op ->]].
    { destruct o as [v|[code text|text|]].
      - destruct S as (_ & op & -> & _). eauto.
      - destruct S as (-> & _). auto.
      - destruct S as (_ & op & -> & _). eauto.
      - destruct S as (_ & op & -> & _). eauto. }
    + split; reflexivity.
    + split; [reflexivity|]. cbn [asked trace].
      rewrite clients_created_app. cbn [clients_created]. lia.
  - unfold Server.step, cleanup.
    destruct (mongoClient (server w)); [|split; reflexivity].
    split; [reflexivity|]. cbn [trace].
    rewrite clients_created_app. cbn [clients_created]. lia.
Qed.

Lemma connected_steps (actions : list action) (w : world) (d : database) :
  db (server w) = Some d ->
  server (fold_left step actions w) = server w
  /\ clients_created (trace (fold_left step actions w))
     = clients_created (trace w).
Proof.
  revert w. induction actions as [|a actions IH]; intros w Hd;
    [split; reflexivity|].
  cbn [fold_left].
  destruct (connected_step w a d Hd) as [Hs Hc].
  assert (Hd' : db (server (step w a)) = Some d) by (rewrite Hs; exact Hd).
  destruct (IH _ Hd') as [Hs' Hc'].
  split; [rewrite Hs'; exact Hs | rewrite Hc'; exact Hc].
Qed.

(** X10.  Whatever calls and clean-ups came before, [ensureConnected]
    never returns [null]: when it returns, the database it gives is the
    one kept in [this.db], it was taken from the client kept in
    [this.mongoClient], and it is the one [MONGODB_DATABASE] names.  So
    [db.collection] is never called on [null]. *)
Theorem ensureConnected_gives_database (actions : list action)
    (r : option database) (w' : world) :
  ensureConnected (run actions) = (Returned r, w') ->
  exists d,
    r = Some d
    /\ db (server w') = Some d
    /\ mongoClient (server w') = Some (db_client d)
    /\ db_name d = MONGODB_DATABASE env.
Proof.
  intros E.
  destruct (ensureConnected_spec _ _ _ (run_consistent actions) E)
    as [[_ W'] (d & -> & Hd)].
  exists d. rewrite Hd in W'. destruct W' as (Hm & Hn & _).
  repeat split; assumption.
Qed.

(** X11.  In any life of the server at most one database is opened, and
    once it is there no later call or clean-up replaces it or creates
    another client: every tool call works on the same database. *)
Theorem connected_once (actions : list action) :
  (databases_opened (trace (run actions)) <= 1)%nat
  /\ forall d, db (server (run actions)) = Some d ->
     forall more,
       server (run (actions ++ more)) = server (run actions)
       /\ clients_created (trace (run (actions ++ more)))
          = clients_created (trace (run actions)).
Proof.
  split.
  - destruct (run_consistent actions) as [_ H].
    destruct (db (server (run actions))); [destruct H as (_ & _ & ->)|]; lia.
  - intros d Hd more. unfold Server.run. rewrite fold_left_app.
    exact (connected_steps more _ d Hd).
Qed.

(** X12.  Without [MONGODB_URI] (unset or empty) the server never asks
    anything of the driver: every call, whatever the tool name and the
    arguments, fails with the [InternalError] of line 97 and leaves the
    server as it was created. *)
Theorem unconfigured_server_refuses (actions : list action) (name : string)
    (args : value) :
  MONGODB_URI env = None \/ MONGODB_URI env = Some EmptyString ->
  run actions = initial
  /\ call_tool name args (run actions)
     = (Raised (McpError InternalError
                  "MONGODB_URI environment variable is required"),
        initial).
Proof.
  intros H.
  assert (C : forall name args,
             call_tool name args initial
             = (Raised (McpError InternalError
                          "MONGODB_URI environment variable is required"),
                initial)).
  { intros n a. unfold Server.call_tool, Server.ensureConnected, Server.connect.
    cbn [initial server db mongoClient].
    destruct H as [-> | ->]; reflexivity. }
  assert (R : forall actions, fold_left step actions initial = initial).
  { intros l. induction l as [|a l IH]; [reflexivity|].
    cbn [fold_left].
    assert (S : step initial a = initial).
    { destruct a as [n a|]; [|reflexivity].
      unfold Server.step. rewrite C. reflexivity. }
    rewrite S. exact IH. }
  unfold Server.run. rewrite R. split; [reflexivity | apply C].
Qed.

(** X13.  A tool call asks at most one operation of the database.  When
    it is refused with an [McpError] (no connection, unknown tool, invalid
    parameters) it has asked none; with any other outcome it has asked
    exactly one, on the database kept in [this.db], and that operation is
    an insert, update or delete only for the tools [insertOne],
    [updateOne] and [deleteOne]. *)
Theorem one_operation_per_call (actions : list action) (name : string)
    (args : value) (o : outcome value) (w' : world) :
  call_tool name args (run actions) = (o, w') ->
  match o with
  | Raised (McpError _ _) =>
      operations (trace w') = operations (trace (run actions))
  | _ =>
      exists d op,
        db (server w') = Some d
        /\ operations (trace w')
           = operations (trace (run actions)) ++ [Operation d op]
        /\ (modifies op = true ->
            In name ["insertOne"; "updateOne"; "deleteOne"])
  end.
Proof.
  intros E.
  destruct (call_tool_spec name args _ o w' (run_consistent actions) E)
    as (o1 & w1 & E1 & W1 & H).
  pose proof (ensureConnected_operations _ _ _ E1) as Ops.
  destruct o1 as [r|e].
  - destruct H as (d & _ & Hd & D).
    pose proof (dispatch_spec d name args w1 o w' D) as S.
    assert (A : forall op, w' = asked d op w1 ->
                db (server w') = Some d
                /\ operations (trace w')
                   = operations (trace (run actions)) ++ [Operation d op]).
    { intros op ->. split; [exact Hd|]. cbn [asked trace].
      rewrite operations_app, Ops. reflexivity. }
    destruct o as [v|[code text|text|]].
    + destruct S as (_ & op & Hw & M). destruct (A op Hw). eauto.
    + destruct S as (-> & _). exact Ops.
    + destruct S as (_ & op & Hw & M). destruct (A op Hw). eauto.
    + destruct S as (_ & op & Hw & M). destruct (A op Hw). eauto.
  - destruct H as (-> & -> & text & ->). exact Ops.
Qed.

(** X14.  The tools listed are exactly the tools handled.  The ten names
    listed are distinct.  In any life of the server, a call is answered
    [MethodNotFound] only for a name that is not listed, and then with
    the message [Unknown tool: <name>]; a call with a name that is not
    listed is answered so once the database is at hand, having asked no
    operation, and with the [InternalError] of the connection when it is
    not, since the handler connects before it looks at the name. *)
Theorem listed_tools_are_the_handled (actions : list action) (name : string)
    (args : value) :
  NoDup tool_names
  /\ (forall text w',
        call_tool name args (run actions)
        = (Raised (McpError MethodNotFound text), w') ->
        ~ In name tool_names /\ text = ("Unknown tool: " ++ name)%string)
  /\ (~ In name tool_names ->
      match ensureConnected (run actions) with
      | (Returned _, w1) =>
          call_tool name args (run actions)
          = (Raised (McpError MethodNotFound ("Unknown tool: " ++ name)), w1)
      | (Raised e, w1) =>
          call_tool name args (run actions) = (Raised e, w1)
          /\ exists text, e = McpError InternalError text
      end).
Proof.
  split; [|split].
  - vm_compute. repeat constructor; cbn [In]; intuition discriminate.
  - intros text w' E.
    destruct (call_tool_spec name args _ _ w' (run_consistent actions) E)
      as (o1 & w1 & E1 & W1 & H).
    destruct o1 as [r|e].
    + destruct H as (d & _ & _ & D).
      pose proof (dispatch_spec d name args w1 _ w' D) as (_ & Hin & Hout).
      destruct (in_dec string_dec name tool_names) as [I|I].
      * specialize (Hin I). discriminate.
      * split; [exact I|]. exact (proj2 (Hout I)).
    + destruct H as (He & _ & text' & ->). discriminate.
  - intros Hout.
    destruct (ensureConnected (run actions)) as [[r|e] w1] eqn:E1;
      pose proof (ensureConnected_spec _ _ _ (run_consistent actions) E1)
        as [_ H1].
    + destruct H1 as (d & -> & _).
      unfold Server.call_tool. rewrite E1.
      destruct (dispatch d name args w1) as [o w'] eqn:D.
      pose proof (dispatch_spec d name args w1 o w' D) as S.
      destruct o as [v|[code t|t|]].
      * destruct S as [S _]. contradiction.
      * destruct S as (-> & _ & S). destruct (S Hout) as [-> ->]. reflexivity.
      * destruct S as [S _]. contradiction.
      * destruct S as [S _]. contradiction.
    + unfold Server.call_tool. rewrite E1. split; [reflexivity|].
      exact (proj2 H1).
Qed.

(** X15.  [cleanup] closes the client created last and nothing else; it
    does nothing when no client was created.  A client left by an earlier
    failed attempt is not closed by it. *)
Theorem cleanup_closes_last_client (actions : list action) :
  trace (cleanup (run actions))
  = trace (run actions)
    ++ match last_client (trace (run actions)) with
       | Some c => [ClientClose c]
       | None => []
       end.
Proof.
  destruct (run_consistent actions) as [Hc _]. unfold cleanup.
  rewrite <- Hc. destruct (mongoClient (server (run actions)));
    [reflexivity | rewrite app_nil_r; reflexivity].
Qed.

End ServerFacts.

(** X16.  What the tool list advertises agrees with what the call
    validates: for every listed tool, the schema its [case] parses the
    arguments with has the same keys in the same order, of the advertised
    types; the keys listed as [required] are exactly those that are
    neither optional nor defaulted; and every advertised default is the
    default the schema applies. *)
Theorem listed_schemas_agree (t : Server.tool) :
  In t Server.tools ->
  exists s,
    Server.case_schema (Server.tool_name t) = Some s
    /\ map Server.p_name (Server.properties t) = map Server.z_name s
    /\ map Server.p_type (Server.properties t)
       = map (fun f => Server.json_type (Server.z_type f)) s
    /\ match Server.required t with Some r => r | None => [] end
       = Server.mandatory s
    /\ Forall2 (fun p f => forall v, Server.p_default p = Some v ->
                                     Server.z_default f = Some v)
         (Server.properties t) s.
Proof.
  intros H. unfold Server.tools in H. cbn [In] in H.
  repeat (destruct H as [<- | H]); [..|contradiction];
    eexists; (split; [reflexivity|]);
    repeat (split; [reflexivity|]);
    repeat constructor; cbn [Server.p_default Server.z_default];
    intros v E; first [discriminate | exact E].
Qed.

Lemma ensureConnected_gives_database_witness :
  let w := Server.run reachable_deployment sample_validators
             [Server.Call "listCollections" (VObj [])] in
  let r := Server.ensureConnected reachable_deployment w in
  r = (Server.Returned (Server.db (Server.server (snd r))), snd r)
  /\ exists d,
       Server.db (Server.server (snd r)) = Some d
       /\ Server.db (Server.server (snd r)) = Some d
       /\ Server.mongoClient (Server.server (snd r))
          = Some (Server.db_client d)
       /\ Server.db_name d = Server.MONGODB_DATABASE reachable_deployment.
Proof.
  intros w r.
  assert (H : r = (Server.Returned (Server.db (Server.server (snd r))), snd r))
    by reflexivity.
  split; [exact H|].
  exact (ensureConnected_gives_database reachable_deployment sample_validators
           [Server.Call "listCollections" (VObj [])] _ _ H).
Defined.

Lemma unconfigured_server_refuses_witness :
  (Server.MONGODB_URI unconfigured_deployment = None
   \/ Server.MONGODB_URI unconfigured_deployment = Some EmptyString)
  /\ Server.run unconfigured_deployment sample_validators
       [Server.Call "find" (VObj [("collection", VStr "users")]);
        Server.Cleanup]
     = Server.initial
  /\ Server.call_tool unconfigured_deployment sample_validators
       "count" (VObj [("collection", VStr "users")])
       (Server.run unconfigured_deployment sample_validators
          [Server.Call "find" (VObj [("collection", VStr "users")]);
           Server.Cleanup])
     = (Server.Raised
          (Server.McpError Server.InternalError
             "MONGODB_URI environment variable is required"),
        Server.initial).
Proof.
  assert (H : Server.MONGODB_URI unconfigured_deployment = None
              \/ Server.MONGODB_URI unconfigured_deployment
                 = Some EmptyString)
    by (left; reflexivity).
  split; [exact H|].
  exact (unconfigured_server_refuses unconfigured_deployment sample_validators
           [Server.Call "find" (VObj [("collection", VStr "users")]);
            Server.Cleanup]
           "count" (VObj [("collection", VStr "users")]) H).
Defined.

Lemma one_operation_per_call_witness :
  let w := Server.run reachable_deployment sample_validators
             [Server.Call "find" (VObj [("collection", VStr "users")])] in
  let r := Server.call_tool reachable_deployment sample_validators
             "count" (VObj [("collection", VStr "users")]) w in
  r = (Server.respond reachable_deployment (VObj [("count", VNull)]), snd r)
  /\ exists d op,
       Server.db (Server.server (snd r)) = Some d
       /\ Server.operations (Server.trace (snd r))
          = Server.operations (Server.trace w) ++ [Server.Operation d op]
       /\ (Server.modifies op = true ->
           In "count" ["insertOne"; "updateOne"; "deleteOne"]).
Proof.
  intros w r.
  assert (H : r = (Server.respond reachable_deployment
                     (VObj [("count", VNull)]),
                   snd r))
    by reflexivity.
  split; [exact H|].
  exact (one_operation_per_call reachable_deployment sample_validators
           [Server.Call "find" (VObj [("collection", VStr "users")])]
           "count" (VObj [("collection", VStr "users")]) _ _ H).
Defined.

Lemma listed_schemas_agree_witness :
  In deleteOne_tool Server.tools
  /\ exists s,
       Server.case_schema "deleteOne" = Some s
       /\ ["collection"; "filter"] = map Server.z_name s
       /\ ["string"; "object"]
          = map (fun f => Server.json_type (Server.z_type f)) s
       /\ ["collection"; "filter"] = Server.mandatory s
       /\ Forall2 (fun p f => forall v, Server.p_default p = Some v ->
                                        Server.z_default f = Some v)
            (Server.properties deleteOne_tool) s.
Proof.
  assert (H : In deleteOne_tool Server.tools) by (vm_compute; tauto).
  split; [exact H|].
  exact (listed_schemas_agree deleteOne_tool H).
Defined.
